(** * Visibility-gated animation effects of the pipeline portfolio page

    A shallow embedding of the browser-side script [js/pipeline-main.js] and
    of [js/utils.js]: the device-capability helpers, the cleanup registry, the
    counter animation, the particles of the pipeline-node canvas, and the
    scheduling of the two canvas loops, the radar chart and the counters;
    further the throttle and debounce helpers, the geometry and the mouse
    handler of the node canvas with its tooltip, the particles of the second
    canvas, the project filters, the "Show More" toggle and [typeWriter].

    JavaScript numbers are modelled by exact rationals ([Q]), except the
    progress of the radar animation and the hit test of the mouse handler,
    which are computed in binary64, and the size of the node canvas, which
    is the integer the assignment to [canvas.width] leaves; [null] and
    [undefined] by [None]; a thrown exception by an explicit outcome; timers
    by the list of those set and not yet run. *)

From Stdlib Require Import List Bool Arith ZArith QArith Qround String Lia.
From Stdlib Require Floats.
From Stdlib Require Import Lqa.
From Stdlib Require Import Sorted.
Import ListNotations.

Set Implicit Arguments.
Close Scope Q_scope.

(* ================================================================= *)
(** ** Part I: definitions *)
(* ================================================================= *)

(** *** JavaScript values used by the script *)

Module JS.

(** [Math.floor] on a number. *)
Definition floor (x : Q) : Z := Qfloor x.

(** [a >= b] on numbers. *)
Definition geb (a b : Q) : bool := Qle_bool b a.

(** [v || d] for a number [v] that may be [undefined]: [undefined] and [0]
    are falsy. *)
Definition orN (v : option N) (d : N) : N :=
  match v with
  | Some n => if N.eqb n 0 then d else n
  | None => d
  end.

Definition orQ (v : option Q) (d : Q) : Q :=
  match v with
  | Some q => if Qeq_bool q 0%Q then d else q
  | None => d
  end.

(** The completion of a call: it returns, or it throws and the exception
    travels to the caller. Both carry the state reached. *)
Inductive Completion (A : Type) : Type :=
| Normal (a : A)
| Throw (a : A).

Arguments Normal {A} a.
Arguments Throw {A} a.

Definition stateOf {A} (c : Completion A) : A :=
  match c with Normal a => a | Throw a => a end.

Definition threw {A} (c : Completion A) : bool :=
  match c with Normal _ => false | Throw _ => true end.

(** Assigning a number to an [unsigned long] attribute that reflects a
    content attribute, as [canvas.width] and [canvas.height] do: the number
    is truncated toward zero and taken modulo 2^32, and a result above
    2147483647 is replaced by the attribute's default. *)
Definition truncate (v : Q) : Z := Z.quot (Qnum v) (Zpos (Qden v)).

Definition toUnsignedLong (v : Q) : Z := (truncate v mod 4294967296)%Z.

Definition reflectUnsignedLong (default : Z) (v : Q) : Z :=
  let u := toUnsignedLong v in
  if (u <=? 2147483647)%Z then u else default.

(** The binary64 number of an integer, and of a rational: the correctly
    rounded quotient, which is the number itself when it is a binary64
    number and the value of the literal when it is a short decimal such as
    0.15 = 15/100. *)
Definition ofZ (z : Z) : PrimFloat.float :=
  FloatOps.SF2Prim (SpecFloat.binary_normalize FloatOps.prec FloatOps.emax z 0 false).

Definition number (q : Q) : PrimFloat.float :=
  PrimFloat.div (ofZ (Qnum q)) (ofZ (Zpos (Qden q))).

End JS.

(** *** [Utils]: device hints (lines 39-51 of pipeline-main.js, 65-85 of utils.js) *)

Module Utils.

(** The hints [navigator.hardwareConcurrency] and [navigator.deviceMemory];
    either may be [undefined]. *)
Record Navigator : Type := {
  hardwareConcurrency : option N;
  deviceMemory : option Q
}.

(** [isLowEndDevice]: [cores <= 4 || memory <= 4] with the defaults 2 and 4. *)
Definition isLowEndDevice (nav : Navigator) : bool :=
  let cores := JS.orN (hardwareConcurrency nav) 2%N in
  let memory := JS.orQ (deviceMemory nav) 4%Q in
  N.leb cores 4 || Qle_bool memory 4%Q.

(** [isMobileDevice] of the inline [Utils]: [window.innerWidth < 768]. *)
Definition isMobileDevice (innerWidth : Z) : bool :=
  Z.ltb innerWidth 768%Z.

(** [const particleCount = isLowEnd ? 5 : (isMobile ? 10 : 20)]. *)
Definition particleCount (isLowEnd isMobile : bool) : nat :=
  if isLowEnd then 5 else if isMobile then 10 else 20.

(** The particle count a device gets. *)
Definition particleCountFor (nav : Navigator) (innerWidth : Z) : nat :=
  particleCount (isLowEndDevice nav) (isMobileDevice innerWidth).

End Utils.

(** *** [createCleanupRegistry] (lines 162-175 of utils.js) *)

Module Registry.

(** An installed event listener: target, event type, handler and the
    capture flag of its options. *)
Record Listener : Type := {
  target : string;
  event : string;
  handler : nat;
  capture : bool
}.

Definition Listener_eq_dec (a b : Listener) : {a = b} + {a <> b}.
Proof. decide equality; (apply string_dec || apply Nat.eq_dec || apply Bool.bool_dec). Defined.

(** The part of the page the registry acts on: the installed listeners and
    what was written to the console. *)
Record World : Type := {
  listeners : list Listener;
  console : list string
}.

(** A function of no arguments, such as the closures the registry keeps. *)
Definition Thunk : Type := World -> JS.Completion World.

(** Whatever is passed as [element]: any object with these two methods. *)
Record EventTarget : Type := {
  addEventListener : string -> nat -> bool -> Thunk;
  removeEventListener : string -> nat -> bool -> Thunk
}.

(** A DOM node: adding installs the listener unless an identical one is
    installed, removing uninstalls it; neither throws. *)
Definition domTarget (name : string) : EventTarget :=
  {| addEventListener := fun ev h cap w =>
       let l := {| target := name; event := ev; handler := h; capture := cap |} in
       JS.Normal
         {| listeners := if in_dec Listener_eq_dec l (listeners w)
                         then listeners w else listeners w ++ [l];
            console := console w |};
     removeEventListener := fun ev h cap w =>
       let l := {| target := name; event := ev; handler := h; capture := cap |} in
       JS.Normal
         {| listeners := remove Listener_eq_dec l (listeners w);
            console := console w |} |}.

(** An object whose [removeEventListener] throws. *)
Definition faultyTarget : EventTarget :=
  {| addEventListener := fun _ _ _ w => JS.Normal w;
     removeEventListener := fun _ _ _ w => JS.Throw w |}.

(** [const cleanups = []]: the closures, in registration order. *)
Definition Registry : Type := list Thunk.

Definition createCleanupRegistry : Registry := [].

(** [add(element, event, handler, options)]. *)
Definition add (reg : Registry) (element : EventTarget)
    (ev : string) (h : nat) (options : bool) (w : World)
  : JS.Completion (Registry * World) :=
  match addEventListener element ev h options w with
  | JS.Normal w' =>
      JS.Normal (reg ++ [removeEventListener element ev h options], w')
  | JS.Throw w' => JS.Throw (reg, w')
  end.

(** [cleanups.forEach(fn => fn())] from index [i] on. Next to the
    completion it returns the indices of the closures it called, in call
    order. A throwing closure ends the iteration. *)
Fixpoint forEach (fns : list Thunk) (i : nat) (w : World)
  : list nat * JS.Completion World :=
  match fns with
  | [] => ([], JS.Normal w)
  | fn :: rest =>
      match fn w with
      | JS.Normal w' =>
          let (calls, c) := forEach rest (S i) w' in (i :: calls, c)
      | JS.Throw w' => ([i], JS.Throw w')
      end
  end.

(** [cleanup()]: call every closure, then [cleanups.length = 0]. *)
Definition cleanup (reg : Registry) (w : World)
  : list nat * JS.Completion (Registry * World) :=
  match forEach reg 0 w with
  | (calls, JS.Normal w') => (calls, JS.Normal ([], w'))
  | (calls, JS.Throw w') => (calls, JS.Throw (reg, w'))
  end.

(** A closure that returns normally in every state. *)
Definition neverThrows (fn : Thunk) : Prop :=
  forall w, exists w', fn w = JS.Normal w'.

Definition emptyWorld : World := {| listeners := []; console := [] |}.

(** [add] three times in a row: a listener on the window, one on an
    object whose removal throws, one on the canvas. *)
Definition threeAdds : JS.Completion (Registry * World) :=
  match add createCleanupRegistry (domTarget "window") "resize" 1 false emptyWorld with
  | JS.Normal (r1, w1) =>
      match add r1 faultyTarget "scroll" 2 false w1 with
      | JS.Normal (r2, w2) => add r2 (domTarget "canvas") "mousemove" 3 false w2
      | c => c
      end
  | c => c
  end.

Definition canvasListener : Listener :=
  {| target := "canvas"; event := "mousemove"; handler := 3; capture := false |}.

End Registry.

(** *** [animateCounter] (lines 719-733) *)

Module Counter.

(** The variables captured by the interval callback, the element's text
    and whether the interval is still installed. [textContent] is the
    number last assigned to the element ([None]: the markup's own text). *)
Record State : Type := {
  current : Q;
  textContent : option Z;
  timer : bool
}.

Definition increment (target : Z) (duration : Q) : Q :=
  (inject_Z target / (duration / 16))%Q.

(** [animateCounter(element, target, duration)]: installs the interval. *)
Definition animateCounter (target : Z) (duration : Q) : State :=
  {| current := 0%Q; textContent := None; timer := true |}.

(** One firing of the interval callback. A cleared interval fires no more. *)
Definition tick (target : Z) (duration : Q) (s : State) : State :=
  if timer s then
    let current' := (current s + increment target duration)%Q in
    if JS.geb current' (inject_Z target) then
      {| current := current'; textContent := Some target; timer := false |}
    else
      {| current := current'; textContent := Some (JS.floor current'); timer := true |}
  else s.

Fixpoint ticks (target : Z) (duration : Q) (n : nat) (s : State) : State :=
  match n with
  | O => s
  | S n' => ticks target duration n' (tick target duration s)
  end.

(** The state [n] interval periods after the call. *)
Definition after (target : Z) (duration : Q) (n : nat) : State :=
  ticks target duration n (animateCounter target duration).

End Counter.

(** *** The pipeline-node canvas: nodes and particles (lines 113-204) *)

Module PipelineCanvas.

(** A node of the pipeline drawn on the canvas. *)
Record Node : Type := {
  x : Q;
  y : Q;
  label : string;
  color : string;
  section : string
}.

(** [const nodes = [...]]: the fixed five-node pipeline. *)
Definition nodes : list Node := [
  {| x := 15 # 100; y := 1 # 2; label := "INPUT"; color := "#00ff88"; section := "about" |};
  {| x := 30 # 100; y := 1 # 2; label := "PROCESS"; color := "#00d4ff"; section := "skills" |};
  {| x := 50 # 100; y := 1 # 2; label := "ENRICH"; color := "#fbbf24"; section := "experience" |};
  {| x := 70 # 100; y := 1 # 2; label := "OUTPUT"; color := "#ff0080"; section := "projects" |};
  {| x := 85 # 100; y := 1 # 2; label := "MONITOR"; color := "#a855f7"; section := "contact" |}
].

Definition Q_eq_dec (a b : Q) : {a = b} + {a <> b}.
Proof. decide equality; [apply Pos.eq_dec | apply Z.eq_dec]. Defined.

(** Identity of node objects. The five objects of [nodes] differ in every
    field, so comparing fields decides whether two references taken from
    the array are the same object. *)
Definition Node_eq_dec (a b : Node) : {a = b} + {a <> b}.
Proof. decide equality; (apply string_dec || apply Q_eq_dec). Defined.

(** [array.indexOf(n)]: the first index holding [n], or [-1]. *)
Fixpoint indexOfFrom (l : list Node) (n : Node) (i : Z) : Z :=
  match l with
  | [] => (-1)%Z
  | m :: l' => if Node_eq_dec m n then i else indexOfFrom l' n (i + 1)%Z
  end.

Definition indexOf (l : list Node) (n : Node) : Z := indexOfFrom l n 0%Z.

(** [nodes[i]]. Every read of the script is in range (see
    [nodeAt_in_range]); the first node stands in for [undefined]. *)
Definition nodeAt (i : Z) : Node :=
  nth (Z.to_nat i) nodes
      {| x := 15 # 100; y := 1 # 2; label := "INPUT"; color := "#00ff88"; section := "about" |}.

(** [class Particle]. *)
Record Particle : Type := {
  startNode : Node;
  endNode : Node;
  progress : Q;
  speed : Q;
  size : Q;
  opacity : Q;
  pcolor : string
}.

(** [new Particle(startNode, endNode)]; [r1] and [r2] are the two values
    [Math.random()] returns in the constructor. *)
Definition newParticle (startNode endNode : Node) (r1 r2 : Q) : Particle :=
  {| startNode := startNode;
     endNode := endNode;
     progress := 0%Q;
     speed := ((2 # 1000) + r1 * (3 # 1000))%Q;
     size := (2 + r2 * 2)%Q;
     opacity := (8 # 10)%Q;
     pcolor := color startNode |}.

(** [Particle.update()]. *)
Definition update (p : Particle) : Particle :=
  let progress' := (progress p + speed p)%Q in
  if JS.geb progress' 1%Q then
    let currentIndex := indexOf nodes (endNode p) in
    if (currentIndex <? Z.of_nat (List.length nodes) - 1)%Z then
      {| startNode := endNode p;
         endNode := nodeAt (currentIndex + 1);
         progress := 0%Q;
         speed := speed p; size := size p; opacity := opacity p;
         pcolor := color (endNode p) |}
    else
      {| startNode := nodeAt 0;
         endNode := nodeAt 1;
         progress := 0%Q;
         speed := speed p; size := size p; opacity := opacity p;
         pcolor := color (nodeAt 0) |}
  else
    {| startNode := startNode p;
       endNode := endNode p;
       progress := progress';
       speed := speed p; size := size p; opacity := opacity p;
       pcolor := pcolor p |}.

Fixpoint updates (n : nat) (p : Particle) : Particle :=
  match n with
  | O => p
  | S n' => updates n' (update p)
  end.

(** The loop "Create initial particles": particle [i] draws the values
    [random (3 * i)], [random (3 * i + 1)] and [random (3 * i + 2)] of
    [Math.random()], the first for its start index. *)
Definition createParticle (random : nat -> Q) (i : nat) : Particle :=
  let startIndex :=
    JS.floor (random (3 * i)%nat * inject_Z (Z.of_nat (List.length nodes) - 1)%Z)%Q in
  newParticle (nodeAt startIndex) (nodeAt (startIndex + 1))
              (random (3 * i + 1)) (random (3 * i + 2)).

Definition createParticles (random : nat -> Q) (particleCount : nat) : list Particle :=
  map (createParticle random) (seq 0 particleCount).

(** The particle travels along the edge from node [i] to node [i + 1]. *)
Definition onEdge (i : nat) (p : Particle) : Prop :=
  S i < List.length nodes /\
  nth_error nodes i = Some (startNode p) /\
  nth_error nodes (S i) = Some (endNode p).

(** Edge [i] is followed by edge [i + 1], the last edge by the first. *)
Definition nextEdge (i : nat) : nat :=
  if S (S i) <? List.length nodes then S i else 0.

(** The invariant of a particle. *)
Definition particleInv (p : Particle) : Prop :=
  (0 <= progress p)%Q /\ (progress p < 1)%Q /\ (0 <= speed p)%Q /\
  exists i, onEdge i p.

End PipelineCanvas.

(** *** What the host page delivers to the effects *)

Module Host.

(** An [IntersectionObserverEntry]. The script reads only [isIntersecting];
    the ratio is carried along. *)
Record Entry : Type := {
  isIntersecting : bool;
  intersectionRatio : Q
}.

(** How one run of a drawing body ends: it completes, or an exception is
    raised in it after [k] particles were updated. *)
Inductive BodyOutcome : Type :=
| Completes
| ThrowsAfter (k : nat).

(** What the page is like when an effect is created. [intersecting] says
    whether the canvas is inside the viewport at that moment (no function
    of the script reads it at creation), [body n] how the [n]-th run (from
    0) of the effect's drawing body will end, and [offsetSize] is the layout
    size of the canvas. *)
Record Env : Type := {
  canvasPresent : bool;
  prefersReducedMotion : bool;
  intersecting : bool;
  navigator : Utils.Navigator;
  innerWidth : Z;
  devicePixelRatio : Q;
  offsetSize : Z * Z;
  random : nat -> Q;
  body : nat -> BodyOutcome
}.

(** Events of the host: the animation-frame callbacks are run, the
    intersection observers are notified, the window is resized, the page
    is about to unload. *)
Inductive Event : Type :=
| AnimationFrame
| Intersection (entries : list Entry)
| Resize (offsetWidth offsetHeight : Z)
| BeforeUnload.

(** The event is a notification of the intersection observers. *)
Definition isNotification (e : Event) : bool :=
  match e with Intersection _ => true | _ => false end.

Definition isUnload (e : Event) : bool :=
  match e with BeforeUnload => true | _ => false end.

(** What the observer last reported about the canvas: every entry of a
    notification overrides what was known before. *)
Definition reported (known : bool) (e : Event) : bool :=
  match e with
  | Intersection entries =>
      fold_left (fun _ entry => isIntersecting entry) entries known
  | _ => known
  end.

(** The last report after a run of events; before the first notification
    the canvas counts as visible, as [let isCanvasVisible = true] has it. *)
Definition lastReported (events : list Event) : bool :=
  fold_left reported events true.

(** Truthiness of a frame handle that may be [null] or [undefined]. *)
Definition truthy (h : option nat) : bool :=
  match h with
  | Some (S _) => true
  | _ => false
  end.

(** [cancelAnimationFrame(h)] on the list of scheduled callbacks. *)
Definition cancel (h : option nat) (scheduled : list nat) : list nat :=
  match h with
  | Some n => remove Nat.eq_dec n scheduled
  | None => scheduled
  end.

End Host.

(** *** [initInteractivePipelineCanvas] (lines 103-336): the node canvas *)

Module NodeCanvas.

Import Host.

(** The closures pushed on [cleanupRegistry]. *)
Inductive CleanupFn : Type :=
| RemoveResize        (* line 148 *)
| DisconnectAndCancel (* lines 285-288 *)
| RemoveMouseMove.    (* line 319 *)

(** The variables of the closure, the host state it owns (scheduled frame
    callbacks, observer, listeners, console) and three counters kept for
    the statements: runs of the body of [animate], exceptions that reached
    the host, and the cleanup closures called so far. *)
Record State : Type := {
  isCanvasVisible : bool;
  animationFrameId : option nat;
  particles : list PipelineCanvas.Particle;
  canvasSize : Z * Z;
  scheduled : list nat;
  lastHandle : nat;
  observing : bool;
  resizeListener : bool;
  mouseMoveListener : bool;
  cleanupRegistry : list CleanupFn;
  console : list string;
  frameSteps : nat;
  uncaught : nat;
  cleanupCalls : list CleanupFn
}.

(** A frame step is scheduled. *)
Definition running (s : State) : bool :=
  match scheduled s with [] => false | _ :: _ => true end.

Definition blank : State :=
  {| isCanvasVisible := true; animationFrameId := None; particles := [];
     canvasSize := (0, 0)%Z; scheduled := []; lastHandle := 0;
     observing := false; resizeListener := false; mouseMoveListener := false;
     cleanupRegistry := []; console := []; frameSteps := 0; uncaught := 0;
     cleanupCalls := [] |}.

Definition reportError (s : State) : State :=
  {| isCanvasVisible := isCanvasVisible s; animationFrameId := animationFrameId s;
     particles := particles s; canvasSize := canvasSize s;
     scheduled := scheduled s; lastHandle := lastHandle s;
     observing := observing s; resizeListener := resizeListener s;
     mouseMoveListener := mouseMoveListener s;
     cleanupRegistry := cleanupRegistry s; console := console s;
     frameSteps := frameSteps s; uncaught := S (uncaught s);
     cleanupCalls := cleanupCalls s |}.

Section WithEnv.

Variable env : Env.

Definition isMobile : bool := Utils.isMobileDevice (innerWidth env).
Definition isLowEnd : bool := Utils.isLowEndDevice (navigator env).

(** [resizeCanvas()]: the canvas gets the element's size times the scale,
    as the integer the assignment to [canvas.width] leaves (the defaults of
    a canvas are 300 and 150). *)
Definition resizeCanvas (offsetWidth offsetHeight : Z) (s : State) : State :=
  let dpr := JS.orQ (Some (devicePixelRatio env)) 1%Q in
  let scale :=
    if isMobile then 1%Q else if Qle_bool dpr 2%Q then dpr else 2%Q in
  {| isCanvasVisible := isCanvasVisible s; animationFrameId := animationFrameId s;
     particles := particles s;
     canvasSize := (JS.reflectUnsignedLong 300 (inject_Z offsetWidth * scale),
                    JS.reflectUnsignedLong 150 (inject_Z offsetHeight * scale));
     scheduled := scheduled s; lastHandle := lastHandle s;
     observing := observing s; resizeListener := resizeListener s;
     mouseMoveListener := mouseMoveListener s;
     cleanupRegistry := cleanupRegistry s; console := console s;
     frameSteps := frameSteps s; uncaught := uncaught s;
     cleanupCalls := cleanupCalls s |}.

(** The drawing body of [animate] when an exception is raised after [k]
    particles: those [k] were updated, the others were not. *)
Definition updateSome (k : nat) (ps : list PipelineCanvas.Particle) :=
  map PipelineCanvas.update (firstn k ps) ++ skipn k ps.

(** [animate()] (lines 256-269). *)
Definition animate (s : State) : JS.Completion State :=
  if negb (isCanvasVisible s) then JS.Normal s
  else
    match body env (frameSteps s) with
    | Completes =>
        let h := S (lastHandle s) in
        JS.Normal
          {| isCanvasVisible := isCanvasVisible s; animationFrameId := Some h;
             particles := map PipelineCanvas.update (particles s);
             canvasSize := canvasSize s;
             scheduled := scheduled s ++ [h]; lastHandle := h;
             observing := observing s; resizeListener := resizeListener s;
             mouseMoveListener := mouseMoveListener s;
             cleanupRegistry := cleanupRegistry s; console := console s;
             frameSteps := S (frameSteps s); uncaught := uncaught s;
             cleanupCalls := cleanupCalls s |}
    | ThrowsAfter k =>
        JS.Throw
          {| isCanvasVisible := isCanvasVisible s;
             animationFrameId := animationFrameId s;
             particles := updateSome k (particles s);
             canvasSize := canvasSize s;
             scheduled := scheduled s; lastHandle := lastHandle s;
             observing := observing s; resizeListener := resizeListener s;
             mouseMoveListener := mouseMoveListener s;
             cleanupRegistry := cleanupRegistry s; console := console s;
             frameSteps := S (frameSteps s); uncaught := uncaught s;
             cleanupCalls := cleanupCalls s |}
    end.

(** [isCanvasVisible = entry.isIntersecting]. *)
Definition setVisible (v : bool) (s : State) : State :=
  {| isCanvasVisible := v; animationFrameId := animationFrameId s;
     particles := particles s; canvasSize := canvasSize s;
     scheduled := scheduled s; lastHandle := lastHandle s;
     observing := observing s; resizeListener := resizeListener s;
     mouseMoveListener := mouseMoveListener s;
     cleanupRegistry := cleanupRegistry s; console := console s;
     frameSteps := frameSteps s; uncaught := uncaught s;
     cleanupCalls := cleanupCalls s |}.

(** [cancelAnimationFrame(animationFrameId); animationFrameId = null]. *)
Definition cancelAndClear (s : State) : State :=
  {| isCanvasVisible := isCanvasVisible s; animationFrameId := None;
     particles := particles s; canvasSize := canvasSize s;
     scheduled := cancel (animationFrameId s) (scheduled s);
     lastHandle := lastHandle s;
     observing := observing s; resizeListener := resizeListener s;
     mouseMoveListener := mouseMoveListener s;
     cleanupRegistry := cleanupRegistry s; console := console s;
     frameSteps := frameSteps s; uncaught := uncaught s;
     cleanupCalls := cleanupCalls s |}.

(** The callback of [canvasObserver] (lines 272-282), entry by entry. An
    exception raised by [animate] leaves the [forEach]. *)
Fixpoint observerCallback (entries : list Entry) (s : State) : JS.Completion State :=
  match entries with
  | [] => JS.Normal s
  | entry :: rest =>
      let s1 := setVisible (isIntersecting entry) s in
      if isCanvasVisible s1 && negb (truthy (animationFrameId s1)) then
        match animate s1 with
        | JS.Normal s2 => observerCallback rest s2
        | JS.Throw s2 => JS.Throw s2
        end
      else if negb (isCanvasVisible s1) && truthy (animationFrameId s1) then
        observerCallback rest (cancelAndClear s1)
      else observerCallback rest s1
  end.

(** Assignments to single components. *)
Definition withScheduled (v : list nat) (s : State) : State :=
  {| isCanvasVisible := isCanvasVisible s; animationFrameId := animationFrameId s;
     particles := particles s; canvasSize := canvasSize s; scheduled := v;
     lastHandle := lastHandle s; observing := observing s;
     resizeListener := resizeListener s; mouseMoveListener := mouseMoveListener s;
     cleanupRegistry := cleanupRegistry s; console := console s;
     frameSteps := frameSteps s; uncaught := uncaught s;
     cleanupCalls := cleanupCalls s |}.

Definition withObserving (v : bool) (s : State) : State :=
  {| isCanvasVisible := isCanvasVisible s; animationFrameId := animationFrameId s;
     particles := particles s; canvasSize := canvasSize s;
     scheduled := scheduled s; lastHandle := lastHandle s; observing := v;
     resizeListener := resizeListener s; mouseMoveListener := mouseMoveListener s;
     cleanupRegistry := cleanupRegistry s; console := console s;
     frameSteps := frameSteps s; uncaught := uncaught s;
     cleanupCalls := cleanupCalls s |}.

Definition withResizeListener (v : bool) (s : State) : State :=
  {| isCanvasVisible := isCanvasVisible s; animationFrameId := animationFrameId s;
     particles := particles s; canvasSize := canvasSize s;
     scheduled := scheduled s; lastHandle := lastHandle s;
     observing := observing s; resizeListener := v;
     mouseMoveListener := mouseMoveListener s;
     cleanupRegistry := cleanupRegistry s; console := console s;
     frameSteps := frameSteps s; uncaught := uncaught s;
     cleanupCalls := cleanupCalls s |}.

Definition withMouseMoveListener (v : bool) (s : State) : State :=
  {| isCanvasVisible := isCanvasVisible s; animationFrameId := animationFrameId s;
     particles := particles s; canvasSize := canvasSize s;
     scheduled := scheduled s; lastHandle := lastHandle s;
     observing := observing s; resizeListener := resizeListener s;
     mouseMoveListener := v; cleanupRegistry := cleanupRegistry s;
     console := console s; frameSteps := frameSteps s; uncaught := uncaught s;
     cleanupCalls := cleanupCalls s |}.

Definition withRegistry (v : list CleanupFn) (s : State) : State :=
  {| isCanvasVisible := isCanvasVisible s; animationFrameId := animationFrameId s;
     particles := particles s; canvasSize := canvasSize s;
     scheduled := scheduled s; lastHandle := lastHandle s;
     observing := observing s; resizeListener := resizeListener s;
     mouseMoveListener := mouseMoveListener s; cleanupRegistry := v;
     console := console s; frameSteps := frameSteps s; uncaught := uncaught s;
     cleanupCalls := cleanupCalls s |}.

Definition withConsole (v : list string) (s : State) : State :=
  {| isCanvasVisible := isCanvasVisible s; animationFrameId := animationFrameId s;
     particles := particles s; canvasSize := canvasSize s;
     scheduled := scheduled s; lastHandle := lastHandle s;
     observing := observing s; resizeListener := resizeListener s;
     mouseMoveListener := mouseMoveListener s;
     cleanupRegistry := cleanupRegistry s; console := v;
     frameSteps := frameSteps s; uncaught := uncaught s;
     cleanupCalls := cleanupCalls s |}.

Definition withParticles (v : list PipelineCanvas.Particle) (s : State) : State :=
  {| isCanvasVisible := isCanvasVisible s; animationFrameId := animationFrameId s;
     particles := v; canvasSize := canvasSize s; scheduled := scheduled s;
     lastHandle := lastHandle s; observing := observing s;
     resizeListener := resizeListener s; mouseMoveListener := mouseMoveListener s;
     cleanupRegistry := cleanupRegistry s; console := console s;
     frameSteps := frameSteps s; uncaught := uncaught s;
     cleanupCalls := cleanupCalls s |}.

Definition withCleanupCalls (v : list CleanupFn) (s : State) : State :=
  {| isCanvasVisible := isCanvasVisible s; animationFrameId := animationFrameId s;
     particles := particles s; canvasSize := canvasSize s;
     scheduled := scheduled s; lastHandle := lastHandle s;
     observing := observing s; resizeListener := resizeListener s;
     mouseMoveListener := mouseMoveListener s;
     cleanupRegistry := cleanupRegistry s; console := console s;
     frameSteps := frameSteps s; uncaught := uncaught s; cleanupCalls := v |}.

(** Calling one closure of [cleanupRegistry]. *)
Definition callCleanup (s : State) (f : CleanupFn) : State :=
  withCleanupCalls (cleanupCalls s ++ [f])
    match f with
    | RemoveResize => withResizeListener false s
    | DisconnectAndCancel =>
        let s1 := withObserving false s in
        if truthy (animationFrameId s1)
        then withScheduled (cancel (animationFrameId s1) (scheduled s1)) s1
        else s1
    | RemoveMouseMove => withMouseMoveListener false s
    end.

(** Teardown of the effect: the closures it pushed are called in
    registration order. (The script pushes them and never calls them.) *)
Definition callCleanups (s : State) : State :=
  fold_left callCleanup (cleanupRegistry s) s.

(** [initInteractivePipelineCanvas()]. An exception raised by the first
    [animate()] (line 290) ends the function there and reaches the host. *)
Definition initInteractivePipelineCanvas : State :=
  if negb (canvasPresent env) then blank
  else if prefersReducedMotion env then
    withConsole ["Reduced motion preferred - skipping canvas animation"%string] blank
  else
    let particleCount := Utils.particleCount isLowEnd isMobile in
    let s1 := withResizeListener true
                (resizeCanvas (fst (offsetSize env)) (snd (offsetSize env)) blank) in
    let s2 := withRegistry (cleanupRegistry s1 ++ [RemoveResize]) s1 in
    let s3 := withParticles
                (PipelineCanvas.createParticles (random env) particleCount) s2 in
    let s4 := withObserving true s3 in
    let s5 := withRegistry (cleanupRegistry s4 ++ [DisconnectAndCancel]) s4 in
    match animate s5 with
    | JS.Normal s6 =>
        let s7 := withMouseMoveListener true s6 in
        withRegistry (cleanupRegistry s7 ++ [RemoveMouseMove]) s7
    | JS.Throw s6 => reportError s6
    end.

(** The host runs the frame callbacks it took off its list; an exception
    in one is reported and the next one still runs. *)
Fixpoint runCallbacks (callbacks : list nat) (s : State) : State :=
  match callbacks with
  | [] => s
  | _ :: rest =>
      match animate s with
      | JS.Normal s' => runCallbacks rest s'
      | JS.Throw s' => runCallbacks rest (reportError s')
      end
  end.

(** A host event reaches the code registered for it: a disconnected observer
    is notified of nothing, a removed listener is not called. [Resize]
    stands for a call the throttled handler lets through. *)
Definition onEvent (e : Event) (s : State) : State :=
  match e with
  | AnimationFrame => runCallbacks (scheduled s) (withScheduled [] s)
  | Intersection entries =>
      if observing s then
        match observerCallback entries s with
        | JS.Normal s' => s'
        | JS.Throw s' => reportError s'
        end
      else s
  | Resize w h => if resizeListener s then resizeCanvas w h s else s
  | BeforeUnload => s
  end.

(** What can happen to the effect: a host event, or its teardown. *)
Inductive Action : Type :=
| FromHost (e : Event)
| Teardown.

Definition step (s : State) (a : Action) : State :=
  match a with
  | FromHost e => onEvent e s
  | Teardown => callCleanups s
  end.

Definition run (actions : list Action) (s : State) : State :=
  fold_left step actions s.

(** The states the effect can be in. *)
Definition reachable (s : State) : Prop :=
  exists actions, s = run actions initInteractivePipelineCanvas.

End WithEnv.

(** At most one callback is scheduled; its handle is the one kept in
    [animationFrameId], and the canvas counts as visible. *)
Definition schedInv (s : State) : Prop :=
  scheduled s = [] \/
  exists h, scheduled s = [h] /\ animationFrameId s = Some h /\
            1 <= h /\ isCanvasVisible s = true.

(** While the observer observes, the closure that disconnects it is
    registered; while it does not, nothing is scheduled. *)
Definition regInv (s : State) : Prop :=
  (observing s = true -> In DisconnectAndCancel (cleanupRegistry s)) /\
  (observing s = false -> scheduled s = []).

(** What no event handler touches. *)
Definition sameFrame (s s' : State) : Prop :=
  cleanupCalls s' = cleanupCalls s /\ console s' = console s /\
  cleanupRegistry s' = cleanupRegistry s /\ observing s' = observing s /\
  resizeListener s' = resizeListener s /\
  mouseMoveListener s' = mouseMoveListener s.

(** Torn down: nothing scheduled and the observer disconnected. *)
Definition stopped (s : State) : Prop :=
  scheduled s = [] /\ observing s = false.

(** Observed and in step: either paused, with no handle kept, or running
    with the one scheduled handle kept. *)
Definition inStep (s : State) : Prop :=
  observing s = true /\
  ((scheduled s = [] /\ Host.truthy (animationFrameId s) = false) \/
   exists h, scheduled s = [h] /\ animationFrameId s = Some h /\
             1 <= h /\ isCanvasVisible s = true).

End NodeCanvas.

(** *** [initInteractivePipeline] (lines 1459-1613): the second canvas loop *)

Module Backdrop.

Import Host.

(** The variable [animationFrame] ([undefined] until the first request),
    the host state the effect owns and the two counters of the statements.
    The fifty drifting particles only decide what is drawn. *)
Record State : Type := {
  animationFrame : option nat;
  canvasSize : Z * Z;
  scheduled : list nat;
  lastHandle : nat;
  resizeListener : bool;
  beforeUnloadListener : bool;
  frameSteps : nat;
  uncaught : nat
}.

Definition running (s : State) : bool :=
  match scheduled s with [] => false | _ :: _ => true end.

Definition blank : State :=
  {| animationFrame := None; canvasSize := (0, 0)%Z; scheduled := [];
     lastHandle := 0; resizeListener := false; beforeUnloadListener := false;
     frameSteps := 0; uncaught := 0 |}.

Definition reportError (s : State) : State :=
  {| animationFrame := animationFrame s; canvasSize := canvasSize s;
     scheduled := scheduled s; lastHandle := lastHandle s;
     resizeListener := resizeListener s;
     beforeUnloadListener := beforeUnloadListener s;
     frameSteps := frameSteps s; uncaught := S (uncaught s) |}.

Definition withScheduled (v : list nat) (s : State) : State :=
  {| animationFrame := animationFrame s; canvasSize := canvasSize s;
     scheduled := v; lastHandle := lastHandle s;
     resizeListener := resizeListener s;
     beforeUnloadListener := beforeUnloadListener s;
     frameSteps := frameSteps s; uncaught := uncaught s |}.

Section WithEnv.

Variable env : Env.

(** [resizeCanvas()]: the canvas takes the size of its parent. *)
Definition resizeCanvas (offsetWidth offsetHeight : Z) (s : State) : State :=
  {| animationFrame := animationFrame s;
     canvasSize := (offsetWidth, offsetHeight);
     scheduled := scheduled s; lastHandle := lastHandle s;
     resizeListener := resizeListener s;
     beforeUnloadListener := beforeUnloadListener s;
     frameSteps := frameSteps s; uncaught := uncaught s |}.

(** [animate()] (lines 1521-1550): draw, then request the next frame. *)
Definition animate (s : State) : JS.Completion State :=
  match body env (frameSteps s) with
  | Completes =>
      let h := S (lastHandle s) in
      JS.Normal
        {| animationFrame := Some h; canvasSize := canvasSize s;
           scheduled := scheduled s ++ [h]; lastHandle := h;
           resizeListener := resizeListener s;
           beforeUnloadListener := beforeUnloadListener s;
           frameSteps := S (frameSteps s); uncaught := uncaught s |}
  | ThrowsAfter _ =>
      JS.Throw
        {| animationFrame := animationFrame s; canvasSize := canvasSize s;
           scheduled := scheduled s; lastHandle := lastHandle s;
           resizeListener := resizeListener s;
           beforeUnloadListener := beforeUnloadListener s;
           frameSteps := S (frameSteps s); uncaught := uncaught s |}
  end.

(** [initInteractivePipeline()]. Neither the motion preference nor the
    visibility of the canvas is read. *)
Definition initInteractivePipeline : State :=
  if negb (canvasPresent env) then blank
  else
    let s1 := resizeCanvas (fst (offsetSize env)) (snd (offsetSize env)) blank in
    let s2 :=
      {| animationFrame := animationFrame s1; canvasSize := canvasSize s1;
         scheduled := scheduled s1; lastHandle := lastHandle s1;
         resizeListener := true;
         beforeUnloadListener := beforeUnloadListener s1;
         frameSteps := frameSteps s1; uncaught := uncaught s1 |} in
    match animate s2 with
    | JS.Normal s3 =>
        {| animationFrame := animationFrame s3; canvasSize := canvasSize s3;
           scheduled := scheduled s3; lastHandle := lastHandle s3;
           resizeListener := resizeListener s3;
           beforeUnloadListener := true;
           frameSteps := frameSteps s3; uncaught := uncaught s3 |}
    | JS.Throw s3 => reportError s3
    end.

Fixpoint runCallbacks (callbacks : list nat) (s : State) : State :=
  match callbacks with
  | [] => s
  | _ :: rest =>
      match animate s with
      | JS.Normal s' => runCallbacks rest s'
      | JS.Throw s' => runCallbacks rest (reportError s')
      end
  end.

(** No intersection observer is created here, so a notification reaches
    no code of this effect; [beforeunload] cancels the pending frame. *)
Definition onEvent (s : State) (e : Event) : State :=
  match e with
  | AnimationFrame => runCallbacks (scheduled s) (withScheduled [] s)
  | Intersection _ => s
  | Resize w h => if resizeListener s then resizeCanvas w h s else s
  | BeforeUnload =>
      if beforeUnloadListener s
      then withScheduled (cancel (animationFrame s) (scheduled s)) s
      else s
  end.

Definition run (events : list Event) (s : State) : State :=
  fold_left onEvent events s.

End WithEnv.

(** At most one callback is scheduled, under the handle kept in
    [animationFrame], and then the [beforeunload] listener is installed. *)
Definition schedInv (s : State) : Prop :=
  scheduled s = [] \/
  exists h, scheduled s = [h] /\ animationFrame s = Some h /\
            beforeUnloadListener s = true.

End Backdrop.

(** *** [initSkillRadarChart]: the one-shot radar animation (lines 476-493) *)

Module SkillRadar.

Import Host.

(** Whether the observer still observes the container, the value of
    [progress] in every [animate] closure that has a frame requested, and
    how often the block under [if (entry.isIntersecting)] ran. *)
Record State : Type := {
  observing : bool;
  loops : list Q;
  draws : nat;
  fired : nat
}.

Definition initSkillRadarChart (containerPresent : bool) : State :=
  {| observing := containerPresent; loops := []; draws := 0; fired := 0 |}.

(** One call of an [animate] closure whose [progress] is [p]: draw, add
    0.02, request a frame while [progress <= 1]. *)
Definition animate (p : Q) (s : State) : State :=
  let p' := (p + (2 # 100))%Q in
  {| observing := observing s;
     loops := if Qle_bool p' 1 then loops s ++ [p'] else loops s;
     draws := S (draws s);
     fired := fired s |}.

(** The observer callback: every intersecting entry starts an animation and
    disconnects the observer. *)
Fixpoint observerCallback (entries : list Entry) (s : State) : State :=
  match entries with
  | [] => s
  | entry :: rest =>
      if isIntersecting entry then
        let s1 := animate 0
                    {| observing := observing s; loops := loops s;
                       draws := draws s; fired := S (fired s) |} in
        observerCallback rest
          {| observing := false; loops := loops s1;
             draws := draws s1; fired := fired s1 |}
      else observerCallback rest s
  end.

Definition onEvent (s : State) (e : Event) : State :=
  match e with
  | AnimationFrame =>
      fold_left (fun s' p => animate p s') (loops s)
        {| observing := observing s; loops := [];
           draws := draws s; fired := fired s |}
  | Intersection entries =>
      if observing s then observerCallback entries s else s
  | Resize _ _ => s
  | BeforeUnload => s
  end.

Definition run (events : list Event) (s : State) : State :=
  fold_left onEvent events s.

End SkillRadar.

(** *** [initMetricCounters] and [initImpactCounters] (lines 735-785) *)

Module Counters.

(** The section's [getBoundingClientRect()] and [window.innerHeight] at a
    check. *)
Record Viewport : Type := {
  rectTop : Z;
  rectBottom : Z;
  innerHeight : Z
}.

(** The flag [animated] (resp. [impactAnimated]), the counters started and
    how often the block under [if (isVisible)] ran. *)
Record State : Type := {
  animated : bool;
  counters : list Counter.State;
  fired : nat
}.

Section WithPage.

(** Whether the section exists, the [data-target] numbers of its
    counters, and the duration passed to [animateCounter]. *)
Variable sectionPresent : bool.
Variable targets : list Z.
Variable duration : Q.

(** [checkMetrics()] / [checkImpact()]. *)
Definition check (v : Viewport) (s : State) : State :=
  if negb sectionPresent || animated s then s
  else
    let isVisible :=
      (rectTop v <? innerHeight v)%Z && (rectBottom v >=? 0)%Z in
    if isVisible then
      {| animated := true;
         counters := map (fun t => Counter.animateCounter t duration) targets;
         fired := S (fired s) |}
    else s.

(** The function registers the scroll listener and checks once. *)
Definition init (atLoad : Viewport) : State :=
  check atLoad {| animated := false; counters := []; fired := 0 |}.

(** The scroll events that follow, each with the geometry it finds. *)
Definition scrolls (events : list Viewport) (s : State) : State :=
  fold_left (fun s' v => check v s') events s.

End WithPage.

(** The two instances: [animateCounter(metric, target)] runs with the
    default duration 2000, [animateCounter(number, target, 2500)] with 2500. *)
Definition checkMetrics (sectionPresent : bool) (targets : list Z) :=
  check sectionPresent targets 2000.

Definition initMetricCounters (sectionPresent : bool) (targets : list Z) :=
  init sectionPresent targets 2000.

Definition checkImpact (sectionPresent : bool) (targets : list Z) :=
  check sectionPresent targets 2500.

Definition initImpactCounters (sectionPresent : bool) (targets : list Z) :=
  init sectionPresent targets 2500.

Definition visible (v : Viewport) : bool :=
  (rectTop v <? innerHeight v)%Z && (rectBottom v >=? 0)%Z.

End Counters.

(** *** Pages and events used as examples *)

Module Scenario.

Import Host.

Definition desktop : Utils.Navigator :=
  {| Utils.hardwareConcurrency := Some 8%N; Utils.deviceMemory := Some 8%Q |}.

(** A drawing body that never throws, and one whose fifth run throws. *)
Definition steady (n : nat) : BodyOutcome := Completes.

Definition faultyFifth (n : nat) : BodyOutcome :=
  if n =? 4 then ThrowsAfter 0 else Completes.

(** A page with the canvas, on a normal-tier desktop. *)
Definition page (reduced visible : bool) (b : nat -> BodyOutcome) : Env :=
  {| canvasPresent := true;
     prefersReducedMotion := reduced;
     intersecting := visible;
     navigator := desktop;
     innerWidth := 1280;
     devicePixelRatio := 1;
     offsetSize := (800, 400)%Z;
     random := fun _ => (1 # 2)%Q;
     body := b |}.

Definition onScreen : Entry :=
  {| isIntersecting := true; intersectionRatio := 1 |}.

Definition offScreen : Entry :=
  {| isIntersecting := false; intersectionRatio := 0 |}.

Definition noNotification (events : list Event) : bool :=
  forallb (fun e => negb (isNotification e)) events.

Definition noUnload (events : list Event) : bool :=
  forallb (fun e => negb (isUnload e)) events.

End Scenario.

(** "Roughly one quarter": the low count is between a fifth and a third of
    the normal count. *)
Definition roughlyQuarter (low normal : nat) : Prop :=
  3 * low <= normal /\ normal <= 5 * low.

(** *** [throttle] (lines 14-31; lines 11-28 of utils.js) *)

Module Throttle.

Section WithFunc.

(** The arguments of a call of the throttled function, and [delay]. *)
Variable A : Type.
Variable delay : Z.

(** The closure variables [lastRan] ([undefined] at first) and the timer
    behind [timeoutId] (when it is due and the arguments its callback
    holds), and the calls of [func] made so far, oldest first, each with
    the value of [Date.now()] at the call. *)
Record State : Type := {
  lastRan : option Z;
  timeout : option (Z * A);
  executed : list (Z * A)
}.

Definition init : State :=
  {| lastRan := None; timeout := None; executed := [] |}.

(** [func.apply(this, args); lastRan = Date.now()]. *)
Definition runNow (now : Z) (args : A) (s : State) : State :=
  {| lastRan := Some now; timeout := timeout s;
     executed := executed s ++ [(now, args)] |}.

(** A call of the returned function at [Date.now() = now]. [!lastRan]
    holds for [undefined] and for [0]. A timer set with a negative delay is
    due at once. *)
Definition invoke (now : Z) (args : A) (s : State) : State :=
  match lastRan s with
  | None => runNow now args s
  | Some last =>
      if (last =? 0)%Z then runNow now args s
      else
        {| lastRan := lastRan s;
           timeout := Some ((now + Z.max 0 (delay - (now - last)))%Z, args);
           executed := executed s |}
  end.

(** The host runs the timer, at [Date.now() = now], no earlier than it is
    due: the callback runs [func] if [delay] has passed since [lastRan]. *)
Definition fire (now : Z) (s : State) : State :=
  match timeout s with
  | None => s
  | Some (due, args) =>
      if (due <=? now)%Z then
        match lastRan s with
        | Some last =>
            if (now - last >=? delay)%Z then
              {| lastRan := Some now; timeout := None;
                 executed := executed s ++ [(now, args)] |}
            else
              {| lastRan := lastRan s; timeout := None; executed := executed s |}
        | None =>
            {| lastRan := lastRan s; timeout := None; executed := executed s |}
        end
      else s
  end.

Inductive Event : Type :=
| Invoke (now : Z) (args : A)
| Fire (now : Z).

Definition time (e : Event) : Z :=
  match e with Invoke now _ => now | Fire now => now end.

Definition step (s : State) (e : Event) : State :=
  match e with
  | Invoke now args => invoke now args s
  | Fire now => fire now s
  end.

Definition run (events : list Event) (s : State) : State :=
  fold_left step events s.

(** The time of the last event, [from] if there is none. *)
Definition finish (from : Z) (events : list Event) : Z :=
  fold_left (fun _ e => time e) events from.

(** The clock does not run backwards. *)
Fixpoint clockwise (from : Z) (events : list Event) : Prop :=
  match events with
  | [] => True
  | e :: rest => (from <= time e)%Z /\ clockwise (time e) rest
  end.

(** Successive times are at least [delay] apart. *)
Fixpoint spaced (times : list Z) : Prop :=
  match times with
  | t1 :: ((t2 :: _) as rest) => (t1 + delay <= t2)%Z /\ spaced rest
  | _ => True
  end.

(** What an ordered run keeps: [lastRan] is the time of the last call of
    [func], a pending timer is due no earlier than [delay] after it, and
    the calls are spaced. *)
Definition inv (now : Z) (s : State) : Prop :=
  spaced (map fst (executed s)) /\
  match lastRan s with
  | None => executed s = [] /\ timeout s = None
  | Some last =>
      (0 < last <= now)%Z /\
      (exists older args, executed s = older ++ [(last, args)]) /\
      match timeout s with
      | Some (due, _) => (last + delay <= due)%Z
      | None => True
      end
  end.

End WithFunc.

End Throttle.

(** *** [debounce] (lines 36-42 of utils.js) *)

Module Debounce.

Section WithFunc.

Variable A : Type.
Variable delay : Z.

(** The timer behind [timeoutId] and the calls of [func] made so far. *)
Record State : Type := {
  timeout : option (Z * A);
  executed : list (Z * A)
}.

Definition init : State := {| timeout := None; executed := [] |}.

(** A call of the returned function: the pending timer is cleared and a
    new one set. *)
Definition invoke (now : Z) (args : A) (s : State) : State :=
  {| timeout := Some ((now + Z.max 0 delay)%Z, args); executed := executed s |}.

Definition fire (now : Z) (s : State) : State :=
  match timeout s with
  | None => s
  | Some (due, args) =>
      if (due <=? now)%Z then
        {| timeout := None; executed := executed s ++ [(now, args)] |}
      else s
  end.

(** A burst of calls, each with its time and arguments. *)
Definition invokes (calls : list (Z * A)) (s : State) : State :=
  fold_left (fun s' c => invoke (fst c) (snd c) s') calls s.

End WithFunc.

End Debounce.

(** *** Using the cleanup registry on DOM nodes *)

Module RegistryUse.

Import Registry.

(** The closure [add] pushes for a listener on a DOM node. *)
Definition removal (l : Listener) : Thunk :=
  removeEventListener (domTarget (target l)) (event l) (handler l) (capture l).

(** [registry.add(node, event, handler, options)] for each listener of a
    list, in order. *)
Fixpoint addAll (ls : list Listener) (reg : Registry) (w : World)
  : JS.Completion (Registry * World) :=
  match ls with
  | [] => JS.Normal (reg, w)
  | l :: rest =>
      match add reg (domTarget (target l)) (event l) (handler l) (capture l) w with
      | JS.Normal (reg', w') => addAll rest reg' w'
      | JS.Throw x => JS.Throw x
      end
  end.

End RegistryUse.

(** *** The counters of a section while their intervals fire *)

Module CounterRun.

(** All intervals were installed together with the same period, so they
    fire together: one round ticks every counter with its own target. *)
Definition tickAll (targets : list Z) (duration : Q)
    (cs : list Counter.State) : list Counter.State :=
  map (fun tc => Counter.tick (fst tc) duration (snd tc)) (combine targets cs).

Fixpoint rounds (targets : list Z) (duration : Q) (n : nat)
    (cs : list Counter.State) : list Counter.State :=
  match n with
  | O => cs
  | S n' => rounds targets duration n' (tickAll targets duration cs)
  end.

End CounterRun.

(** *** Where the node canvas draws (lines 132-143, 179-183, 220-224) *)

Module Drawing.

(** [const scale = isMobile ? 1 : Math.min(dpr, 2)] of [resizeCanvas], with
    [dpr = window.devicePixelRatio || 1]. *)
Definition canvasScale (isMobile : bool) (devicePixelRatio : Q) : Q :=
  let dpr := JS.orQ (Some devicePixelRatio) 1%Q in
  if isMobile then 1%Q else if Qle_bool dpr 2%Q then dpr else 2%Q.

(** [canvas.width = canvas.offsetWidth * scale]: [canvas.width] is an
    [unsigned long], so the product is truncated by the assignment. *)
Definition canvasWidth (isMobile : bool) (devicePixelRatio : Q) (offsetWidth : Z) : Z :=
  JS.reflectUnsignedLong 300
    (inject_Z offsetWidth * canvasScale isMobile devicePixelRatio).

(** The divisor [isMobile ? 1 : 2] the drawing code uses. *)
Definition divisor (isMobile : bool) : Q := if isMobile then 1%Q else 2%Q.

(** [node.x * canvas.width / scale] of [drawNodes] and [drawConnections]. *)
Definition nodeX (isMobile : bool) (width : Q) (n : PipelineCanvas.Node) : Q :=
  (PipelineCanvas.x n * width / divisor isMobile)%Q.

Definition nodeY (isMobile : bool) (height : Q) (n : PipelineCanvas.Node) : Q :=
  (PipelineCanvas.y n * height / divisor isMobile)%Q.

(** The centre [Particle.draw()] computes. *)
Definition particleX (isMobile : bool) (width : Q) (p : PipelineCanvas.Particle) : Q :=
  (PipelineCanvas.x (PipelineCanvas.startNode p) * (width / divisor isMobile) +
   (PipelineCanvas.x (PipelineCanvas.endNode p) -
    PipelineCanvas.x (PipelineCanvas.startNode p)) *
   (width / divisor isMobile) * PipelineCanvas.progress p)%Q.

Definition particleY (isMobile : bool) (height : Q) (p : PipelineCanvas.Particle) : Q :=
  (PipelineCanvas.y (PipelineCanvas.startNode p) * (height / divisor isMobile) +
   (PipelineCanvas.y (PipelineCanvas.endNode p) -
    PipelineCanvas.y (PipelineCanvas.startNode p)) *
   (height / divisor isMobile) * PipelineCanvas.progress p)%Q.

End Drawing.

(** *** The drifting particles of the second canvas (lines 1481-1513) *)

Module Drift.

Record Particle : Type := {
  x : Q;
  y : Q;
  vx : Q;
  vy : Q;
  life : Q;
  maxLife : Q;
  size : Q
}.

(** The six values [Math.random()] returns during one [reset()], in the
    order they are drawn. *)
Record Randoms : Type := {
  rx : Q;
  ry : Q;
  rvx : Q;
  rvy : Q;
  rlife : Q;
  rsize : Q
}.

Definition inUnit (r : Q) : Prop := (0 <= r)%Q /\ (r < 1)%Q.

Definition randomsOk (r : Randoms) : Prop :=
  inUnit (rx r) /\ inUnit (ry r) /\ inUnit (rvx r) /\ inUnit (rvy r) /\
  inUnit (rlife r) /\ inUnit (rsize r).

(** [reset()] on a canvas of the given size. *)
Definition reset (width height : Q) (r : Randoms) : Particle :=
  let l := (rlife r * 100 + 50)%Q in
  {| x := (rx r * width)%Q;
     y := (ry r * height)%Q;
     vx := ((rvx r - (1 # 2)) * (1 # 2))%Q;
     vy := ((rvy r - (1 # 2)) * (1 # 2))%Q;
     life := l;
     maxLife := l;
     size := (rsize r * 2 + 1)%Q |}.

Definition ltb (a b : Q) : bool := negb (Qle_bool b a).

(** [update()]; [r] holds the random values a reset would draw. *)
Definition update (width height : Q) (r : Randoms) (p : Particle) : Particle :=
  let x' := (x p + vx p)%Q in
  let y' := (y p + vy p)%Q in
  let life' := (life p - (1 # 2))%Q in
  if Qle_bool life' 0 || ltb x' 0 || ltb width x' || ltb y' 0 || ltb height y'
  then reset width height r
  else {| x := x'; y := y'; vx := vx p; vy := vy p;
          life := life'; maxLife := maxLife p; size := size p |}.

(** The alpha of [draw()]: [opacity * 0.6] with [opacity = life / maxLife]. *)
Definition alpha (p : Particle) : Q := (life p / maxLife p * (6 # 10))%Q.

(** A run of frames, each with the canvas size of that frame (a resize may
    come in between) and its random values. *)
Fixpoint updates (frames : list (Q * Q * Randoms)) (p : Particle) : Particle :=
  match frames with
  | [] => p
  | (w, h, r) :: rest => updates rest (update w h r p)
  end.

Definition frameOk (f : Q * Q * Randoms) : Prop :=
  (0 <= fst (fst f))%Q /\ (0 <= snd (fst f))%Q /\ randomsOk (snd f).

(** What [update()] keeps from frame to frame. *)
Definition driftInv (p : Particle) : Prop :=
  (life p <= maxLife p)%Q /\ (1 <= size p)%Q /\ (size p < 3)%Q.

(** What holds when [draw()] runs on a canvas of the given size. *)
Definition drawnInside (width height : Q) (p : Particle) : Prop :=
  (0 <= x p)%Q /\ (x p <= width)%Q /\ (0 <= y p)%Q /\ (y p <= height)%Q /\
  (0 < life p)%Q /\ (0 < alpha p)%Q /\ (alpha p <= 6 # 10)%Q.

(** Six values a reset may draw. *)
Definition sampleRandoms : Randoms :=
  {| rx := 1 # 2; ry := 1 # 4; rvx := 9 # 10;
     rvy := 1 # 10; rlife := 0; rsize := 1 # 3 |}.

End Drift.

(** *** The progress of the radar animation, in binary64 (lines 479-487) *)

Module RadarProgress.

Import PrimFloat.

(** One [animate] closure: [draws] are the values of [progress] handed to
    [drawSkillData], oldest first; [pending] says whether a frame is
    requested. *)
Record State : Type := {
  progress : float;
  draws : list float;
  pending : bool
}.

(** [animate()]: draw, [progress += 0.02], request a frame while
    [progress <= 1]. *)
#[warnings="-inexact-float"]
Definition animate (s : State) : State :=
  let p' := (progress s + 0.02)%float in
  {| progress := p'; draws := draws s ++ [progress s]; pending := leb p' 1 |}.

(** [let progress = 0; animate()]. *)
Definition start : State :=
  animate {| progress := 0%float; draws := []; pending := false |}.

(** An animation frame: the requested callback runs, if there is one. *)
Definition frame (s : State) : State :=
  if pending s then animate s else s.

Fixpoint frames (n : nat) (s : State) : State :=
  match n with
  | O => s
  | S n' => frames n' (frame s)
  end.

End RadarProgress.

(** *** [initProjectFilters] (lines 1149-1183) *)

Module ProjectFilters.

(** [haystack.includes(needle)] on strings. *)
Fixpoint includes (haystack needle : string) : bool :=
  String.prefix needle haystack ||
  match haystack with
  | EmptyString => false
  | String _ rest => includes rest needle
  end.

(** A project card: its [data-category] attribute ([None]: absent) and the
    inline styles the handler writes. *)
Record Card : Type := {
  category : option string;
  display : string;
  opacity : string;
  animation : string
}.

(** The two timer callbacks, for the card at [index]. *)
Inductive Timer : Type :=
| ShowCard (index : nat)
| HideCard (index : nat).

Definition index (t : Timer) : nat :=
  match t with ShowCard i => i | HideCard i => i end.

(** The cards, the [data-filter] of the active button, and the timers set
    and not yet run, each with the time it is due. *)
Record State : Type := {
  cards : list Card;
  active : option string;
  timers : list (Z * Timer)
}.

(** Whether the handler shows the card. Reading [includes] off an absent
    attribute throws. *)
Definition shows (filter : string) (c : Card) : JS.Completion bool :=
  if String.eqb filter "all" then JS.Normal true
  else match category c with
       | Some categories => JS.Normal (includes categories filter)
       | None => JS.Throw false
       end.

Definition fade (c : Card) : Card :=
  {| category := category c; display := display c; opacity := "0";
     animation := animation c |}.

(** [projectCards.forEach((card, index) => ...)] from [index] on: the cards
    as the loop leaves them and the timers it sets. *)
Fixpoint filterCards (now : Z) (filter : string) (i : nat) (cs : list Card)
  : JS.Completion (list Card * list (Z * Timer)) :=
  match cs with
  | [] => JS.Normal ([], [])
  | c :: rest =>
      match shows filter c with
      | JS.Normal true =>
          match filterCards now filter (S i) rest with
          | JS.Normal (cs', ts) =>
              JS.Normal (c :: cs', ((now + Z.of_nat i * 50)%Z, ShowCard i) :: ts)
          | JS.Throw (cs', ts) =>
              JS.Throw (c :: cs', ((now + Z.of_nat i * 50)%Z, ShowCard i) :: ts)
          end
      | JS.Normal false =>
          match filterCards now filter (S i) rest with
          | JS.Normal (cs', ts) =>
              JS.Normal (fade c :: cs', ((now + 300)%Z, HideCard i) :: ts)
          | JS.Throw (cs', ts) =>
              JS.Throw (fade c :: cs', ((now + 300)%Z, HideCard i) :: ts)
          end
      | JS.Throw _ => JS.Throw (c :: rest, [])
      end
  end.

(** The click handler of a filter button. *)
Definition click (now : Z) (filter : string) (s : State) : JS.Completion State :=
  match filterCards now filter 0 (cards s) with
  | JS.Normal (cs, ts) =>
      JS.Normal {| cards := cs; active := Some filter; timers := timers s ++ ts |}
  | JS.Throw (cs, ts) =>
      JS.Throw {| cards := cs; active := Some filter; timers := timers s ++ ts |}
  end.

(** What a timer callback does to its card. *)
Definition applyTimer (t : Timer) (c : Card) : Card :=
  match t with
  | ShowCard _ =>
      {| category := category c; display := "flex"; opacity := opacity c;
         animation := "fadeIn 0.5s ease-out" |}
  | HideCard _ =>
      {| category := category c; display := "none"; opacity := opacity c;
         animation := animation c |}
  end.

Fixpoint updateAt (i : nat) (f : Card -> Card) (cs : list Card) : list Card :=
  match cs, i with
  | [], _ => []
  | c :: rest, O => f c :: rest
  | c :: rest, S i' => c :: updateAt i' f rest
  end.

Fixpoint removeAt {T : Type} (k : nat) (l : list T) : list T :=
  match l, k with
  | [], _ => []
  | _ :: rest, O => rest
  | x :: rest, S k' => x :: removeAt k' rest
  end.

(** The [k]-th pending timer runs. The host runs timers in the order they
    are due; here any pending timer may run next, which covers that order. *)
Definition fire (k : nat) (s : State) : State :=
  match nth_error (timers s) k with
  | Some (_, t) =>
      {| cards := updateAt (index t) (applyTimer t) (cards s);
         active := active s;
         timers := removeAt k (timers s) |}
  | None => s
  end.

Inductive Event : Type :=
| Click (now : Z) (filter : string)
| Fire (k : nat).

Definition step (s : State) (e : Event) : State :=
  match e with
  | Click now filter => JS.stateOf (click now filter s)
  | Fire k => fire k s
  end.

Definition run (events : list Event) (s : State) : State :=
  fold_left step events s.

Definition fires (ks : list nat) (s : State) : State :=
  fold_left (fun s' k => fire k s') ks s.

(** The display the chosen filter asks for. *)
Definition wanted (filter : string) (c : Card) : string :=
  match shows filter c with
  | JS.Normal true => "flex"
  | _ => "none"
  end.

(** The display a timer callback writes. *)
Definition displayOf (t : Timer) : string :=
  match t with ShowCard _ => "flex" | HideCard _ => "none" end.

(** One round of the loop body that does not throw: the card as it leaves
    it and the timer it sets. *)
Definition marked (filter : string) (c : Card) : Card :=
  match shows filter c with
  | JS.Normal false => fade c
  | _ => c
  end.

Definition timerOf (now : Z) (filter : string) (ic : nat * Card) : Z * Timer :=
  match shows filter (snd ic) with
  | JS.Normal false => ((now + 300)%Z, HideCard (fst ic))
  | _ => ((now + Z.of_nat (fst ic) * 50)%Z, ShowCard (fst ic))
  end.

Definition noCategory (c : Card) : bool :=
  match category c with None => true | Some _ => false end.


(** Every pending timer writes what the filter asks for, and every card
    shows what the filter asks for or still has a timer to come. *)
Definition settling (filter : string) (s : State) : Prop :=
  (forall due t c, In (due, t) (timers s) ->
     nth_error (cards s) (index t) = Some c ->
     displayOf t = wanted filter c) /\
  (forall i c, nth_error (cards s) i = Some c ->
     display c = wanted filter c \/
     exists due t, In (due, t) (timers s) /\ index t = i).

(** The host runs the timers that are due in the order of their due times,
    and timers due at the same time in the order they were set. *)
Fixpoint insertDue (x : Z * Timer) (l : list (Z * Timer)) : list (Z * Timer) :=
  match l with
  | [] => [x]
  | y :: rest =>
      if (fst x <=? fst y)%Z then x :: l else y :: insertDue x rest
  end.

Fixpoint sortDue (l : list (Z * Timer)) : list (Z * Timer) :=
  match l with
  | [] => []
  | x :: rest => insertDue x (sortDue rest)
  end.

Definition runTimers (l : list (Z * Timer)) (cs : list Card) : list Card :=
  fold_left (fun cs' x => updateAt (index (snd x)) (applyTimer (snd x)) cs') l cs.

(** Time passes until [t]: every timer due by then runs. *)
Definition advance (t : Z) (s : State) : State :=
  {| cards :=
       runTimers (sortDue (filter (fun x => (fst x <=? t)%Z) (timers s))) (cards s);
     active := active s;
     timers := filter (fun x => negb (fst x <=? t)%Z) (timers s) |}.

(** The display the timers of a list leave on the card at [i], given the
    display it had. *)
Definition lastDisplay (i : nat) (l : list (Z * Timer)) (d : string) : string :=
  fold_left (fun d' x => if Nat.eqb (index (snd x)) i then displayOf (snd x) else d')
            l d.

Definition forCard (i : nat) (x : Z * Timer) : bool := Nat.eqb (index (snd x)) i.


(** The order in which the host runs timers. *)
Definition notBefore (x y : Z * Timer) : Prop := (fst x <= fst y)%Z.

End ProjectFilters.

(** *** The "Show More" toggle of [initCollapsibleSections] (lines 1246-1283) *)

Module ShowMore.

(** The inline [display] of every item of a list, whether the button was
    created, its [expanded] class and its label. *)
Record State : Type := {
  items : list string;
  hasButton : bool;
  expanded : bool;
  label : string
}.

(** [items.forEach((item, index) => { if (index >= 3) item.style.display = d })]. *)
Fixpoint setFrom (index : nat) (d : string) (ds : list string) : list string :=
  match ds with
  | [] => []
  | x :: rest => (if 3 <=? index then d else x) :: setFrom (S index) d rest
  end.

(** The body of [achievementLists.forEach] for one list, whose items have
    the given inline displays. *)
Definition init (displays : list string) : State :=
  if List.length displays <=? 3 then
    {| items := displays; hasButton := false; expanded := false; label := "" |}
  else
    {| items := setFrom 0 "none" displays; hasButton := true;
       expanded := false; label := "Show More" |}.

(** The click handler of the button; without a button there is nothing
    to click. *)
Definition click (s : State) : State :=
  if hasButton s then
    if expanded s then
      {| items := setFrom 0 "none" (items s); hasButton := true;
         expanded := false; label := "Show More" |}
    else
      {| items := setFrom 0 "list-item" (items s); hasButton := true;
         expanded := true; label := "Show Less" |}
  else s.

Fixpoint clicks (n : nat) (s : State) : State :=
  match n with
  | O => s
  | S n' => clicks n' (click s)
  end.

End ShowMore.

(** *** [typeWriter] (lines 853-866) *)

Module TypeWriter.

(** The counter [i], the element's text, and whether a timer for [type]
    is pending. *)
Record State : Type := {
  i : nat;
  textContent : string;
  pending : bool
}.

(** [text.charAt(i)]: the empty string outside the text. *)
Definition charAt (text : string) (i : nat) : string :=
  match String.get i text with
  | Some c => String c EmptyString
  | None => EmptyString
  end.

(** [type()]. *)
Definition type (text : string) (s : State) : State :=
  if i s <? String.length text then
    {| i := S (i s);
       textContent := String.append (textContent s) (charAt text (i s));
       pending := true |}
  else {| i := i s; textContent := textContent s; pending := false |}.

(** [typeWriter(element, text, speed)]. *)
Definition typeWriter (text : string) : State :=
  type text {| i := 0; textContent := EmptyString; pending := false |}.

(** The pending timer runs. *)
Definition fire (text : string) (s : State) : State :=
  if pending s then type text s else s.

Fixpoint fires (text : string) (n : nat) (s : State) : State :=
  match n with
  | O => s
  | S n' => fires text n' (fire text s)
  end.

End TypeWriter.

(** *** The node tooltip (lines 339-370) *)

Module Tooltip.

(** The inline styles and texts of [#pipeline-tooltip], and the due times
    of the timers [hidePipelineTooltip] has set and that have not run. *)
Record State : Type := {
  title : string;
  desc : string;
  display : string;
  opacity : string;
  left : Q;
  top : Q;
  timers : list Z
}.

(** [descriptions[node.section] || '']. *)
Definition description (section : string) : string :=
  if String.eqb section "about" then "Learn about my background and expertise"
  else if String.eqb section "skills" then "Explore my technical skills and tools"
  else if String.eqb section "experience" then "View my professional journey"
  else if String.eqb section "projects" then "Check out my featured projects"
  else if String.eqb section "contact" then "Get in touch with me"
  else "".

Section WithPage.

(** Whether [#pipeline-tooltip] exists, and whether it has both a
    [.tooltip-title] and a [.tooltip-desc]. *)
Variable tooltipPresent : bool.
Variable partsPresent : bool.

(** [showPipelineTooltip(node, x, y)]. *)
Definition showPipelineTooltip (node : PipelineCanvas.Node) (x y : Q)
    (s : State) : State :=
  if negb tooltipPresent then s
  else if negb partsPresent then s
  else {| title := PipelineCanvas.label node;
          desc := description (PipelineCanvas.section node);
          display := "block";
          opacity := "1";
          left := (x + 15)%Q;
          top := (y + 15)%Q;
          timers := timers s |}.

(** [hidePipelineTooltip()] at time [now]. *)
Definition hidePipelineTooltip (now : Z) (s : State) : State :=
  if tooltipPresent then
    {| title := title s; desc := desc s; display := display s;
       opacity := "0"; left := left s; top := top s;
       timers := timers s ++ [(now + 200)%Z] |}
  else s.

End WithPage.

(** The timer callback [() => tooltip.style.display = 'none']. *)
Definition expire (s : State) : State :=
  {| title := title s; desc := desc s; display := "none";
     opacity := opacity s; left := left s; top := top s;
     timers := timers s |}.

(** Time passes until [t]: every timer due by then runs. *)
Definition advance (t : Z) (s : State) : State :=
  let s' := fold_left (fun a _ => expire a)
                      (filter (fun d => (d <=? t)%Z) (timers s)) s in
  {| title := title s'; desc := desc s'; display := display s';
     opacity := opacity s'; left := left s'; top := top s';
     timers := filter (fun d => negb (d <=? t)%Z) (timers s) |}.

End Tooltip.

(** *** The mouse handler of the node canvas (lines 293-316) *)

Module Hover.

(** [e.clientX], [e.clientY] and the left and top of the canvas's bounding
    rectangle: binary64 numbers, given by their exact values. *)
Record Mouse : Type := {
  clientX : Q;
  clientY : Q;
  rectLeft : Q;
  rectTop : Q
}.

Record State : Type := {
  hoveredNode : option nat;
  cursor : string;
  tooltip : Tooltip.State
}.

Section WithCanvas.

(** Whether the viewport is narrow, [canvas.width] and [canvas.height],
    and which parts of the tooltip exist. *)
Variable isMobile : bool.
Variable width height : Q.
Variable tooltipPresent partsPresent : bool.

(** The hit test of one node, in binary64 as the script computes it:
    [mouseX = e.clientX - rect.left], [x = node.x * canvas.width / scale]
    with [scale = isMobile ? 1 : 2], and
    [Math.sqrt((mouseX - x) ** 2 + (mouseY - y) ** 2) < 35], the squares
    taken as products. *)
Definition within (m : Mouse) (n : PipelineCanvas.Node) : bool :=
  let mouseX := PrimFloat.sub (JS.number (clientX m)) (JS.number (rectLeft m)) in
  let mouseY := PrimFloat.sub (JS.number (clientY m)) (JS.number (rectTop m)) in
  let scale := JS.ofZ (if isMobile then 1 else 2) in
  let x := PrimFloat.div
             (PrimFloat.mul (JS.number (PipelineCanvas.x n)) (JS.number width))
             scale in
  let y := PrimFloat.div
             (PrimFloat.mul (JS.number (PipelineCanvas.y n)) (JS.number height))
             scale in
  let dx := PrimFloat.sub mouseX x in
  let dy := PrimFloat.sub mouseY y in
  let distance :=
    PrimFloat.sqrt (PrimFloat.add (PrimFloat.mul dx dx) (PrimFloat.mul dy dy)) in
  PrimFloat.ltb distance (JS.ofZ 35).

(** [nodes.forEach((node, index) => ...)] from [index] on. *)
Fixpoint scan (m : Mouse) (index : nat) (ns : list PipelineCanvas.Node)
    (s : State) : State :=
  match ns with
  | [] => s
  | n :: rest =>
      scan m (S index) rest
        (if within m n then
           {| hoveredNode := Some index;
              cursor := "pointer";
              tooltip := Tooltip.showPipelineTooltip tooltipPresent partsPresent
                           n (clientX m) (clientY m) (tooltip s) |}
         else s)
  end.

(** The function handed to [Utils.throttle], run at time [now]. *)
Definition handleMouseMove (now : Z) (m : Mouse) (s : State) : State :=
  let s1 := scan m 0 PipelineCanvas.nodes
              {| hoveredNode := None; cursor := cursor s; tooltip := tooltip s |} in
  match hoveredNode s1 with
  | None =>
      {| hoveredNode := None;
         cursor := "default";
         tooltip := Tooltip.hidePipelineTooltip tooltipPresent now (tooltip s1) |}
  | Some _ => s1
  end.

(** Time passes until [t]. *)
Definition advance (t : Z) (s : State) : State :=
  {| hoveredNode := hoveredNode s; cursor := cursor s;
     tooltip := Tooltip.advance t (tooltip s) |}.

(** The handler runs at [now], after the timers due by then. *)
Definition mouseMove (now : Z) (m : Mouse) (s : State) : State :=
  handleMouseMove now m (advance now s).

End WithCanvas.

End Hover.

(* ================================================================= *)
(** ** Part II: properties *)
(* ================================================================= *)

(** *** Device capability and particle count *)

Section ParticleCount.

Import Host NodeCanvas.

Variable env : Env.

Local Abbreviation count s := (List.length (particles s)).

Lemma animate_count (s : State) :
  count (JS.stateOf (animate env s)) = count s.
Proof.
  unfold animate. destruct (isCanvasVisible s); simpl; [|reflexivity].
  destruct (body env (frameSteps s)); simpl.
  - apply length_map.
  - unfold updateSome. rewrite length_app, length_map, <- length_app.
    now rewrite firstn_skipn.
Qed.

Lemma observerCallback_count (entries : list Entry) : forall s,
  count (JS.stateOf (observerCallback env entries s)) = count s.
Proof.
  induction entries as [|entry rest IH]; intros s; simpl; [reflexivity|].
  destruct (isIntersecting entry && negb (truthy (animationFrameId s))).
  - pose proof (animate_count (setVisible (isIntersecting entry) s)) as A.
    destruct (animate env (setVisible (isIntersecting entry) s)); simpl in *;
      [rewrite IH; exact A | exact A].
  - destruct (negb (isIntersecting entry) && truthy (animationFrameId s));
      now rewrite IH.
Qed.

Lemma runCallbacks_count (callbacks : list nat) : forall s,
  count (runCallbacks env callbacks s) = count s.
Proof.
  induction callbacks as [|h rest IH]; intros s; simpl; [reflexivity|].
  pose proof (animate_count s) as A.
  destruct (animate env s); simpl in *; rewrite IH; exact A.
Qed.

Lemma step_count (s : State) (a : Action) :
  count (step env s a) = count s.
Proof.
  destruct a as [e|]; simpl.
  - destruct e as [|entries|w h|]; simpl.
    + now rewrite runCallbacks_count.
    + destruct (observing s); [|reflexivity].
      pose proof (observerCallback_count entries s) as A.
      destruct (observerCallback env entries s); exact A.
    + destruct (resizeListener s); reflexivity.
    + reflexivity.
  - unfold callCleanups. generalize (cleanupRegistry s). intros fns.
    revert s. induction fns as [|f fns IH]; intros s; simpl; [reflexivity|].
    rewrite IH. destruct f; simpl; try reflexivity.
    unfold callCleanup. simpl. destruct (truthy (animationFrameId s)); reflexivity.
Qed.

Lemma run_count (actions : list Action) : forall s,
  count (run env actions s) = count s.
Proof.
  induction actions as [|a actions IH]; intros s; simpl; [reflexivity|].
  now rewrite IH, step_count.
Qed.

End ParticleCount.

(** The particles the node canvas has after creation. *)
Lemma initInteractivePipelineCanvas_count (env : Host.Env) :
  List.length (NodeCanvas.particles (NodeCanvas.initInteractivePipelineCanvas env))
  = if Host.canvasPresent env && negb (Host.prefersReducedMotion env)
    then Utils.particleCountFor (Host.navigator env) (Host.innerWidth env)
    else 0.
Proof.
  unfold NodeCanvas.initInteractivePipelineCanvas, Utils.particleCountFor.
  destruct (Host.canvasPresent env); simpl; [|reflexivity].
  destruct (Host.prefersReducedMotion env); simpl; [reflexivity|].
  match goal with |- context [NodeCanvas.animate env ?s] =>
    pose proof (animate_count env s) as A;
    destruct (NodeCanvas.animate env s); simpl in *; rewrite A
  end;
  unfold PipelineCanvas.createParticles; now rewrite length_map, length_seq.
Qed.

Lemma isLowEndDevice_two_cores (memory : option Q) :
  Utils.isLowEndDevice
    {| Utils.hardwareConcurrency := Some 2%N; Utils.deviceMemory := memory |} = true.
Proof. reflexivity. Qed.

Lemma isLowEndDevice_no_hint :
  Utils.isLowEndDevice
    {| Utils.hardwareConcurrency := None; Utils.deviceMemory := None |} = true.
Proof. reflexivity. Qed.

(** C7, as stated, fails: a normal-tier device with a narrow viewport gets 10
    particles, of which the low tier's 5 are one half. *)
Lemma particleCount_quarter_counterexample :
  let low := {| Utils.hardwareConcurrency := Some 2%N; Utils.deviceMemory := Some 8%Q |} in
  let normal := {| Utils.hardwareConcurrency := Some 8%N; Utils.deviceMemory := Some 8%Q |} in
  Utils.isLowEndDevice low = true /\
  Utils.isLowEndDevice normal = false /\
  Utils.particleCountFor low 500%Z = 5 /\
  Utils.particleCountFor normal 500%Z = 10 /\
  ~ roughlyQuarter (Utils.particleCountFor low 500%Z) (Utils.particleCountFor normal 500%Z).
Proof.
  cbv zeta. repeat split; try reflexivity.
  unfold roughlyQuarter. vm_compute. intros [H _].
  repeat (apply le_S_n in H). inversion H.
Qed.

(** C7 (amended): a device reporting 2 logical cores is in the low tier
    whatever its memory hint. At creation the node canvas of every low-tier
    device gets 5 particles, whatever the viewport; that is one quarter of
    the 20 the canvas of a normal-tier device gets on a viewport at least
    768 px wide, and one half of the 10 it gets on a narrower one. *)
Theorem particleCount_tiers (memory : option Q) (lowEnv normalEnv : Host.Env) :
  Host.canvasPresent lowEnv = true ->
  Host.prefersReducedMotion lowEnv = false ->
  Host.canvasPresent normalEnv = true ->
  Host.prefersReducedMotion normalEnv = false ->
  Utils.isLowEndDevice (Host.navigator lowEnv) = true ->
  Utils.isLowEndDevice (Host.navigator normalEnv) = false ->
  let low :=
    List.length
      (NodeCanvas.particles (NodeCanvas.initInteractivePipelineCanvas lowEnv)) in
  let normal :=
    List.length
      (NodeCanvas.particles (NodeCanvas.initInteractivePipelineCanvas normalEnv)) in
  Utils.isLowEndDevice
    {| Utils.hardwareConcurrency := Some 2%N; Utils.deviceMemory := memory |}
    = true /\
  low = Utils.particleCountFor (Host.navigator lowEnv) (Host.innerWidth lowEnv) /\
  low = 5 /\
  normal
    = Utils.particleCountFor (Host.navigator normalEnv) (Host.innerWidth normalEnv) /\
  ((768 <= Host.innerWidth normalEnv)%Z ->
   normal = 20 /\ normal = 4 * low /\ roughlyQuarter low normal) /\
  ((Host.innerWidth normalEnv < 768)%Z ->
   normal = 10 /\ normal = 2 * low /\ ~ roughlyQuarter low normal).
Proof.
  intros CL RL CN RN L N. cbv zeta.
  rewrite !initInteractivePipelineCanvas_count, CL, RL, CN, RN. simpl andb.
  cbv iota. unfold Utils.particleCountFor. rewrite L, N.
  unfold Utils.isMobileDevice, roughlyQuarter.
  split; [apply isLowEndDevice_two_cores|].
  split; [reflexivity|]. split; [reflexivity|]. split; [reflexivity|].
  split.
  - intros W. apply Z.ltb_ge in W. rewrite W. simpl. repeat split; lia.
  - intros W. apply Z.ltb_lt in W. rewrite W. simpl.
    split; [reflexivity|]. split; [reflexivity|]. lia.
Qed.

Lemma particleCount_tiers_witness :
  let lowEnv :=
    {| Host.canvasPresent := true; Host.prefersReducedMotion := false;
       Host.intersecting := true;
       Host.navigator := {| Utils.hardwareConcurrency := Some 2%N;
                            Utils.deviceMemory := Some 8%Q |};
       Host.innerWidth := 1280; Host.devicePixelRatio := 1;
       Host.offsetSize := (800, 400)%Z;
       Host.random := fun _ => (1 # 2)%Q; Host.body := Scenario.steady |} in
  let normalEnv := Scenario.page false true Scenario.steady in
  let low :=
    List.length
      (NodeCanvas.particles (NodeCanvas.initInteractivePipelineCanvas lowEnv)) in
  let normal :=
    List.length
      (NodeCanvas.particles (NodeCanvas.initInteractivePipelineCanvas normalEnv)) in
  Utils.isLowEndDevice
    {| Utils.hardwareConcurrency := Some 2%N; Utils.deviceMemory := None |}
    = true /\
  low = Utils.particleCountFor (Host.navigator lowEnv) (Host.innerWidth lowEnv) /\
  low = 5 /\
  normal
    = Utils.particleCountFor (Host.navigator normalEnv) (Host.innerWidth normalEnv) /\
  ((768 <= Host.innerWidth normalEnv)%Z ->
   normal = 20 /\ normal = 4 * low /\ roughlyQuarter low normal) /\
  ((Host.innerWidth normalEnv < 768)%Z ->
   normal = 10 /\ normal = 2 * low /\ ~ roughlyQuarter low normal).
Proof.
  cbv zeta.
  apply (@particleCount_tiers None
           {| Host.canvasPresent := true; Host.prefersReducedMotion := false;
              Host.intersecting := true;
              Host.navigator := {| Utils.hardwareConcurrency := Some 2%N;
                                   Utils.deviceMemory := Some 8%Q |};
              Host.innerWidth := 1280; Host.devicePixelRatio := 1;
              Host.offsetSize := (800, 400)%Z;
              Host.random := fun _ => (1 # 2)%Q; Host.body := Scenario.steady |}
           (Scenario.page false true Scenario.steady)); reflexivity.
Defined.

(** *** The counter animation *)

Section CounterFacts.

Variable target : Z.
Variable duration : Q.
Hypothesis target_pos : (0 < target)%Z.
Hypothesis duration_pos : (0 < duration)%Q.

Local Abbreviation inc := (Counter.increment target duration).
Local Abbreviation step := (Counter.tick target duration).
Local Abbreviation run := (Counter.ticks target duration).

Lemma increment_pos : (0 < inc)%Q.
Proof.
  unfold Counter.increment.
  apply Qlt_shift_div_l.
  - apply Qlt_shift_div_l; [reflexivity | now rewrite Qmult_0_l].
  - rewrite Qmult_0_l. unfold Qlt; simpl. lia.
Qed.

Lemma ticks_add (a b : nat) (s : Counter.State) :
  run (a + b) s = run b (run a s).
Proof.
  revert s; induction a as [|a IH]; intros s; simpl; [reflexivity|].
  apply IH.
Qed.

Lemma ticks_stopped (n : nat) (s : Counter.State) :
  Counter.timer s = false -> run n s = s.
Proof.
  intros H; induction n as [|n IH]; simpl; [reflexivity|].
  unfold Counter.tick; rewrite H. exact IH.
Qed.

(** What one firing does while the interval is installed. *)
Lemma tick_reaches (s : Counter.State) :
  Counter.timer s = true ->
  (inject_Z target <= Counter.current s + inc)%Q ->
  Counter.timer (step s) = false /\ Counter.textContent (step s) = Some target.
Proof.
  intros Ht Hge. unfold Counter.tick. rewrite Ht.
  unfold JS.geb.
  apply Qle_bool_iff in Hge. rewrite Hge. split; reflexivity.
Qed.

Lemma tick_below (s : Counter.State) :
  Counter.timer s = true ->
  ~ (inject_Z target <= Counter.current s + inc)%Q ->
  Counter.timer (step s) = true /\
  Counter.current (step s) = (Counter.current s + inc)%Q /\
  Counter.textContent (step s) = Some (JS.floor (Counter.current (step s))) /\
  (Counter.current (step s) < inject_Z target)%Q.
Proof.
  intros Ht Hlt. unfold Counter.tick. rewrite Ht.
  unfold JS.geb.
  destruct (Qle_bool (inject_Z target) (Counter.current s + inc)) eqn:E.
  - apply Qle_bool_iff in E. contradiction.
  - simpl. repeat split. now apply Qnot_le_lt.
Qed.

(** From a state whose running value is within [k] increments of the
    target, the interval is cleared after at most [k + 1] firings, and
    every firing before the last one displays the floor of a value below
    the target. *)
Lemma ticks_reach (k : nat) : forall s : Counter.State,
  Counter.timer s = true ->
  (inject_Z target <= Counter.current s + inject_Z (Z.of_nat k) * inc)%Q ->
  exists n, 1 <= n <= S k /\
    Counter.timer (run n s) = false /\
    Counter.textContent (run n s) = Some target /\
    forall m, 0 < m < n ->
      Counter.timer (run m s) = true /\
      Counter.textContent (run m s) = Some (JS.floor (Counter.current (run m s))) /\
      (Counter.current (run m s) < inject_Z target)%Q.
Proof.
  induction k as [|k IH]; intros s Ht Hk.
  - exists 1. split; [lia|].
    assert (Hge : (inject_Z target <= Counter.current s + inc)%Q).
    { eapply Qle_trans; [exact Hk|].
      apply Qplus_le_r. simpl. rewrite Qmult_0_l.
      apply Qlt_le_weak, increment_pos. }
    destruct (tick_reaches s Ht Hge) as [H1 H2].
    split; [exact H1|]. split; [exact H2|]. intros m Hm; lia.
  - destruct (Qlt_le_dec (Counter.current s + inc) (inject_Z target)) as [Hlt|Hge].
    + destruct (tick_below s Ht (Qlt_not_le _ _ Hlt)) as (T1 & T2 & T3 & T4).
      destruct (IH (step s) T1) as (n & Hn & F1 & F2 & F3).
      { rewrite T2. eapply Qle_trans; [exact Hk|].
        rewrite Nat2Z.inj_succ. unfold Z.succ. rewrite inject_Z_plus.
        apply Qle_lteq; right. ring. }
      exists (S n). split; [lia|]. simpl.
      split; [exact F1|]. split; [exact F2|].
      intros m Hm. destruct m as [|m]; [lia|]. simpl.
      destruct m as [|m]; [now repeat split|]. apply F3; lia.
    + exists 1. split; [lia|].
      destruct (tick_reaches s Ht Hge) as [H1 H2].
      split; [exact H1|]. split; [exact H2|]. intros m Hm; lia.
Qed.

(** Enough firings bring the running value to the target. *)
Lemma increments_cover :
  (inject_Z target <=
     0 + inject_Z (Z.of_nat (Z.to_nat (target * Zpos (Qden inc)))) * inc)%Q.
Proof.
  pose proof increment_pos as Hp.
  rewrite Z2Nat.id by lia. rewrite Qplus_0_l.
  destruct inc as [p q]. unfold Qlt in Hp; simpl in Hp.
  unfold Qle; simpl. nia.
Qed.

Lemma floor_below_target (x : Q) :
  (x < inject_Z target)%Q -> (JS.floor x < target)%Z.
Proof.
  intros H. unfold JS.floor.
  destruct (Z_lt_le_dec (Qfloor x) target) as [L|G]; [exact L|exfalso].
  apply (Qlt_irrefl x). eapply Qlt_le_trans; [exact H|].
  eapply Qle_trans; [|apply Qfloor_le].
  rewrite <- Zle_Qle. exact G.
Qed.

End CounterFacts.

(** C9: for a positive integer target (and a positive duration, as at both
    call sites) the counter animation terminates: after some number [n] of
    interval firings the interval is cleared with the element showing exactly
    the target, and nothing changes afterwards; every display before that is
    the floor of a running value strictly below the target, hence below the
    target itself. *)
Theorem animateCounter_reaches_target (target : Z) (duration : Q) :
  (0 < target)%Z -> (0 < duration)%Q ->
  exists n : nat,
    Counter.timer (Counter.after target duration n) = false /\
    Counter.textContent (Counter.after target duration n) = Some target /\
    (forall m, n <= m ->
       Counter.after target duration m = Counter.after target duration n) /\
    (forall m, 0 < m < n ->
       let s := Counter.after target duration m in
       Counter.timer s = true /\
       Counter.textContent s = Some (JS.floor (Counter.current s)) /\
       (Counter.current s < inject_Z target)%Q /\
       (JS.floor (Counter.current s) < target)%Z).
Proof.
  intros Ht Hd.
  destruct (ticks_reach Ht Hd (Z.to_nat (target * Zpos (Qden (Counter.increment target duration))))
              (Counter.animateCounter target duration) eq_refl
              (increments_cover Ht Hd))
    as (n & Hn & F1 & F2 & F3).
  exists n. unfold Counter.after.
  split; [exact F1|]. split; [exact F2|]. split.
  - intros m Hm. replace m with (n + (m - n)) by lia.
    rewrite ticks_add. now apply ticks_stopped.
  - intros m Hm. destruct (F3 m Hm) as (G1 & G2 & G3). cbv zeta.
    repeat split; try assumption.
    now apply floor_below_target.
Qed.

Lemma animateCounter_reaches_target_witness :
  exists n : nat,
    Counter.timer (Counter.after 500 2000 n) = false /\
    Counter.textContent (Counter.after 500 2000 n) = Some 500%Z /\
    (forall m, n <= m -> Counter.after 500 2000 m = Counter.after 500 2000 n) /\
    (forall m, 0 < m < n ->
       let s := Counter.after 500 2000 m in
       Counter.timer s = true /\
       Counter.textContent s = Some (JS.floor (Counter.current s)) /\
       (Counter.current s < inject_Z 500)%Q /\
       (JS.floor (Counter.current s) < 500)%Z).
Proof.
  apply (animateCounter_reaches_target (target := 500) (duration := 2000));
    reflexivity.
Defined.

(** *** Particles of the pipeline-node canvas *)

Section ParticleFacts.

Import PipelineCanvas.

(** Every index the script reads [nodes] at is inside the array. *)
Lemma nodeAt_in_range (i : Z) :
  (0 <= i < Z.of_nat (List.length nodes))%Z ->
  nth_error nodes (Z.to_nat i) = Some (nodeAt i).
Proof.
  intros H. unfold nodeAt. apply nth_error_nth'.
  apply Nat2Z.inj_lt. rewrite Z2Nat.id; lia.
Qed.

Lemma onEdge_cases (i : nat) (p : Particle) :
  onEdge i p ->
  (i = 0 \/ i = 1 \/ i = 2 \/ i = 3) /\
  startNode p = nodeAt (Z.of_nat i) /\
  endNode p = nodeAt (Z.of_nat (S i)).
Proof.
  intros (Hi & Hs & He). simpl in Hi.
  assert (Hc : i = 0 \/ i = 1 \/ i = 2 \/ i = 3) by lia.
  split; [exact Hc|].
  destruct Hc as [-> | [-> | [-> | ->]]]; simpl in Hs, He;
    injection Hs as <-; injection He as <-; split; reflexivity.
Qed.

(** Where a particle that finishes its edge goes. *)
Lemma update_wraps (i : nat) (p : Particle) :
  onEdge i p ->
  (1 <= progress p + speed p)%Q ->
  onEdge (nextEdge i) (update p) /\ progress (update p) = 0%Q /\
  speed (update p) = speed p /\
  pcolor (update p) = color (startNode (update p)).
Proof.
  intros He Hge. destruct (onEdge_cases He) as (Hc & Hs & Hen).
  unfold update. unfold JS.geb.
  apply Qle_bool_iff in Hge. rewrite Hge. rewrite Hen.
  destruct Hc as [-> | [-> | [-> | ->]]]; vm_compute; repeat split; try reflexivity;
    apply Nat.leb_le; reflexivity.
Qed.

Lemma update_advances (i : nat) (p : Particle) :
  onEdge i p ->
  ~ (1 <= progress p + speed p)%Q ->
  onEdge i (update p) /\ progress (update p) = (progress p + speed p)%Q /\
  speed (update p) = speed p /\
  pcolor (update p) = pcolor p.
Proof.
  intros He Hlt. unfold update, JS.geb.
  destruct (Qle_bool 1 (progress p + speed p)) eqn:E.
  - apply Qle_bool_iff in E. contradiction.
  - simpl. repeat split; apply He.
Qed.

Lemma update_preserves (p : Particle) :
  particleInv p -> particleInv (update p).
Proof.
  intros (H0 & H1 & Hs & i & He).
  destruct (Qlt_le_dec (progress p + speed p) 1) as [Hlt|Hge].
  - destruct (update_advances He (Qlt_not_le _ _ Hlt)) as (E1 & E2 & E3 & _).
    unfold particleInv. rewrite E2, E3. repeat split; try assumption.
    + replace 0%Q with (0 + 0)%Q by reflexivity. now apply Qplus_le_compat.
    + now exists i.
  - destruct (update_wraps He Hge) as (E1 & E2 & E3 & _).
    unfold particleInv. rewrite E2, E3. repeat split; try assumption.
    + apply Qle_refl.
    + now exists (nextEdge i).
Qed.

Lemma updates_preserve (n : nat) : forall p,
  particleInv p -> particleInv (updates n p).
Proof.
  induction n as [|n IH]; intros p H; simpl; [exact H|].
  apply IH, update_preserves, H.
Qed.

Lemma startIndex_range (r : Q) :
  (0 <= r)%Q -> (r < 1)%Q ->
  (0 <= JS.floor (r * inject_Z (Z.of_nat (List.length nodes) - 1)) < 4)%Z.
Proof.
  intros H0 H1. unfold JS.floor. simpl inject_Z.
  split.
  - change 0%Z with (Qfloor 0). apply Qfloor_resp_le.
    replace 0%Q with (0 * inject_Z 4)%Q by reflexivity.
    apply Qmult_le_compat_r; [exact H0 | discriminate].
  - destruct (Z_lt_le_dec (Qfloor (r * inject_Z 4)) 4) as [L|G]; [exact L|exfalso].
    apply (Qlt_irrefl (r * inject_Z 4)).
    eapply Qlt_le_trans with (y := inject_Z 4).
    + replace (inject_Z 4) with (1 * inject_Z 4)%Q at 2 by reflexivity.
      apply Qmult_lt_compat_r; [reflexivity | exact H1].
    + eapply Qle_trans; [|apply Qfloor_le]. rewrite <- Zle_Qle. exact G.
Qed.

Lemma createParticle_inv (random : nat -> Q) (i : nat) :
  (forall k, (0 <= random k)%Q /\ (random k < 1)%Q) ->
  particleInv (createParticle random i).
Proof.
  intros Hr. unfold createParticle.
  destruct (Hr (3 * i)) as [A0 A1].
  pose proof (startIndex_range A0 A1) as Hidx.
  set (startIndex := JS.floor _) in *.
  unfold particleInv, newParticle; simpl progress; simpl speed.
  split; [apply Qle_refl|]. split; [reflexivity|]. split.
  - destruct (Hr (3 * i + 1)) as [B0 _].
    apply Qle_trans with ((2 # 1000) + 0)%Q; [discriminate|].
    apply Qplus_le_r. apply Qmult_le_0_compat; [exact B0 | discriminate].
  - exists (Z.to_nat startIndex). unfold onEdge; simpl startNode; simpl endNode.
    split; [simpl; lia|]. split.
    + apply nodeAt_in_range. simpl. lia.
    + replace (S (Z.to_nat startIndex)) with (Z.to_nat (startIndex + 1)) by lia.
      apply nodeAt_in_range. simpl. lia.
Qed.

End ParticleFacts.

(** C10: every particle the canvas creates keeps, after every update step,
    its progress in the half-open interval from 0 to 1 and travels along an
    edge of the five-node array, from a node to the node right after it; a
    step either stays on the edge or moves to the following edge with
    progress 0, and the edge after the last one (node 3 to node 4) is the
    first one (node 0 to node 1). *)
Theorem particle_progress_and_edge (random : nat -> Q) (particleCount : nat) :
  (forall k, (0 <= random k)%Q /\ (random k < 1)%Q) ->
  forall p, In p (PipelineCanvas.createParticles random particleCount) ->
  forall n,
    let q := PipelineCanvas.updates n p in
    (0 <= PipelineCanvas.progress q)%Q /\
    (PipelineCanvas.progress q < 1)%Q /\
    (exists i, PipelineCanvas.onEdge i q) /\
    (forall i, PipelineCanvas.onEdge i q ->
       PipelineCanvas.onEdge i (PipelineCanvas.update q) \/
       (PipelineCanvas.onEdge (PipelineCanvas.nextEdge i) (PipelineCanvas.update q) /\
        PipelineCanvas.progress (PipelineCanvas.update q) = 0%Q)) /\
    (PipelineCanvas.onEdge 3 q ->
     (1 <= PipelineCanvas.progress q + PipelineCanvas.speed q)%Q ->
     PipelineCanvas.onEdge 0 (PipelineCanvas.update q)).
Proof.
  intros Hr p Hin n q.
  assert (Hp : PipelineCanvas.particleInv p).
  { unfold PipelineCanvas.createParticles in Hin.
    apply in_map_iff in Hin. destruct Hin as (i & <- & _).
    now apply createParticle_inv. }
  pose proof (updates_preserve n Hp) as (H0 & H1 & Hs & Hi). fold q in H0, H1, Hs, Hi.
  split; [exact H0|]. split; [exact H1|]. split; [exact Hi|]. split.
  - intros i He.
    destruct (Qlt_le_dec (PipelineCanvas.progress q + PipelineCanvas.speed q) 1) as [Hlt|Hge].
    + left. apply (update_advances He (Qlt_not_le _ _ Hlt)).
    + right. destruct (update_wraps He Hge) as (E1 & E2 & _). now split.
  - intros He Hge. apply (update_wraps He Hge).
Qed.

Lemma particle_progress_and_edge_witness :
  let random := fun _ : nat => (1 # 2)%Q in
  let p := PipelineCanvas.createParticle random 0 in
  let q := PipelineCanvas.updates 3 p in
  In p (PipelineCanvas.createParticles random 5) /\
  (0 <= PipelineCanvas.progress q)%Q /\
  (PipelineCanvas.progress q < 1)%Q /\
  (exists i, PipelineCanvas.onEdge i q).
Proof.
  cbv zeta.
  assert (Hin : In (PipelineCanvas.createParticle (fun _ : nat => (1 # 2)%Q) 0)
                   (PipelineCanvas.createParticles (fun _ : nat => (1 # 2)%Q) 5))
    by (left; reflexivity).
  split; [exact Hin|].
  destruct (@particle_progress_and_edge (fun _ : nat => (1 # 2)%Q) 5
              (fun k => conj (ltac:(discriminate) : (0 <= 1 # 2)%Q)
                             (eq_refl : (1 # 2 < 1)%Q))
              _ Hin 3) as (A & B & C & _).
  split; [exact A|]. split; [exact B | exact C].
Defined.

(** *** The loop of the node canvas *)

Section NodeCanvasFacts.

Import Host NodeCanvas.

Variable env : Env.

Lemma sameFrame_refl (s : State) : sameFrame s s.
Proof. repeat split. Qed.

Lemma sameFrame_trans (a b c : State) :
  sameFrame a b -> sameFrame b c -> sameFrame a c.
Proof.
  unfold sameFrame. intros (A1 & A2 & A3 & A4 & A5 & A6) (B1 & B2 & B3 & B4 & B5 & B6).
  repeat split; congruence.
Qed.

(** [animate] called with nothing scheduled. *)
Lemma animate_spec (s : State) :
  let s' := JS.stateOf (animate env s) in
  sameFrame s s' /\
  uncaught s' = uncaught s /\
  (scheduled s = [] -> schedInv s') /\
  (JS.threw (animate env s) = true ->
     scheduled s' = scheduled s /\ frameSteps s' = S (frameSteps s) /\
     animationFrameId s' = animationFrameId s /\
     isCanvasVisible s' = isCanvasVisible s) /\
  (scheduled s = [] -> scheduled s' = [] -> frameSteps s' = frameSteps s \/
                                            JS.threw (animate env s) = true).
Proof.
  unfold animate.
  destruct (isCanvasVisible s) eqn:V; simpl.
  - destruct (body env (frameSteps s)) eqn:B; simpl.
    + split; [repeat split|]. split; [reflexivity|]. split.
      * intros E. right. exists (S (lastHandle s)). rewrite E. simpl.
        repeat split; try assumption. lia.
      * split; [discriminate|]. intros E. rewrite E. discriminate.
    + split; [repeat split|]. split; [reflexivity|]. split.
      * intros E. left. exact E.
      * split; [intros _; repeat split; assumption|]. intros _ _. now right.
  - split; [repeat split|]. split; [reflexivity|]. split.
    + intros E. left. exact E.
    + split; [discriminate|]. intros _ _. now left.
Qed.

Lemma schedInv_not_truthy (s : State) :
  schedInv s -> truthy (animationFrameId s) = false -> scheduled s = [].
Proof.
  intros [E | (h & E & A & Hh & _)] T; [exact E|].
  rewrite A in T. destruct h; [lia | discriminate].
Qed.

Lemma schedInv_cancel (s : State) :
  schedInv s -> cancel (animationFrameId s) (scheduled s) = [].
Proof.
  intros [E | (h & E & A & _)].
  - rewrite E. destruct (animationFrameId s); reflexivity.
  - rewrite E, A. simpl. destruct (Nat.eq_dec h h); [reflexivity | contradiction].
Qed.

(** The observer callback keeps the invariant, whatever the entries. *)
Lemma observerCallback_spec (entries : list Entry) : forall s,
  schedInv s ->
  let s' := JS.stateOf (observerCallback env entries s) in
  schedInv s' /\ sameFrame s s' /\ uncaught s' = uncaught s /\
  (JS.threw (observerCallback env entries s) = true -> scheduled s' = []).
Proof.
  induction entries as [|entry rest IH]; intros s I; simpl.
  - split; [exact I|]. split; [apply sameFrame_refl|]. split; [reflexivity|discriminate].
  - set (s1 := setVisible (isIntersecting entry) s).
    assert (F1 : sameFrame s s1) by (repeat split).
    assert (U1 : uncaught s1 = uncaught s) by reflexivity.
    destruct (isIntersecting entry) eqn:V; simpl.
    + destruct (truthy (animationFrameId s)) eqn:T; simpl.
      * assert (I1 : schedInv s1).
        { destruct I as [E | (h & E & A & Hh & _)]; [left; exact E|].
          right. exists h. repeat split; assumption. }
        destruct (IH s1 I1) as (J1 & J2 & J3 & J4).
        split; [exact J1|]. split; [exact (sameFrame_trans F1 J2)|].
        split; [congruence | exact J4].
      * assert (E1 : scheduled s1 = []) by (apply (schedInv_not_truthy I T)).
        destruct (animate_spec s1) as (A1 & A2 & A3 & A4 & _).
        destruct (animate env s1) as [s2|s2] eqn:An; simpl in *.
        -- destruct (IH s2 (A3 E1)) as (J1 & J2 & J3 & J4).
           split; [exact J1|].
           split; [exact (sameFrame_trans F1 (sameFrame_trans A1 J2))|].
           split; [congruence | exact J4].
        -- split; [apply A3, E1|].
           split; [exact (sameFrame_trans F1 A1)|].
           split; [congruence|]. intros _.
           destruct (A4 eq_refl) as (B1 & _). congruence.
    + destruct (truthy (animationFrameId s)) eqn:T; simpl.
      * assert (I2 : schedInv (cancelAndClear s1)).
        { left. simpl. apply schedInv_cancel, I. }
        destruct (IH _ I2) as (J1 & J2 & J3 & J4).
        split; [exact J1|].
        split; [refine (sameFrame_trans _ J2); repeat split|].
        split; [rewrite J3; reflexivity | exact J4].
      * assert (I1 : schedInv s1).
        { left. apply (schedInv_not_truthy I T). }
        destruct (IH s1 I1) as (J1 & J2 & J3 & J4).
        split; [exact J1|]. split; [exact (sameFrame_trans F1 J2)|].
        split; [congruence | exact J4].
Qed.

Lemma runCallbacks_spec (callbacks : list nat) (s : State) :
  List.length callbacks <= 1 -> scheduled s = [] ->
  let s' := runCallbacks env callbacks s in
  schedInv s' /\ sameFrame s s' /\
  (uncaught s' <> uncaught s -> scheduled s' = []) /\
  (scheduled s' = [] -> List.length callbacks = 0 -> frameSteps s' = frameSteps s).
Proof.
  intros L E. destruct callbacks as [|h [|h' rest]]; simpl in L; [| |lia].
  - simpl. split; [left; exact E|]. split; [apply sameFrame_refl|].
    split; [congruence | reflexivity].
  - simpl. destruct (animate_spec s) as (A1 & A2 & A3 & A4 & _).
    destruct (animate env s) as [s2|s2] eqn:An; simpl in *.
    + split; [apply A3, E|]. split; [exact A1|]. split; [congruence | discriminate].
    + destruct (A4 eq_refl) as (B1 & _).
      split; [left; simpl; congruence|].
      split; [refine (sameFrame_trans A1 _); repeat split|].
      split; [intros _; simpl; congruence | discriminate].
Qed.

Lemma schedInv_length (s : State) :
  schedInv s -> List.length (scheduled s) <= 1.
Proof.
  intros [E | (h & E & _)]; rewrite E; simpl; lia.
Qed.

(** A host event keeps the invariant; if an exception reached the host
    during it, nothing is scheduled afterwards. *)
Lemma onEvent_spec (e : Event) (s : State) :
  schedInv s ->
  let s' := onEvent env e s in
  schedInv s' /\ sameFrame s s' /\
  (uncaught s' <> uncaught s -> scheduled s' = []).
Proof.
  intros I. destruct e as [|entries|w h|]; simpl.
  - destruct (runCallbacks_spec (scheduled s) (withScheduled [] s)
                (schedInv_length I) eq_refl) as (R1 & R2 & R3 & _).
    split; [exact R1|]. split; [refine (sameFrame_trans _ R2); repeat split|].
    exact R3.
  - destruct (observing s) eqn:O.
    + destruct (observerCallback_spec entries I) as (J1 & J2 & J3 & J4).
      destruct (observerCallback env entries s) as [s2|s2] eqn:Ob; simpl in *.
      * split; [exact J1|]. split; [exact J2|]. congruence.
      * split.
        { destruct J1 as [E | (h & E & A & Hh & V)]; [left; exact E|].
          right. exists h. repeat split; assumption. }
        split; [refine (sameFrame_trans J2 _); repeat split|].
        intros _. apply J4. reflexivity.
    + split; [exact I|]. split; [apply sameFrame_refl | congruence].
  - destruct (resizeListener s); simpl.
    + split; [exact I|]. split; [repeat split | congruence].
    + split; [exact I|]. split; [apply sameFrame_refl | congruence].
  - split; [exact I|]. split; [apply sameFrame_refl | congruence].
Qed.

Lemma cancel_nil (h : option nat) : cancel h [] = [].
Proof. destruct h; reflexivity. Qed.

(** Calling one registered closure. *)
Lemma callCleanup_spec (s : State) (f : CleanupFn) :
  schedInv s ->
  let s' := callCleanup s f in
  schedInv s' /\
  frameSteps s' = frameSteps s /\ console s' = console s /\
  uncaught s' = uncaught s /\
  cleanupRegistry s' = cleanupRegistry s /\
  cleanupCalls s' = cleanupCalls s ++ [f] /\
  (observing s' = true -> observing s = true) /\
  (scheduled s = [] -> scheduled s' = []) /\
  (f = DisconnectAndCancel -> stopped s').
Proof.
  intros I. destruct f; simpl.
  - repeat split; try assumption; try discriminate; auto.
  - unfold callCleanup. simpl.
    destruct (truthy (animationFrameId s)) eqn:T; simpl.
    + pose proof (schedInv_cancel I) as C.
      repeat split; try assumption; try discriminate; auto.
      left. exact C.
    + pose proof (schedInv_not_truthy I T) as C.
      repeat split; try assumption; try discriminate; auto.
  - repeat split; try assumption; try discriminate; auto.
Qed.

Lemma fold_callCleanup_spec (fns : list CleanupFn) : forall s,
  schedInv s ->
  let s' := fold_left callCleanup fns s in
  schedInv s' /\
  frameSteps s' = frameSteps s /\ console s' = console s /\
  uncaught s' = uncaught s /\
  cleanupRegistry s' = cleanupRegistry s /\
  cleanupCalls s' = cleanupCalls s ++ fns /\
  (observing s' = true -> observing s = true) /\
  (scheduled s = [] -> scheduled s' = []) /\
  (In DisconnectAndCancel fns -> stopped s').
Proof.
  induction fns as [|f fns IH]; intros s I; simpl.
  - rewrite app_nil_r. repeat split; auto; contradiction.
  - destruct (callCleanup_spec f I) as (C1 & C2 & C3 & C4 & C5 & C6 & C7 & C8 & C9).
    destruct (IH _ C1) as (D1 & D2 & D3 & D4 & D5 & D6 & D7 & D8 & D9).
    split; [exact D1|]. split; [congruence|]. split; [congruence|].
    split; [congruence|]. split; [congruence|].
    split; [rewrite D6, C6, <- app_assoc; reflexivity|].
    split; [auto|]. split; [auto|].
    intros [-> | H]; [|exact (D9 H)].
    destruct (C9 eq_refl) as [S1 S2]. split; [apply D8, S1|].
    destruct (observing (fold_left callCleanup fns (callCleanup s DisconnectAndCancel))) eqn:O;
      [|reflexivity].
    rewrite (D7 eq_refl) in S2. discriminate.
Qed.

(** Once stopped, always stopped, and no frame step runs. *)
Lemma stopped_step (s : State) (a : Action) :
  stopped s ->
  stopped (step env s a) /\ frameSteps (step env s a) = frameSteps s.
Proof.
  intros [E O]. destruct a as [e|]; simpl.
  - destruct e as [|entries|w h|]; simpl.
    + rewrite E. simpl. repeat split; assumption.
    + rewrite O. repeat split; assumption.
    + destruct (resizeListener s); repeat split; assumption.
    + repeat split; assumption.
  - assert (I : schedInv s) by (left; exact E).
    destruct (fold_callCleanup_spec (cleanupRegistry s) I)
      as (_ & D2 & _ & _ & _ & _ & D7 & D8 & _).
    unfold callCleanups. split; [|exact D2]. split; [apply D8, E|].
    destruct (observing (fold_left callCleanup (cleanupRegistry s) s)) eqn:O';
      [|reflexivity].
    rewrite (D7 eq_refl) in O. discriminate.
Qed.

Lemma stopped_run (actions : list Action) : forall s,
  stopped s ->
  stopped (run env actions s) /\ frameSteps (run env actions s) = frameSteps s.
Proof.
  induction actions as [|a actions IH]; intros s H; simpl; [now split|].
  destruct (stopped_step a H) as [H' F].
  destruct (IH _ H') as [H'' F']. split; [exact H''|congruence].
Qed.

(** Teardown stops the effect. *)
Lemma callCleanups_stops (s : State) :
  schedInv s -> regInv s -> stopped (callCleanups s).
Proof.
  intros I [R1 R2].
  destruct (fold_callCleanup_spec (cleanupRegistry s) I)
    as (_ & _ & _ & _ & _ & _ & D7 & D8 & D9).
  unfold callCleanups.
  destruct (observing s) eqn:O.
  - apply D9, R1. reflexivity.
  - split; [apply D8, R2; reflexivity|].
    destruct (observing (fold_left callCleanup (cleanupRegistry s) s)) eqn:O';
      [|reflexivity].
    symmetry. apply D7. reflexivity.
Qed.

Lemma initInteractivePipelineCanvas_inv :
  schedInv (initInteractivePipelineCanvas env) /\
  regInv (initInteractivePipelineCanvas env).
Proof.
  unfold initInteractivePipelineCanvas, regInv.
  destruct (canvasPresent env); simpl;
    [|split; [left; reflexivity | split; [discriminate | reflexivity]]].
  destruct (prefersReducedMotion env); simpl;
    [split; [left; reflexivity | split; [discriminate | reflexivity]]|].
  match goal with |- context [animate env ?s] => set (s5 := s) end.
  destruct (animate_spec s5) as (A1 & A2 & A3 & A4 & _).
  destruct (animate env s5) as [s6|s6] eqn:An; simpl in *.
  - destruct A1 as (_ & _ & R & O & _). split.
    + destruct (A3 eq_refl) as [E | (h & E & A & Hh & V)]; [left; exact E|].
      right. exists h. repeat split; assumption.
    + split; [intros _; rewrite R; simpl; auto|].
      rewrite O. discriminate.
  - destruct A1 as (_ & _ & R & O & _). split.
    + destruct (A3 eq_refl) as [E | (h & E & A & Hh & V)]; [left; exact E|].
      right. exists h. repeat split; assumption.
    + split; [intros _; rewrite R; simpl; auto|].
      rewrite O. discriminate.
Qed.

Lemma step_inv (s : State) (a : Action) :
  schedInv s -> regInv s -> schedInv (step env s a) /\ regInv (step env s a).
Proof.
  intros I R. destruct a as [e|]; simpl.
  - destruct (onEvent_spec e I) as (J1 & (_ & _ & J2 & J3 & _) & _).
    split; [exact J1|]. destruct R as [R1 R2]. unfold regInv.
    rewrite J2, J3. split; [exact R1|]. intros O.
    destruct (@stopped_step s (FromHost e) (conj (R2 O) O)) as [[E _] _].
    exact E.
  - pose proof (callCleanups_stops I R) as [E O].
    split; [left; exact E|]. split; [rewrite O; discriminate | intros _; exact E].
Qed.

Lemma run_inv (actions : list Action) : forall s,
  schedInv s -> regInv s ->
  schedInv (run env actions s) /\ regInv (run env actions s).
Proof.
  induction actions as [|a actions IH]; intros s I R; simpl; [now split|].
  destruct (step_inv a I R) as [I' R']. now apply IH.
Qed.

Lemma reachable_inv (actions : list Action) :
  let s := run env actions (initInteractivePipelineCanvas env) in
  schedInv s /\ regInv s.
Proof.
  destruct initInteractivePipelineCanvas_inv as [I R]. now apply run_inv.
Qed.

(** No host event calls a cleanup closure or writes to the console. *)
Lemma hostEvents_frame (events : list Event) : forall s,
  schedInv s ->
  let s' := run env (map FromHost events) s in
  schedInv s' /\ sameFrame s s'.
Proof.
  induction events as [|e events IH]; intros s I; simpl.
  - split; [exact I | apply sameFrame_refl].
  - destruct (onEvent_spec e I) as (J1 & J2 & _).
    destruct (IH _ J1) as (K1 & K2).
    split; [exact K1 | exact (sameFrame_trans J2 K2)].
Qed.

(** With nothing scheduled, only a notification of the observer can start
    a frame step. *)
Lemma idle_event (e : Event) (s : State) :
  scheduled s = [] -> isNotification e = false ->
  scheduled (onEvent env e s) = [] /\
  frameSteps (onEvent env e s) = frameSteps s.
Proof.
  intros E N. destruct e as [|entries|w h|]; simpl; try discriminate.
  - rewrite E. simpl. now split.
  - destruct (resizeListener s); now split.
  - now split.
Qed.

Lemma idle_events (events : list Event) : forall s,
  scheduled s = [] -> Scenario.noNotification events = true ->
  scheduled (run env (map FromHost events) s) = [] /\
  frameSteps (run env (map FromHost events) s) = frameSteps s.
Proof.
  induction events as [|e events IH]; intros s E N; simpl; [now split|].
  simpl in N. apply andb_prop in N. destruct N as [N1 N2].
  apply negb_true_iff in N1.
  destruct (idle_event e s E N1) as [E' F].
  destruct (IH _ E' N2) as [E'' F']. split; [exact E'' | congruence].
Qed.

(** A notification that the canvas intersects, while a frame is pending,
    changes nothing. *)
Lemma start_while_running (entry : Entry) (s : State) :
  schedInv s -> running s = true -> isIntersecting entry = true ->
  onEvent env (Intersection [entry]) s = s.
Proof.
  intros I Rn V. unfold running in Rn.
  destruct I as [E | (h & E & A & Hh & Vis)]; [rewrite E in Rn; discriminate|].
  simpl. destruct (observing s); [|reflexivity].
  rewrite V, A. destruct h as [|h]; [lia|]. simpl.
  destruct s; simpl in *. subst. reflexivity.
Qed.

(** During one host event at most one exception reaches the host. *)
Lemma uncaught_event (e : Event) (s : State) :
  schedInv s ->
  uncaught (onEvent env e s) = uncaught s \/
  uncaught (onEvent env e s) = S (uncaught s).
Proof.
  intros I. destruct e as [|entries|w h|]; simpl.
  - pose proof (schedInv_length I) as L.
    destruct (scheduled s) as [|h [|h' rest]]; simpl in *; [now left| |lia].
    destruct (animate_spec (withScheduled [] s)) as (_ & A2 & _).
    destruct (animate env (withScheduled [] s)); simpl in *;
      [left | right]; congruence.
  - destruct (observing s); [|now left].
    destruct (observerCallback_spec entries I) as (_ & _ & J3 & _).
    destruct (observerCallback env entries s); simpl in *;
      [left | right]; congruence.
  - destruct (resizeListener s); now left.
  - now left.
Qed.

(** With reduced motion preferred, or without the canvas, the effect is
    never started. *)
Lemma disabled_never_runs (actions : list Action) :
  canvasPresent env = false \/ prefersReducedMotion env = true ->
  let s := run env actions (initInteractivePipelineCanvas env) in
  running s = false /\ frameSteps s = 0.
Proof.
  intros H.
  assert (S0 : stopped (initInteractivePipelineCanvas env) /\
               frameSteps (initInteractivePipelineCanvas env) = 0).
  { unfold initInteractivePipelineCanvas.
    destruct (canvasPresent env); simpl; [|repeat split].
    destruct H as [H|H]; [discriminate|]. rewrite H. repeat split. }
  destruct S0 as [S0 F0].
  destruct (stopped_run actions S0) as [[E _] F].
  simpl. unfold running. rewrite E. split; [reflexivity | congruence].
Qed.

(** While the drawing body does not throw, the loop follows the observer:
    after a notification it is running exactly if the last entry says the
    canvas intersects the viewport. *)
Section Steady.

Hypothesis steady : forall n, body env n = Completes.

Lemma animate_steady (s : State) :
  isCanvasVisible s = true -> scheduled s = [] -> observing s = true ->
  exists s', animate env s = JS.Normal s' /\ inStep s' /\ running s' = true.
Proof.
  intros V E O. unfold animate. rewrite V, steady. simpl.
  eexists. split; [reflexivity|]. split.
  - split; [exact O|]. right. exists (S (lastHandle s)). rewrite E. simpl.
    repeat split. lia.
  - unfold running. simpl. rewrite E. reflexivity.
Qed.

Lemma observer_entry_steady (entry : Entry) (s : State) :
  inStep s ->
  exists s', observerCallback env [entry] s = JS.Normal s' /\ inStep s' /\
             running s' = isIntersecting entry.
Proof.
  intros [O [[E T] | (h & E & A & Hh & V)]]; simpl.
  - rewrite T. destruct (isIntersecting entry) eqn:I; simpl.
    + destruct (@animate_steady (setVisible true s) eq_refl E O) as (s' & An & St & Rn).
      rewrite An. exists s'. split; [reflexivity | split; assumption].
    + eexists. split; [reflexivity|]. split.
      * split; [exact O|]. left. now split.
      * unfold running. simpl. now rewrite E.
  - assert (T : truthy (animationFrameId s) = true)
      by (rewrite A; destruct h; [lia | reflexivity]).
    assert (K : cancel (animationFrameId s) (scheduled s) = [])
      by (apply schedInv_cancel; right; exists h; repeat split; assumption).
    rewrite T. destruct (isIntersecting entry) eqn:I; simpl.
    + eexists. split; [reflexivity|]. split.
      * split; [exact O|]. right. exists h. now repeat split.
      * unfold running. simpl. now rewrite E.
    + eexists. split; [reflexivity|]. split.
      * split; [exact O|]. left. simpl. now split.
      * unfold running. simpl. now rewrite K.
Qed.

Lemma observerCallback_app (l1 l2 : list Entry) : forall s,
  observerCallback env (l1 ++ l2) s =
  match observerCallback env l1 s with
  | JS.Normal s1 => observerCallback env l2 s1
  | JS.Throw s1 => JS.Throw s1
  end.
Proof.
  induction l1 as [|e l1 IH]; intros s; simpl; [reflexivity|].
  destruct (isIntersecting e && negb (truthy (animationFrameId s))).
  - destruct (animate env (setVisible (isIntersecting e) s)); [apply IH | reflexivity].
  - destruct (negb (isIntersecting e) && truthy (animationFrameId s)); apply IH.
Qed.

Lemma observer_entries_steady (entries : list Entry) : forall s,
  inStep s ->
  exists s', observerCallback env entries s = JS.Normal s' /\ inStep s'.
Proof.
  induction entries as [|e entries IH]; intros s St.
  - exists s. now split.
  - change (e :: entries) with ([e] ++ entries). rewrite observerCallback_app.
    destruct (observer_entry_steady e St) as (s1 & Ob & St1 & _).
    rewrite Ob. apply IH, St1.
Qed.

Lemma event_steady (e : Event) (s : State) :
  inStep s -> inStep (onEvent env e s).
Proof.
  intros St. destruct e as [|entries|w h|]; simpl.
  - destruct St as [O [[E T] | (h & E & A & Hh & V)]].
    + rewrite E. simpl. split; [exact O|]. left. now split.
    + rewrite E. simpl.
      destruct (@animate_steady (withScheduled [] s) V eq_refl O) as (s' & An & St' & _).
      rewrite An. exact St'.
  - destruct St as [O St]. rewrite O.
    destruct (observer_entries_steady entries (conj O St)) as (s' & Ob & St').
    rewrite Ob. exact St'.
  - destruct (resizeListener s); exact St.
  - exact St.
Qed.

Lemma events_steady (events : list Event) : forall s,
  inStep s -> inStep (run env (map FromHost events) s).
Proof.
  induction events as [|e events IH]; intros s St; simpl; [exact St|].
  apply IH, event_steady, St.
Qed.

Lemma init_steady :
  canvasPresent env = true -> prefersReducedMotion env = false ->
  inStep (initInteractivePipelineCanvas env).
Proof.
  intros C M. unfold initInteractivePipelineCanvas. rewrite C, M. simpl.
  match goal with |- context [animate env ?s] =>
    destruct (@animate_steady s eq_refl eq_refl eq_refl) as (s' & An & St & _);
    rewrite An
  end.
  destruct St as [O St]. split; [exact O|]. exact St.
Qed.

Lemma observer_entries_running (entries : list Entry) : forall s,
  inStep s ->
  exists s', observerCallback env entries s = JS.Normal s' /\ inStep s' /\
             running s' =
               fold_left (fun _ entry => isIntersecting entry) entries (running s).
Proof.
  induction entries as [|e entries IH]; intros s St.
  - exists s. split; [reflexivity|]. split; [exact St | reflexivity].
  - change (e :: entries) with ([e] ++ entries). rewrite observerCallback_app.
    destruct (observer_entry_steady e St) as (s1 & Ob & St1 & R1).
    rewrite Ob. destruct (IH s1 St1) as (s' & Ob' & St' & R').
    exists s'. split; [exact Ob'|]. split; [exact St'|].
    rewrite R', R1. reflexivity.
Qed.

Lemma event_running (e : Event) (s : State) :
  inStep s -> running (onEvent env e s) = reported (running s) e.
Proof.
  intros St. destruct e as [|entries|w h|]; simpl.
  - destruct St as [O [[E T] | (h & E & A & Hh & V)]].
    + rewrite E. simpl. unfold running. simpl. now rewrite E.
    + rewrite E. simpl.
      destruct (@animate_steady (withScheduled [] s) V eq_refl O) as (s' & An & _ & R).
      rewrite An, R. unfold running. now rewrite E.
  - destruct (observer_entries_running entries St) as (s' & Ob & _ & R).
    destruct St as [O _]. rewrite O, Ob. exact R.
  - destruct (resizeListener s); reflexivity.
  - reflexivity.
Qed.

Lemma events_running (events : list Event) : forall s,
  inStep s ->
  running (run env (map FromHost events) s) = fold_left reported events (running s).
Proof.
  induction events as [|e events IH]; intros s St; simpl; [reflexivity|].
  rewrite (IH _ (event_steady e St)). now rewrite (event_running e St).
Qed.

Lemma init_running :
  canvasPresent env = true -> prefersReducedMotion env = false ->
  running (initInteractivePipelineCanvas env) = true.
Proof.
  intros C M. unfold initInteractivePipelineCanvas. rewrite C, M. simpl.
  unfold animate. simpl. rewrite steady. reflexivity.
Qed.

(** The handle is running exactly if the canvas was last reported as
    intersecting. *)
Lemma running_iff_reported (events : list Event) :
  canvasPresent env = true -> prefersReducedMotion env = false ->
  running (run env (map FromHost events) (initInteractivePipelineCanvas env))
    = lastReported events.
Proof.
  intros C M. rewrite (events_running events (init_steady C M)).
  now rewrite (init_running C M).
Qed.

Lemma node_canvas_follows_visibility
    (events : list Event) (entries : list Entry) (entry : Entry) :
  canvasPresent env = true -> prefersReducedMotion env = false ->
  let s := run env (map FromHost events) (initInteractivePipelineCanvas env) in
  running (onEvent env (Intersection (entries ++ [entry])) s) = isIntersecting entry.
Proof.
  intros C M s.
  pose proof (events_steady events (init_steady C M)) as St. fold s in St.
  simpl. destruct St as [O St]. rewrite O. rewrite observerCallback_app.
  destruct (observer_entries_steady entries (conj O St)) as (s1 & Ob & St1).
  rewrite Ob.
  destruct (observer_entry_steady entry St1) as (s2 & Ob2 & _ & Rn).
  rewrite Ob2. exact Rn.
Qed.

End Steady.

(** No host event, page unload included, calls a registered closure: from
    creation on, as long as nobody calls them, none has run. *)
Lemma cleanups_never_called_by_host (events : list Event) :
  cleanupCalls (run env (map FromHost events) (initInteractivePipelineCanvas env))
    = [].
Proof.
  destruct initInteractivePipelineCanvas_inv as [I _].
  destruct (hostEvents_frame events I) as (_ & K & _).
  rewrite K. unfold initInteractivePipelineCanvas.
  destruct (canvasPresent env); simpl; [|reflexivity].
  destruct (prefersReducedMotion env); simpl; [reflexivity|].
  match goal with |- context [animate env ?s] =>
    destruct (animate_spec s) as ((A & _) & _); destruct (animate env s); exact A
  end.
Qed.

End NodeCanvasFacts.

(** *** The loop of the second canvas *)

Section BackdropFacts.

Import Host Backdrop.

Variable env : Env.

Lemma backdrop_animate_spec (s : State) :
  let s' := JS.stateOf (animate env s) in
  beforeUnloadListener s' = beforeUnloadListener s /\
  uncaught s' = uncaught s /\
  frameSteps s' = S (frameSteps s) /\
  (JS.threw (animate env s) = false ->
     scheduled s' = scheduled s ++ [S (lastHandle s)] /\
     animationFrame s' = Some (S (lastHandle s))) /\
  (JS.threw (animate env s) = true ->
     scheduled s' = scheduled s /\ body env (frameSteps s) <> Completes).
Proof.
  unfold animate. destruct (body env (frameSteps s)) eqn:B; simpl;
    repeat split; try discriminate; auto.
Qed.

Lemma backdrop_runCallbacks_spec (callbacks : list nat) (s : State) :
  List.length callbacks <= 1 -> scheduled s = [] ->
  let s' := runCallbacks env callbacks s in
  beforeUnloadListener s' = beforeUnloadListener s /\
  (scheduled s' = [] \/
   exists h, scheduled s' = [h] /\ animationFrame s' = Some h /\ callbacks <> []) /\
  (uncaught s' <> uncaught s -> scheduled s' = []) /\
  (callbacks = [] -> s' = s) /\
  ((forall n, body env n = Completes) -> callbacks <> [] -> running s' = true).
Proof.
  intros L E. destruct callbacks as [|h [|h' rest]]; simpl in L; [| |lia].
  - simpl. split; [reflexivity|]. split; [left; exact E|].
    split; [congruence|]. split; [reflexivity|]. intros _ N. contradiction.
  - simpl. destruct (backdrop_animate_spec s) as (A1 & A2 & A3 & A4 & A5).
    destruct (animate env s) as [s2|s2] eqn:An; simpl in *.
    + destruct (A4 eq_refl) as [S1 S2]. rewrite E in S1. simpl in S1.
      split; [exact A1|]. split.
      * right. exists (S (lastHandle s)). repeat split; try assumption. discriminate.
      * split; [congruence|]. split; [discriminate|].
        intros _ _. unfold running. rewrite S1. reflexivity.
    + destruct (A5 eq_refl) as [S1 S2].
      split; [exact A1|]. split; [left; congruence|].
      split; [intros _; congruence|]. split; [discriminate|].
      intros Hb _. elim S2. apply Hb.
Qed.

Lemma backdrop_schedInv_length (s : State) :
  schedInv s -> List.length (scheduled s) <= 1.
Proof.
  intros [E | (h & E & _)]; rewrite E; simpl; lia.
Qed.

Lemma backdrop_schedInv_cancel (s : State) :
  schedInv s -> cancel (animationFrame s) (scheduled s) = [].
Proof.
  intros [E | (h & E & A & _)].
  - rewrite E. destruct (animationFrame s); reflexivity.
  - rewrite E, A. simpl. destruct (Nat.eq_dec h h); [reflexivity | contradiction].
Qed.

Lemma backdrop_onEvent_spec (e : Event) (s : State) :
  schedInv s ->
  let s' := onEvent env s e in
  schedInv s' /\
  (uncaught s' <> uncaught s -> scheduled s' = []) /\
  (scheduled s = [] -> scheduled s' = [] /\ frameSteps s' = frameSteps s) /\
  (isUnload e = true -> scheduled s' = []) /\
  ((forall n, body env n = Completes) -> isUnload e = false ->
     running s = true -> running s' = true).
Proof.
  intros I. destruct e as [|entries|w h|]; simpl.
  - destruct (backdrop_runCallbacks_spec (scheduled s) (withScheduled [] s)
                (backdrop_schedInv_length I) eq_refl) as (R1 & R2 & R3 & R4 & R5).
    split.
    { destruct R2 as [E | (h & E & A & N)]; [left; exact E|].
      right. exists h. repeat split; try assumption.
      rewrite R1. simpl.
      destruct I as [E0 | (h0 & _ & _ & B)]; [contradiction | exact B]. }
    split; [exact R3|]. split.
    { intros E. rewrite E. simpl. now split. }
    split; [discriminate|].
    intros Hb _ Rn. apply R5; [exact Hb|].
    unfold running in Rn. destruct (scheduled s); [discriminate | discriminate].
  - split; [exact I|]. split; [congruence|]. split; [now split|].
    split; [discriminate | auto].
  - destruct (resizeListener s); simpl.
    + split; [exact I|]. split; [congruence|]. split; [now split|].
      split; [discriminate | auto].
    + split; [exact I|]. split; [congruence|]. split; [now split|].
      split; [discriminate | auto].
  - destruct (beforeUnloadListener s) eqn:L; simpl.
    + rewrite (backdrop_schedInv_cancel I).
      split; [left; reflexivity|]. split; [congruence|]. split; [now split|].
      split; [reflexivity | discriminate].
    + split; [exact I|]. split; [congruence|]. split; [now split|].
      split; [|discriminate]. intros _.
      destruct I as [E | (h & _ & _ & B)]; [exact E | congruence].
Qed.

Lemma initInteractivePipeline_inv : schedInv (initInteractivePipeline env).
Proof.
  unfold initInteractivePipeline.
  destruct (canvasPresent env); simpl; [|left; reflexivity].
  match goal with |- context [animate env ?s] => set (s2 := s) end.
  destruct (backdrop_animate_spec s2) as (A1 & A2 & A3 & A4 & A5).
  destruct (animate env s2) as [s3|s3] eqn:An; simpl in *.
  - destruct (A4 eq_refl) as [S1 S2]. right.
    exists (S (lastHandle s2)). repeat split; assumption.
  - destruct (A5 eq_refl) as [S1 _]. left. exact S1.
Qed.

Lemma backdrop_run_inv (events : list Event) : forall s,
  schedInv s -> schedInv (run env events s).
Proof.
  induction events as [|e events IH]; intros s I; simpl; [exact I|].
  apply IH. apply (backdrop_onEvent_spec e I).
Qed.

(** With nothing scheduled no event starts a frame step. *)
Lemma idle_run (events : list Event) : forall s,
  scheduled s = [] ->
  scheduled (run env events s) = [] /\
  frameSteps (run env events s) = frameSteps s.
Proof.
  induction events as [|e events IH]; intros s E; simpl; [now split|].
  assert (I : schedInv s) by (left; exact E).
  destruct (backdrop_onEvent_spec e I) as (_ & _ & J & _).
  destruct (J E) as [E' F]. destruct (IH _ E') as [E'' F'].
  split; [exact E'' | congruence].
Qed.

(** If the drawing body never throws, only a page unload stops the loop. *)
Lemma live_run (events : list Event) : forall s,
  (forall n, body env n = Completes) ->
  Scenario.noUnload events = true ->
  schedInv s -> running s = true ->
  running (run env events s) = true.
Proof.
  induction events as [|e events IH]; intros s Hb N I Rn; simpl; [exact Rn|].
  simpl in N. apply andb_prop in N. destruct N as [N1 N2].
  apply negb_true_iff in N1.
  destruct (backdrop_onEvent_spec e I) as (I' & _ & _ & _ & L).
  apply IH; auto.
Qed.

Lemma initInteractivePipeline_runs :
  canvasPresent env = true -> (forall n, body env n = Completes) ->
  running (initInteractivePipeline env) = true /\
  frameSteps (initInteractivePipeline env) = 1.
Proof.
  intros C Hb. unfold initInteractivePipeline. rewrite C. simpl.
  unfold animate. simpl. rewrite Hb. simpl. split; reflexivity.
Qed.

End BackdropFacts.

(** *** Statements about the two canvas loops *)

(** The second canvas loop is running from its creation on and stays running
    through any frames, resizes and observer notifications, whatever they
    report about the canvas and whatever the motion preference; it takes a
    page unload to stop it. *)
Lemma second_loop_runs_off_screen (env : Host.Env) (events : list Host.Event) :
  Host.canvasPresent env = true ->
  (forall n, Host.body env n = Host.Completes) ->
  Scenario.noUnload events = true ->
  Backdrop.running
    (Backdrop.run env events (Backdrop.initInteractivePipeline env)) = true.
Proof.
  intros C Hb N. apply live_run; try assumption.
  - apply initInteractivePipeline_inv.
  - apply initInteractivePipeline_runs; assumption.
Qed.

(** C1, as stated, fails on the node canvas: created while the canvas is
    outside the viewport, the handle is running at once; and after its
    drawing body threw, the handle is not running although the canvas was
    last reported as intersecting, motion is permitted and nothing was torn
    down. *)
Lemma running_not_iff_intersecting_counterexample :
  let offPage := Scenario.page false false Scenario.steady in
  let faulty := Scenario.page false true Scenario.faultyFifth in
  let events := Host.Intersection [Scenario.onScreen] :: repeat Host.AnimationFrame 4 in
  let s := NodeCanvas.run faulty (map NodeCanvas.FromHost events)
             (NodeCanvas.initInteractivePipelineCanvas faulty) in
  (Host.intersecting offPage = false /\
   Host.prefersReducedMotion offPage = false /\
   NodeCanvas.running (NodeCanvas.initInteractivePipelineCanvas offPage) = true) /\
  (Host.lastReported events = true /\
   Host.prefersReducedMotion faulty = false /\
   NodeCanvas.observing s = true /\
   NodeCanvas.running s = false).
Proof.
  vm_compute. repeat split.
Qed.

(** C1 (amended): on the node canvas a handle that is disabled (no canvas, or
    reduced motion preferred at creation) is never running, and a handle that
    was torn down is never running again; otherwise, as long as its drawing
    body does not throw, the handle is running exactly if the observer last
    reported the canvas as intersecting, the canvas counting as visible from
    creation until the first notification. *)
Theorem node_canvas_running_iff_reported
    (env : Host.Env) (events : list Host.Event)
    (actions later : list NodeCanvas.Action) :
  (Host.canvasPresent env = false \/ Host.prefersReducedMotion env = true ->
   NodeCanvas.running
     (NodeCanvas.run env actions (NodeCanvas.initInteractivePipelineCanvas env))
     = false) /\
  NodeCanvas.running
    (NodeCanvas.run env later
       (NodeCanvas.callCleanups
          (NodeCanvas.run env actions (NodeCanvas.initInteractivePipelineCanvas env))))
    = false /\
  (Host.canvasPresent env = true -> Host.prefersReducedMotion env = false ->
   (forall n, Host.body env n = Host.Completes) ->
   NodeCanvas.running
     (NodeCanvas.run env (map NodeCanvas.FromHost events)
        (NodeCanvas.initInteractivePipelineCanvas env))
     = Host.lastReported events).
Proof.
  split; [|split].
  - intros D. apply disabled_never_runs, D.
  - destruct (reachable_inv env actions) as [I R].
    pose proof (callCleanups_stops I R) as St.
    destruct (stopped_run env later St) as [[E _] _].
    unfold NodeCanvas.running. now rewrite E.
  - intros C M Hb. now apply running_iff_reported.
Qed.

Lemma node_canvas_running_iff_reported_witness :
  let env := Scenario.page false true Scenario.steady in
  let events :=
    [Host.AnimationFrame; Host.Intersection [Scenario.offScreen];
     Host.AnimationFrame; Host.Resize 640 480] in
  NodeCanvas.running
    (NodeCanvas.run env (map NodeCanvas.FromHost events)
       (NodeCanvas.initInteractivePipelineCanvas env)) = false /\
  Host.lastReported events = false.
Proof.
  cbv zeta. split; [|reflexivity].
  destruct (@node_canvas_running_iff_reported
              (Scenario.page false true Scenario.steady)
              [Host.AnimationFrame; Host.Intersection [Scenario.offScreen];
               Host.AnimationFrame; Host.Resize 640 480] [] []) as (_ & _ & H).
  rewrite H; [reflexivity | reflexivity | reflexivity | intros n; reflexivity].
Defined.

(** C2 (the code departs from it): with reduced motion preferred at creation
    the node canvas never starts, whatever happens later, but the second
    canvas loop starts all the same and keeps running until the page
    unloads. *)
Theorem reduced_motion_ignored_by_second_loop
    (env : Host.Env) (events : list Host.Event) (actions : list NodeCanvas.Action) :
  Host.canvasPresent env = true ->
  Host.prefersReducedMotion env = true ->
  (forall n, Host.body env n = Host.Completes) ->
  Scenario.noUnload events = true ->
  Backdrop.running
    (Backdrop.run env events (Backdrop.initInteractivePipeline env)) = true /\
  1 <= Backdrop.frameSteps (Backdrop.initInteractivePipeline env) /\
  NodeCanvas.running
    (NodeCanvas.run env actions (NodeCanvas.initInteractivePipelineCanvas env)) = false /\
  NodeCanvas.frameSteps
    (NodeCanvas.run env actions (NodeCanvas.initInteractivePipelineCanvas env)) = 0.
Proof.
  intros C M Hb N.
  destruct (initInteractivePipeline_runs env C Hb) as [R F].
  split; [|split; [rewrite F; apply le_n|]].
  - apply live_run; try assumption. apply initInteractivePipeline_inv.
  - apply disabled_never_runs. right. exact M.
Qed.

Lemma reduced_motion_ignored_by_second_loop_witness :
  let env := Scenario.page true true Scenario.steady in
  Backdrop.running
    (Backdrop.run env [Host.AnimationFrame; Host.AnimationFrame]
       (Backdrop.initInteractivePipeline env)) = true /\
  1 <= Backdrop.frameSteps (Backdrop.initInteractivePipeline env) /\
  NodeCanvas.running
    (NodeCanvas.run env [NodeCanvas.FromHost (Host.Intersection [Scenario.onScreen])]
       (NodeCanvas.initInteractivePipelineCanvas env)) = false /\
  NodeCanvas.frameSteps
    (NodeCanvas.run env [NodeCanvas.FromHost (Host.Intersection [Scenario.onScreen])]
       (NodeCanvas.initInteractivePipelineCanvas env)) = 0.
Proof.
  apply (@reduced_motion_ignored_by_second_loop
           (Scenario.page true true Scenario.steady)
           [Host.AnimationFrame; Host.AnimationFrame]
           [NodeCanvas.FromHost (Host.Intersection [Scenario.onScreen])]).
  - reflexivity.
  - reflexivity.
  - intros n. reflexivity.
  - reflexivity.
Defined.

(** C6: in every state either canvas loop can reach, at most one frame step
    is scheduled; and when the node canvas has a frame pending, a
    notification that the canvas intersects the viewport leaves the state as
    it is, so no second loop is started. *)
Theorem one_frame_at_most
    (env : Host.Env) (actions : list NodeCanvas.Action)
    (events : list Host.Event) (entry : Host.Entry) :
  let s := NodeCanvas.run env actions (NodeCanvas.initInteractivePipelineCanvas env) in
  let t := Backdrop.run env events (Backdrop.initInteractivePipeline env) in
  List.length (NodeCanvas.scheduled s) <= 1 /\
  List.length (Backdrop.scheduled t) <= 1 /\
  (NodeCanvas.running s = true -> Host.isIntersecting entry = true ->
   NodeCanvas.onEvent env (Host.Intersection [entry]) s = s).
Proof.
  intros s t.
  destruct (reachable_inv env actions) as [I _]. fold s in I.
  split; [apply schedInv_length, I|]. split.
  - apply backdrop_schedInv_length, backdrop_run_inv, initInteractivePipeline_inv.
  - intros R V. now apply start_while_running.
Qed.

Lemma one_frame_at_most_witness :
  let env := Scenario.page false true Scenario.steady in
  let s := NodeCanvas.run env [NodeCanvas.FromHost Host.AnimationFrame]
             (NodeCanvas.initInteractivePipelineCanvas env) in
  NodeCanvas.running s = true /\
  NodeCanvas.onEvent env (Host.Intersection [Scenario.onScreen]) s = s.
Proof.
  cbv zeta. split; [reflexivity|].
  apply (@one_frame_at_most (Scenario.page false true Scenario.steady)
           [NodeCanvas.FromHost Host.AnimationFrame] [] Scenario.onScreen);
    reflexivity.
Defined.

(** C8: once the teardown of the node canvas has run (the closures it
    registered), nothing is scheduled, and no later action runs a frame step
    or schedules one; no later host event calls a cleanup closure. Once the
    unload handler of the second canvas has run, nothing is scheduled and no
    later event runs a frame step. *)
Theorem no_step_after_teardown
    (env : Host.Env) (before later : list NodeCanvas.Action)
    (hostLater before2 later2 : list Host.Event) :
  let s := NodeCanvas.callCleanups
             (NodeCanvas.run env before (NodeCanvas.initInteractivePipelineCanvas env)) in
  let t := Backdrop.onEvent env
             (Backdrop.run env before2 (Backdrop.initInteractivePipeline env))
             Host.BeforeUnload in
  NodeCanvas.scheduled s = [] /\
  NodeCanvas.scheduled (NodeCanvas.run env later s) = [] /\
  NodeCanvas.frameSteps (NodeCanvas.run env later s) = NodeCanvas.frameSteps s /\
  NodeCanvas.cleanupCalls (NodeCanvas.run env (map NodeCanvas.FromHost hostLater) s)
    = NodeCanvas.cleanupCalls s /\
  Backdrop.scheduled t = [] /\
  Backdrop.scheduled (Backdrop.run env later2 t) = [] /\
  Backdrop.frameSteps (Backdrop.run env later2 t) = Backdrop.frameSteps t.
Proof.
  intros s t.
  destruct (reachable_inv env before) as [I R].
  pose proof (callCleanups_stops I R) as St. fold s in St.
  destruct (stopped_run env later St) as [[E _] F].
  split; [apply St|]. split; [exact E|]. split; [exact F|]. split.
  - assert (I' : NodeCanvas.schedInv s) by (left; apply St).
    destruct (hostEvents_frame env hostLater I') as (_ & K & _). exact K.
  - pose proof (backdrop_run_inv env before2 (initInteractivePipeline_inv env)) as I2.
    destruct (backdrop_onEvent_spec env Host.BeforeUnload I2) as (_ & _ & _ & U & _).
    pose proof (U eq_refl) as E2. fold t in E2.
    destruct (idle_run env later2 t E2) as [E3 F3].
    split; [exact E2|]. split; [exact E3 | exact F3].
Qed.

(** C5, as stated, fails: on the node canvas the fifth run of the drawing
    body throws; nothing is written to the console, and after the canvas
    leaves the viewport and enters it again a sixth run takes place and the
    loop is running again. *)
Lemma frame_after_fault_counterexample :
  let env := Scenario.page false true Scenario.faultyFifth in
  let s5 := NodeCanvas.run env (repeat (NodeCanvas.FromHost Host.AnimationFrame) 4)
              (NodeCanvas.initInteractivePipelineCanvas env) in
  let s6 := NodeCanvas.run env
              [NodeCanvas.FromHost (Host.Intersection [Scenario.offScreen]);
               NodeCanvas.FromHost (Host.Intersection [Scenario.onScreen])] s5 in
  NodeCanvas.frameSteps s5 = 5 /\ NodeCanvas.uncaught s5 = 1 /\
  NodeCanvas.console s5 = [] /\ NodeCanvas.isCanvasVisible s5 = true /\
  NodeCanvas.frameSteps s6 = 6 /\ NodeCanvas.running s6 = true.
Proof.
  vm_compute. repeat split.
Qed.

(** C5 (amended): when a run of the drawing body throws during a host event,
    the exception reaches the host, once, uncaught; the code writes nothing
    to the console; no frame step is scheduled afterwards. On the node canvas
    no frame step runs on later frames, resizes or unloads (a later
    notification of the observer can start the loop again); on the second
    canvas no frame step ever runs again. *)
Theorem fault_stops_rescheduling
    (env : Host.Env) (actions : list NodeCanvas.Action) (e : Host.Event)
    (quiet before2 later2 : list Host.Event) (e2 : Host.Event) :
  let s := NodeCanvas.run env actions (NodeCanvas.initInteractivePipelineCanvas env) in
  let s' := NodeCanvas.onEvent env e s in
  let t := Backdrop.run env before2 (Backdrop.initInteractivePipeline env) in
  let t' := Backdrop.onEvent env t e2 in
  (NodeCanvas.uncaught s' <> NodeCanvas.uncaught s ->
     NodeCanvas.uncaught s' = S (NodeCanvas.uncaught s) /\
     NodeCanvas.console s' = NodeCanvas.console s /\
     NodeCanvas.scheduled s' = [] /\
     (Scenario.noNotification quiet = true ->
      NodeCanvas.frameSteps (NodeCanvas.run env (map NodeCanvas.FromHost quiet) s')
        = NodeCanvas.frameSteps s')) /\
  (Backdrop.uncaught t' <> Backdrop.uncaught t ->
     Backdrop.scheduled t' = [] /\
     Backdrop.frameSteps (Backdrop.run env later2 t') = Backdrop.frameSteps t').
Proof.
  intros s s' t t'. split.
  - intros U.
    destruct (reachable_inv env actions) as [I _]. fold s in I.
    destruct (onEvent_spec env e I) as (_ & (_ & K & _) & Z). fold s' in K, Z.
    destruct (uncaught_event env e I) as [Eq | Sc]; [contradiction|].
    split; [exact Sc|]. split; [exact K|]. split; [exact (Z U)|].
    intros Q. apply idle_events; [exact (Z U) | exact Q].
  - intros U.
    pose proof (backdrop_run_inv env before2 (initInteractivePipeline_inv env)) as I2.
    fold t in I2.
    destruct (backdrop_onEvent_spec env e2 I2) as (_ & Z & _). fold t' in Z.
    split; [exact (Z U)|]. apply idle_run. exact (Z U).
Qed.

Lemma fault_stops_rescheduling_witness :
  let env := Scenario.page false true Scenario.faultyFifth in
  let s := NodeCanvas.run env (repeat (NodeCanvas.FromHost Host.AnimationFrame) 3)
             (NodeCanvas.initInteractivePipelineCanvas env) in
  let s' := NodeCanvas.onEvent env Host.AnimationFrame s in
  let t := Backdrop.run env (repeat Host.AnimationFrame 3)
             (Backdrop.initInteractivePipeline env) in
  let t' := Backdrop.onEvent env t Host.AnimationFrame in
  (NodeCanvas.uncaught s' = S (NodeCanvas.uncaught s) /\
   NodeCanvas.console s' = NodeCanvas.console s /\
   NodeCanvas.scheduled s' = [] /\
   NodeCanvas.frameSteps
     (NodeCanvas.run env
        (map NodeCanvas.FromHost [Host.AnimationFrame; Host.Resize 640 480]) s')
     = NodeCanvas.frameSteps s') /\
  (Backdrop.scheduled t' = [] /\
   Backdrop.frameSteps
     (Backdrop.run env [Host.AnimationFrame; Host.Intersection [Scenario.onScreen]] t')
     = Backdrop.frameSteps t').
Proof.
  cbv zeta.
  destruct (@fault_stops_rescheduling
              (Scenario.page false true Scenario.faultyFifth)
              (repeat (NodeCanvas.FromHost Host.AnimationFrame) 3)
              Host.AnimationFrame
              [Host.AnimationFrame; Host.Resize 640 480]
              (repeat Host.AnimationFrame 3)
              [Host.AnimationFrame; Host.Intersection [Scenario.onScreen]]
              Host.AnimationFrame) as [H1 H2].
  split.
  - destruct H1 as (A & B & C & D); [vm_compute; discriminate|].
    split; [exact A|]. split; [exact B|]. split; [exact C|].
    apply D. reflexivity.
  - apply H2. vm_compute. discriminate.
Defined.

(** *** The cleanup registry *)

Section RegistryFacts.

Import Registry.

Lemma forEach_spec (fns : list Thunk) : forall (i : nat) (w : World),
  exists k,
    fst (forEach fns i w) = seq i k /\ k <= List.length fns /\
    (JS.threw (snd (forEach fns i w)) = false -> k = List.length fns) /\
    (JS.threw (snd (forEach fns i w)) = true ->
       1 <= k /\ exists fn w0, nth_error fns (k - 1) = Some fn /\
                               JS.threw (fn w0) = true) /\
    (Forall neverThrows fns -> JS.threw (snd (forEach fns i w)) = false).
Proof.
  induction fns as [|fn rest IH]; intros i w; simpl.
  - exists 0. repeat split; auto; discriminate.
  - destruct (fn w) as [w'|w'] eqn:F.
    + destruct (IH (S i) w') as (k & K1 & K2 & K3 & K4 & K5).
      destruct (forEach rest (S i) w') as [calls c]; simpl in *.
      exists (S k). simpl. split; [now rewrite K1|]. split; [lia|].
      split; [intros T; now rewrite (K3 T)|]. split.
      * intros T. destruct (K4 T) as (L & fn' & w0 & N & Th).
        split; [lia|]. exists fn', w0. split; [|exact Th].
        rewrite Nat.sub_0_r. destruct k; [lia|]. simpl in N.
        now rewrite Nat.sub_0_r in N.
      * intros A. apply K5. now inversion A.
    + exists 1. simpl. split; [reflexivity|]. split; [lia|].
      split; [discriminate|]. split.
      * intros _. split; [lia|]. exists fn, w. simpl. split; [reflexivity|].
        now rewrite F.
      * intros A. inversion A as [|? ? N _]. destruct (N w) as [w'' E].
        rewrite E in F. discriminate.
Qed.

(** The closure [add] registers for a DOM node never throws. *)
Lemma add_domTarget_neverThrows (reg : Registry) (name ev : string)
    (h : nat) (options : bool) (w : World) :
  Forall neverThrows reg ->
  exists reg' w',
    add reg (domTarget name) ev h options w = JS.Normal (reg', w') /\
    List.length reg' = S (List.length reg) /\ Forall neverThrows reg'.
Proof.
  intros A. unfold add. simpl.
  eexists. eexists. split; [reflexivity|]. split.
  - rewrite length_app. simpl. lia.
  - apply Forall_app. split; [exact A|]. constructor; [|constructor].
    intros w0. eexists. reflexivity.
Qed.

End RegistryFacts.

(** C3, as stated, fails: of three registered removals the second throws;
    [cleanup()] throws in turn, the third removal is not run (its listener
    stays installed), nothing is written to the console, the list is kept,
    and a second [cleanup()] runs the first removal once more. *)
Lemma cleanup_fault_counterexample :
  match Registry.threeAdds with
  | JS.Normal (reg, w) =>
      List.length reg = 3 /\
      fst (Registry.cleanup reg w) = [0; 1] /\
      match snd (Registry.cleanup reg w) with
      | JS.Throw (reg', w') =>
          List.length reg' = 3 /\
          In Registry.canvasListener (Registry.listeners w') /\
          Registry.console w' = [] /\
          fst (Registry.cleanup reg' w') = [0; 1]
      | JS.Normal _ => False
      end
  | JS.Throw _ => False
  end.
Proof.
  vm_compute. repeat split. now left.
Qed.

(** C3 (amended): [cleanup()] calls the registered closures in registration
    order, each at most once, up to and including the first one that throws.
    If none throws, every closure is called exactly once, the list is
    emptied, and a further [cleanup()] calls nothing. If one throws, the
    exception leaves [cleanup()], the closures after it are not called and
    the list is kept. Closures that cannot throw make [cleanup()] return
    normally. *)
Theorem cleanup_runs_in_order (reg : Registry.Registry) (w : Registry.World) :
  exists k,
    fst (Registry.cleanup reg w) = seq 0 k /\ k <= List.length reg /\
    match snd (Registry.cleanup reg w) with
    | JS.Normal (reg', w') =>
        k = List.length reg /\ reg' = [] /\
        Registry.cleanup reg' w' = ([], JS.Normal ([], w'))
    | JS.Throw (reg', w') =>
        reg' = reg /\ 1 <= k /\
        exists fn w0, nth_error reg (k - 1) = Some fn /\ JS.threw (fn w0) = true
    end /\
    (Forall Registry.neverThrows reg ->
     JS.threw (snd (Registry.cleanup reg w)) = false).
Proof.
  destruct (forEach_spec reg 0 w) as (k & K1 & K2 & K3 & K4 & K5).
  exists k. unfold Registry.cleanup.
  destruct (Registry.forEach reg 0 w) as [calls [w'|w']]; simpl in *.
  - split; [exact K1|]. split; [exact K2|]. split.
    + split; [apply K3; reflexivity|]. split; reflexivity.
    + intros _. reflexivity.
  - split; [exact K1|]. split; [exact K2|]. split.
    + split; [reflexivity|]. apply K4. reflexivity.
    + exact K5.
Qed.

Lemma cleanup_runs_in_order_witness :
  exists reg w,
    Registry.add Registry.createCleanupRegistry (Registry.domTarget "window")
      "resize" 1 false Registry.emptyWorld = JS.Normal (reg, w) /\
    JS.threw (snd (Registry.cleanup reg w)) = false.
Proof.
  eexists. eexists. split; [reflexivity|].
  match goal with |- JS.threw (snd (Registry.cleanup ?r ?w)) = false =>
    destruct (@cleanup_runs_in_order r w) as (k & _ & _ & _ & H)
  end.
  apply H. constructor; [|constructor].
  intros w0. eexists. reflexivity.
Defined.

(** *** One-shot effects *)

Section OneShotFacts.

Import Host.

Lemma radar_callback_fired (entries : list Entry) : forall s,
  SkillRadar.fired (SkillRadar.observerCallback entries s)
    = SkillRadar.fired s + List.length (filter isIntersecting entries) /\
  List.length (SkillRadar.loops (SkillRadar.observerCallback entries s))
    = List.length (SkillRadar.loops s) + List.length (filter isIntersecting entries).
Proof.
  induction entries as [|entry rest IH]; intros s; simpl.
  - split; lia.
  - destruct (isIntersecting entry); simpl.
    + match goal with |- context [SkillRadar.observerCallback rest ?x] =>
        destruct (IH x) as [F L]
      end.
      rewrite F, L. simpl. rewrite length_app. simpl. split; lia.
    + apply IH.
Qed.

(** The counters: the block under [if (isVisible)] runs at most once, and
    exactly once if the section exists and some check finds it visible. *)
Lemma counters_check_fired (present : bool) (targets : list Z) (duration : Q)
    (events : list Counters.Viewport) : forall s,
  Counters.fired s = (if Counters.animated s then 1 else 0) ->
  let s' := Counters.scrolls present targets duration events s in
  Counters.fired s' = (if Counters.animated s' then 1 else 0) /\
  Counters.animated s' =
    Counters.animated s || (present && existsb Counters.visible events).
Proof.
  induction events as [|v events IH]; intros s H; simpl.
  - split; [exact H|]. rewrite andb_false_r, orb_false_r. reflexivity.
  - set (x := Counters.check present targets duration v s).
    assert (H1 : Counters.fired x = (if Counters.animated x then 1 else 0) /\
                 Counters.animated x =
                   Counters.animated s || (present && Counters.visible v)).
    { unfold x, Counters.check, Counters.visible.
      destruct present; simpl; [|rewrite orb_false_r; now split].
      destruct (Counters.animated s) eqn:A; rewrite ?A in H; simpl;
        [rewrite A; now split|].
      destruct ((Counters.rectTop v <? Counters.innerHeight v)%Z &&
                (Counters.rectBottom v >=? 0)%Z); simpl.
      - rewrite H. now split.
      - rewrite A. now split. }
    destruct H1 as [F1 A1].
    destruct (IH _ F1) as [F2 A2].
    split; [exact F2|]. rewrite A2, A1.
    destruct (Counters.animated s), present, (Counters.visible v); reflexivity.
Qed.

Lemma counters_fire_once (present : bool) (targets : list Z) (duration : Q)
    (atLoad : Counters.Viewport) (events : list Counters.Viewport) :
  let s := Counters.scrolls present targets duration events
             (Counters.init present targets duration atLoad) in
  Counters.fired s <= 1 /\
  (Counters.fired s = 1 <->
   present && existsb Counters.visible (atLoad :: events) = true).
Proof.
  pose proof (@counters_check_fired present targets duration (atLoad :: events)
                {| Counters.animated := false; Counters.counters := [];
                   Counters.fired := 0 |} eq_refl) as [F A].
  simpl in F, A. cbv zeta. unfold Counters.init.
  change (existsb Counters.visible (atLoad :: events))
    with (Counters.visible atLoad || existsb Counters.visible events).
  rewrite F, A.
  destruct (present && (Counters.visible atLoad || existsb Counters.visible events));
    split; try lia; split; intros; try reflexivity; try discriminate; lia.
Qed.

(** Both counter effects are instances. *)
Lemma metric_and_impact_counters_fire_once (present : bool) (targets : list Z)
    (atLoad : Counters.Viewport) (events : list Counters.Viewport) :
  Counters.fired
    (Counters.scrolls present targets 2000 events
       (Counters.initMetricCounters present targets atLoad)) <= 1 /\
  Counters.fired
    (Counters.scrolls present targets 2500 events
       (Counters.initImpactCounters present targets atLoad)) <= 1.
Proof.
  split; apply counters_fire_once.
Qed.

(** The radar observer is disconnected by the first intersecting entry. *)
Lemma radar_callback_observing (entries : list Entry) : forall s,
  SkillRadar.observing (SkillRadar.observerCallback entries s) =
  match filter isIntersecting entries with
  | [] => SkillRadar.observing s
  | _ :: _ => false
  end.
Proof.
  induction entries as [|entry rest IH]; intros s; simpl; [reflexivity|].
  destruct (isIntersecting entry); simpl.
  - rewrite IH. simpl. destruct (filter isIntersecting rest); reflexivity.
  - apply IH.
Qed.

Lemma radar_frame_fired (ps : list Q) : forall s,
  SkillRadar.fired (fold_left (fun s' p => SkillRadar.animate p s') ps s)
    = SkillRadar.fired s /\
  SkillRadar.observing (fold_left (fun s' p => SkillRadar.animate p s') ps s)
    = SkillRadar.observing s.
Proof.
  induction ps as [|p ps IH]; intros s; simpl; [now split|].
  destruct (IH (SkillRadar.animate p s)) as [F O]. now split.
Qed.

(** When every notification carries at most one intersecting entry, the
    radar animation is started at most once. *)
Lemma radar_fires_once_on_single_entries (events : list Event) : forall s,
  (forall entries, In (Intersection entries) events ->
     List.length (filter isIntersecting entries) <= 1) ->
  (SkillRadar.observing s = true /\ SkillRadar.fired s = 0) \/
  (SkillRadar.observing s = false /\ SkillRadar.fired s <= 1) ->
  SkillRadar.fired (SkillRadar.run events s) <= 1.
Proof.
  induction events as [|e events IH]; intros s H I; simpl.
  - destruct I as [[_ F] | [_ F]]; lia.
  - apply IH; [intros entries Hin; apply H; now right|].
    destruct e as [|entries|w h|]; simpl; try exact I.
    + destruct (radar_frame_fired (SkillRadar.loops s)
                  {| SkillRadar.observing := SkillRadar.observing s;
                     SkillRadar.loops := [];
                     SkillRadar.draws := SkillRadar.draws s;
                     SkillRadar.fired := SkillRadar.fired s |}) as [F O].
      rewrite F, O. exact I.
    + destruct I as [[O F] | [O F]].
      * rewrite O.
        destruct (radar_callback_fired entries s) as [F' _].
        pose proof (radar_callback_observing entries s) as O'.
        pose proof (H entries (or_introl eq_refl)) as L.
        rewrite F', F, O'.
        destruct (filter isIntersecting entries) as [|x l]; simpl in *.
        -- left. now split.
        -- right. split; [reflexivity | lia].
      * rewrite O. right. now split.
Qed.

End OneShotFacts.

(** C4 (the code departs from it): the radar chart starts its animation once
    for every intersecting entry of the first notification it receives, so a
    notification carrying two of them (in, out, in) fires it twice and leaves
    two animation loops running. *)
Theorem radar_fires_per_intersecting_entry (entries : list Host.Entry) :
  SkillRadar.fired
    (SkillRadar.onEvent (SkillRadar.initSkillRadarChart true)
       (Host.Intersection entries))
    = List.length (filter Host.isIntersecting entries) /\
  SkillRadar.fired
    (SkillRadar.run
       [Host.Intersection [Scenario.onScreen; Scenario.offScreen; Scenario.onScreen]]
       (SkillRadar.initSkillRadarChart true)) = 2 /\
  List.length
    (SkillRadar.loops
       (SkillRadar.run
          [Host.Intersection [Scenario.onScreen; Scenario.offScreen; Scenario.onScreen]]
          (SkillRadar.initSkillRadarChart true))) = 2.
Proof.
  split; [|split; reflexivity].
  simpl. destruct (radar_callback_fired entries (SkillRadar.initSkillRadarChart true))
    as [F _].
  rewrite F. reflexivity.
Qed.

(** *** The particles inside the loop of the node canvas *)

Section ParticlesInLoop.

Import Host NodeCanvas.

Variable env : Env.

Local Abbreviation allInv s := (Forall PipelineCanvas.particleInv (particles s)).

Lemma updateSome_inv (k : nat) (ps : list PipelineCanvas.Particle) :
  Forall PipelineCanvas.particleInv ps ->
  Forall PipelineCanvas.particleInv (updateSome k ps).
Proof.
  intros H. rewrite <- (firstn_skipn k ps) in H.
  apply Forall_app in H. destruct H as [H1 H2].
  unfold updateSome. apply Forall_app. split; [|exact H2].
  apply Forall_map. apply Forall_impl with (P := PipelineCanvas.particleInv);
    [intros p; apply update_preserves | exact H1].
Qed.

Lemma animate_particles (s : State) :
  allInv s -> allInv (JS.stateOf (animate env s)).
Proof.
  intros H. unfold animate.
  destruct (isCanvasVisible s); simpl; [|exact H].
  destruct (body env (frameSteps s)); simpl.
  - apply Forall_map. apply Forall_impl with (P := PipelineCanvas.particleInv);
      [intros p; apply update_preserves | exact H].
  - apply updateSome_inv, H.
Qed.

Lemma observerCallback_particles (entries : list Entry) : forall s,
  allInv s -> allInv (JS.stateOf (observerCallback env entries s)).
Proof.
  induction entries as [|entry rest IH]; intros s H; simpl; [exact H|].
  destruct (isIntersecting entry && negb (truthy (animationFrameId s))).
  - pose proof (animate_particles (setVisible (isIntersecting entry) s) H) as A.
    destruct (animate env (setVisible (isIntersecting entry) s)); simpl in *;
      [apply IH, A | exact A].
  - destruct (negb (isIntersecting entry) && truthy (animationFrameId s));
      apply IH, H.
Qed.

Lemma runCallbacks_particles (callbacks : list nat) : forall s,
  allInv s -> allInv (runCallbacks env callbacks s).
Proof.
  induction callbacks as [|h rest IH]; intros s H; simpl; [exact H|].
  pose proof (animate_particles s H) as A.
  destruct (animate env s); simpl in *; apply IH, A.
Qed.

Lemma step_particles (s : State) (a : Action) :
  allInv s -> allInv (step env s a).
Proof.
  intros H. destruct a as [e|]; simpl.
  - destruct e as [|entries|w h|]; simpl.
    + apply runCallbacks_particles, H.
    + destruct (observing s); [|exact H].
      pose proof (observerCallback_particles entries s H) as A.
      destruct (observerCallback env entries s); exact A.
    + destruct (resizeListener s); exact H.
    + exact H.
  - unfold callCleanups. generalize (cleanupRegistry s). intros fns.
    revert s H. induction fns as [|f fns IH]; intros s H; simpl; [exact H|].
    apply IH. destruct f; simpl; try exact H.
    unfold callCleanup. simpl. destruct (truthy (animationFrameId s)); exact H.
Qed.

Lemma init_particles :
  (forall k, (0 <= random env k)%Q /\ (random env k < 1)%Q) ->
  allInv (initInteractivePipelineCanvas env).
Proof.
  intros Hr. unfold initInteractivePipelineCanvas.
  destruct (canvasPresent env); simpl; [|constructor].
  destruct (prefersReducedMotion env); simpl; [constructor|].
  match goal with |- context [animate env ?s] =>
    assert (H : allInv s);
    [|pose proof (animate_particles s H) as A; destruct (animate env s); exact A]
  end.
  simpl. unfold PipelineCanvas.createParticles. apply Forall_map.
  apply Forall_forall. intros i _. now apply createParticle_inv.
Qed.

(** In every state the node canvas can reach, all its particles satisfy the
    particle invariant, also when a frame was cut short by an exception. *)
Lemma reachable_particles (actions : list Action) :
  (forall k, (0 <= random env k)%Q /\ (random env k < 1)%Q) ->
  allInv (run env actions (initInteractivePipelineCanvas env)).
Proof.
  intros Hr. pose proof (init_particles Hr) as H.
  revert H. generalize (initInteractivePipelineCanvas env).
  induction actions as [|a actions IH]; intros s H; simpl; [exact H|].
  apply IH, step_particles, H.
Qed.

End ParticlesInLoop.

(* ================================================================= *)
(** ** Part III: further properties of the script *)
(* ================================================================= *)

(** *** Device tier *)

(** X1: a device is outside the low tier exactly when the browser reports
    both hints and both are above 4; a browser that reports no
    [deviceMemory] (or no [hardwareConcurrency]) puts every device in the
    low tier. *)
Theorem isLowEndDevice_needs_both_hints (nav : Utils.Navigator) :
  Utils.isLowEndDevice nav = false <->
  exists cores memory,
    Utils.hardwareConcurrency nav = Some cores /\ (4 < cores)%N /\
    Utils.deviceMemory nav = Some memory /\ (4 < memory)%Q.
Proof.
  destruct nav as [c m]. unfold Utils.isLowEndDevice. simpl.
  rewrite orb_false_iff. split.
  - intros [Hc Hm]. destruct c as [c|]; [|discriminate]. destruct m as [m|].
    + exists c, m. simpl in Hc, Hm.
      split; [reflexivity|]. split.
      * destruct (N.eqb c 0); [discriminate|]. apply N.leb_gt in Hc. exact Hc.
      * split; [reflexivity|].
        destruct (Qeq_bool m 0); [discriminate|].
        apply Qnot_le_lt. intros L. apply Qle_bool_iff in L. congruence.
    + simpl in Hm. discriminate.
  - intros (cores & memory & Ec & Hc & Em & Hm).
    simpl in Ec, Em. subst c m. simpl. split.
    + destruct (N.eqb cores 0) eqn:Z0.
      * apply N.eqb_eq in Z0. subst. discriminate.
      * apply N.leb_gt. exact Hc.
    + destruct (Qeq_bool memory 0) eqn:Z0.
      * apply Qeq_bool_iff in Z0. rewrite Z0 in Hm. discriminate.
      * destruct (Qle_bool memory 4) eqn:L; [|reflexivity].
        apply Qle_bool_iff in L. exfalso. apply (Qlt_irrefl 4).
        eapply Qlt_le_trans; eassumption.
Qed.

(** *** The particles of the node canvas *)

(** X2: the node canvas creates 5, 10 or 20 particles according to the
    device (none when the canvas is missing or reduced motion is preferred),
    and no frame, notification, resize, exception or teardown ever adds or
    removes one. *)
Theorem particle_count_is_fixed (env : Host.Env) (actions : list NodeCanvas.Action) :
  List.length
    (NodeCanvas.particles
       (NodeCanvas.run env actions (NodeCanvas.initInteractivePipelineCanvas env)))
  = if Host.canvasPresent env && negb (Host.prefersReducedMotion env)
    then Utils.particleCount (Utils.isLowEndDevice (Host.navigator env))
                             (Utils.isMobileDevice (Host.innerWidth env))
    else 0.
Proof.
  rewrite run_count. unfold NodeCanvas.initInteractivePipelineCanvas.
  destruct (Host.canvasPresent env); simpl; [|reflexivity].
  destruct (Host.prefersReducedMotion env); simpl; [reflexivity|].
  match goal with |- context [NodeCanvas.animate env ?s] =>
    pose proof (animate_count env s) as A;
    destruct (NodeCanvas.animate env s); simpl in *; rewrite A
  end;
  unfold PipelineCanvas.createParticles; now rewrite length_map, length_seq.
Qed.

(** *** Where things are drawn *)

Section DrawingFacts.

Import PipelineCanvas.

Lemma half_scaled (isMobile : bool) (width : Q) :
  (0 <= width)%Q -> (0 <= width / Drawing.divisor isMobile)%Q.
Proof.
  intros H. destruct isMobile; unfold Drawing.divisor, Qdiv.
  - apply Qmult_le_0_compat; [exact H | discriminate].
  - apply Qmult_le_0_compat; [exact H | discriminate].
Qed.

(** On every edge the end node lies to the right of the start node, at the
    same height. *)
Lemma edge_geometry (i : nat) (p : Particle) :
  onEdge i p ->
  (x (startNode p) <= x (endNode p))%Q /\ y (endNode p) = y (startNode p).
Proof.
  intros He. destruct (onEdge_cases He) as (Hc & Hs & Hen).
  rewrite Hs, Hen.
  destruct Hc as [-> | [-> | [-> | ->]]]; vm_compute; split;
    (discriminate || reflexivity).
Qed.

End DrawingFacts.

(** X3: a particle that satisfies the particle invariant is drawn on the
    connection between the two nodes of its edge: horizontally between the
    positions at which the two nodes are drawn, and at the height of the
    node row. *)
Theorem particle_drawn_on_its_edge
    (isMobile : bool) (width height : Q) (p : PipelineCanvas.Particle) :
  PipelineCanvas.particleInv p -> (0 <= width)%Q ->
  (Drawing.nodeX isMobile width (PipelineCanvas.startNode p)
     <= Drawing.particleX isMobile width p)%Q /\
  (Drawing.particleX isMobile width p
     <= Drawing.nodeX isMobile width (PipelineCanvas.endNode p))%Q /\
  (Drawing.particleY isMobile height p
     == Drawing.nodeY isMobile height (PipelineCanvas.startNode p))%Q.
Proof.
  intros (P0 & P1 & _ & i & He) W.
  destruct (edge_geometry He) as [Hx Hy].
  pose proof (half_scaled isMobile W) as K.
  unfold Drawing.particleX, Drawing.particleY, Drawing.nodeX, Drawing.nodeY.
  rewrite Hy.
  set (k := (width / Drawing.divisor isMobile)%Q) in *.
  set (sx := PipelineCanvas.x (PipelineCanvas.startNode p)) in *.
  set (ex := PipelineCanvas.x (PipelineCanvas.endNode p)) in *.
  set (g := PipelineCanvas.progress p) in *.
  assert (E : forall a : Q, (a * width / Drawing.divisor isMobile == a * k)%Q).
  { intros a. unfold k, Qdiv. ring. }
  assert (D : (0 <= (ex - sx) * k)%Q).
  { apply Qmult_le_0_compat; [lra | exact K]. }
  assert (U0 : (0 <= (ex - sx) * k * g)%Q) by (apply Qmult_le_0_compat; assumption).
  assert (U1 : ((ex - sx) * k * g <= (ex - sx) * k)%Q).
  { assert (G : (0 <= 1 - g)%Q) by lra.
    pose proof (Qmult_le_0_compat _ _ D G) as M. lra. }
  split; [rewrite E; lra|]. split; [rewrite E; lra|].
  unfold Qdiv. ring.
Qed.

Lemma particle_drawn_on_its_edge_witness :
  let p := PipelineCanvas.createParticle (fun _ => (1 # 2)%Q) 0 in
  (Drawing.nodeX false 800 (PipelineCanvas.startNode p)
     <= Drawing.particleX false 800 p)%Q /\
  (Drawing.particleX false 800 p
     <= Drawing.nodeX false 800 (PipelineCanvas.endNode p))%Q /\
  (Drawing.particleY false 400 p
     == Drawing.nodeY false 400 (PipelineCanvas.startNode p))%Q.
Proof.
  cbv zeta.
  apply (@particle_drawn_on_its_edge false 800 400
           (PipelineCanvas.createParticle (fun _ => (1 # 2)%Q) 0)).
  - apply createParticle_inv. intros k. split; [discriminate | reflexivity].
  - discriminate.
Defined.

(** Assigning a number between 0 and 2147483647 to [canvas.width] leaves
    its integer part. *)
Lemma reflectUnsignedLong_small (default : Z) (v : Q) :
  (0 <= v)%Q -> (v <= inject_Z 2147483647)%Q ->
  JS.reflectUnsignedLong default v = Qfloor v.
Proof.
  intros L U.
  assert (F0 : (0 <= Qfloor v)%Z).
  { change 0%Z with (Qfloor 0). now apply Qfloor_resp_le. }
  assert (F1 : (Qfloor v <= 2147483647)%Z).
  { rewrite <- (Qfloor_Z 2147483647). now apply Qfloor_resp_le. }
  assert (T : JS.truncate v = Qfloor v).
  { destruct v as [a b]. unfold JS.truncate. cbn [Qnum Qden Qfloor].
    apply Z.quot_div_nonneg; [|reflexivity].
    unfold Qle in L. simpl in L. lia. }
  unfold JS.reflectUnsignedLong, JS.toUnsignedLong. cbv zeta. rewrite T.
  rewrite Z.mod_small by lia.
  apply Z.leb_le in F1. now rewrite F1.
Qed.

Lemma canvasScale_cases (isMobile : bool) (devicePixelRatio : Q) :
  Drawing.canvasScale isMobile devicePixelRatio
  = if isMobile then 1%Q
    else if Qeq_bool devicePixelRatio 0 then 1%Q
    else if Qle_bool devicePixelRatio 2 then devicePixelRatio
    else 2%Q.
Proof.
  unfold Drawing.canvasScale, JS.orQ. cbv zeta.
  destruct isMobile; [reflexivity|].
  destruct (Qeq_bool devicePixelRatio 0); reflexivity.
Qed.

(** The width of a canvas scaled by a factor between 0 and 2. *)
Lemma canvasWidth_floor (isMobile : bool) (devicePixelRatio : Q) (offsetWidth : Z) :
  (0 <= offsetWidth)%Z -> (offsetWidth <= 1073741823)%Z ->
  (0 <= Drawing.canvasScale isMobile devicePixelRatio)%Q ->
  (Drawing.canvasScale isMobile devicePixelRatio <= 2)%Q ->
  Drawing.canvasWidth isMobile devicePixelRatio offsetWidth
  = Qfloor (inject_Z offsetWidth * Drawing.canvasScale isMobile devicePixelRatio).
Proof.
  intros W0 W1 S0 S2. unfold Drawing.canvasWidth.
  assert (Q0 : (0 <= inject_Z offsetWidth)%Q)
    by (change 0%Q with (inject_Z 0); now rewrite <- Zle_Qle).
  assert (Q1 : (inject_Z offsetWidth <= inject_Z 1073741823)%Q)
    by now rewrite <- Zle_Qle.
  set (k := Drawing.canvasScale isMobile devicePixelRatio) in *.
  assert (M0 : (0 <= inject_Z offsetWidth * k)%Q)
    by now apply Qmult_le_0_compat.
  assert (M1 : (0 <= inject_Z offsetWidth * (2 - k))%Q)
    by (apply Qmult_le_0_compat; lra).
  apply reflectUnsignedLong_small; [exact M0|].
  assert (E : (inject_Z 1073741823 == 1073741823)%Q) by reflexivity.
  assert (E' : (inject_Z 2147483647 == 2147483647)%Q) by reflexivity.
  rewrite E in Q1. rewrite E'. lra.
Qed.

(** X4: [resizeCanvas] scales the canvas by 1 on a narrow viewport and by
    the device pixel ratio capped at 2 otherwise, and [canvas.width] keeps
    the integer part of the product; the drawing code and the hit test
    divide [canvas.width] by 1 on a narrow viewport and by 2 otherwise. So
    the width they place the nodes in is the layout width on a narrow
    viewport and for a ratio of 2 or more; at ratio 1 on a wide viewport it
    is half the layout width; and for every ratio below 2 on a wide
    viewport it is less than the layout width, and at least half of it from
    ratio 1 on (layout widths up to 2^30 - 1). *)
Theorem drawing_width_depends_on_pixel_ratio
    (isMobile : bool) (devicePixelRatio : Q) (offsetWidth : Z) :
  (0 < offsetWidth)%Z -> (offsetWidth <= 1073741823)%Z ->
  let width := Drawing.canvasWidth isMobile devicePixelRatio offsetWidth in
  (isMobile = true \/ (2 <= devicePixelRatio)%Q ->
   (inject_Z width / Drawing.divisor isMobile == inject_Z offsetWidth)%Q) /\
  (isMobile = false -> (devicePixelRatio == 1)%Q ->
   width = offsetWidth /\
   (inject_Z width / Drawing.divisor isMobile == inject_Z offsetWidth / 2)%Q) /\
  (isMobile = false -> (0 < devicePixelRatio)%Q -> (devicePixelRatio < 2)%Q ->
   (0 <= width)%Z /\
   (inject_Z width / Drawing.divisor isMobile < inject_Z offsetWidth)%Q /\
   ((1 <= devicePixelRatio)%Q ->
    (inject_Z offsetWidth / 2 <= inject_Z width / Drawing.divisor isMobile)%Q)).
Proof.
  intros W0 W1. cbv zeta.
  assert (W0' : (0 <= offsetWidth)%Z) by lia.
  assert (Q0 : (0 < inject_Z offsetWidth)%Q)
    by (change 0%Q with (inject_Z 0); now rewrite <- Zlt_Qlt).
  pose proof (canvasScale_cases isMobile devicePixelRatio) as K.
  split; [|split].
  - intros H.
    assert (E : (Drawing.canvasScale isMobile devicePixelRatio
                 == Drawing.divisor isMobile)%Q).
    { rewrite K. unfold Drawing.divisor.
      destruct H as [-> | H]; [reflexivity|].
      destruct isMobile; [reflexivity|].
      destruct (Qeq_bool devicePixelRatio 0) eqn:Z0.
      { apply Qeq_bool_iff in Z0. lra. }
      destruct (Qle_bool devicePixelRatio 2) eqn:L; [|reflexivity].
      apply Qle_bool_iff in L. now apply Qle_antisym. }
    assert (D : (0 < Drawing.divisor isMobile)%Q /\
                (Drawing.divisor isMobile <= 2)%Q).
    { unfold Drawing.divisor. destruct isMobile; split; lra. }
    rewrite canvasWidth_floor by (try assumption; rewrite E; lra).
    assert (P : (inject_Z offsetWidth * Drawing.canvasScale isMobile devicePixelRatio
                 == inject_Z (offsetWidth * (if isMobile then 1 else 2)))%Q).
    { rewrite E, inject_Z_mult. unfold Drawing.divisor.
      destruct isMobile; reflexivity. }
    rewrite (Qfloor_comp _ _ P), Qfloor_Z, inject_Z_mult.
    unfold Drawing.divisor. destruct isMobile; field.
  - intros -> E1.
    assert (E : (Drawing.canvasScale false devicePixelRatio == 1)%Q).
    { rewrite K.
      destruct (Qeq_bool devicePixelRatio 0) eqn:Z0; [reflexivity|].
      destruct (Qle_bool devicePixelRatio 2) eqn:L; [exact E1|].
      exfalso. assert (L' : (devicePixelRatio <= 2)%Q) by lra.
      apply Qle_bool_iff in L'. congruence. }
    rewrite canvasWidth_floor by (try assumption; rewrite E; lra).
    assert (P : (inject_Z offsetWidth * Drawing.canvasScale false devicePixelRatio
                 == inject_Z offsetWidth)%Q) by (rewrite E; ring).
    rewrite (Qfloor_comp _ _ P), Qfloor_Z.
    split; [reflexivity|]. unfold Drawing.divisor. reflexivity.
  - intros -> P L.
    assert (E : Drawing.canvasScale false devicePixelRatio = devicePixelRatio).
    { rewrite K.
      destruct (Qeq_bool devicePixelRatio 0) eqn:Z0.
      { apply Qeq_bool_iff in Z0. lra. }
      destruct (Qle_bool devicePixelRatio 2) eqn:L2; [reflexivity|].
      exfalso. apply Qlt_le_weak in L. apply Qle_bool_iff in L. congruence. }
    rewrite canvasWidth_floor by (try assumption; rewrite E; lra).
    rewrite E. set (v := (inject_Z offsetWidth * devicePixelRatio)%Q).
    assert (V0 : (0 <= v)%Q) by (apply Qmult_le_0_compat; lra).
    assert (V2 : (0 < inject_Z offsetWidth * (2 - devicePixelRatio))%Q)
      by (apply Qmult_lt_0_compat; lra).
    assert (V2' : (v < 2 * inject_Z offsetWidth)%Q) by (unfold v; lra).
    pose proof (Qfloor_le v) as F.
    unfold Drawing.divisor.
    split; [|split].
    + change 0%Z with (Qfloor 0). now apply Qfloor_resp_le.
    + apply Qlt_shift_div_r; lra.
    + intros L1. apply Qle_shift_div_l; [lra|].
      assert (V1 : (0 <= inject_Z offsetWidth * (devicePixelRatio - 1))%Q)
        by (apply Qmult_le_0_compat; lra).
      assert (G : (inject_Z offsetWidth <= v)%Q) by (unfold v; lra).
      apply Qfloor_resp_le in G. rewrite Qfloor_Z in G.
      rewrite Zle_Qle in G. revert G.
      generalize (inject_Z (Qfloor v)) (inject_Z offsetWidth).
      intros a b G. assert (E2 : (b / 2 * 2 == b)%Q) by field.
      rewrite E2. exact G.
Qed.

Lemma drawing_width_depends_on_pixel_ratio_witness :
  let width := Drawing.canvasWidth false (3 # 2) 801 in
  (false = true \/ (2 <= 3 # 2)%Q ->
   (inject_Z width / Drawing.divisor false == inject_Z 801)%Q) /\
  (false = false -> (3 # 2 == 1)%Q ->
   width = 801%Z /\
   (inject_Z width / Drawing.divisor false == inject_Z 801 / 2)%Q) /\
  (false = false -> (0 < 3 # 2)%Q -> (3 # 2 < 2)%Q ->
   (0 <= width)%Z /\
   (inject_Z width / Drawing.divisor false < inject_Z 801)%Q /\
   ((1 <= 3 # 2)%Q ->
    (inject_Z 801 / 2 <= inject_Z width / Drawing.divisor false)%Q)).
Proof.
  cbv zeta.
  apply (@drawing_width_depends_on_pixel_ratio false (3 # 2) 801); lia.
Defined.

(** *** [throttle] and [debounce] *)

Section ThrottleFacts.

Import Throttle.

Variable A : Type.
Variable delay : Z.
Hypothesis delay_nonneg : (0 <= delay)%Z.

Lemma spaced_snoc (l : list Z) (a b : Z) :
  spaced delay (l ++ [a]) -> (a + delay <= b)%Z -> spaced delay (l ++ [a; b]).
Proof.
  induction l as [|x l IH]; intros S H; simpl in *.
  - now split.
  - destruct l as [|y l]; simpl in *.
    + destruct S as [S1 _]. repeat split; assumption.
    + destruct S as [S1 S2]. split; [exact S1|]. now apply IH.
Qed.

Lemma spaced_after (older : list (Z * A)) (last now : Z) (a1 a2 : A) :
  spaced delay (map fst (older ++ [(last, a1)])) -> (last + delay <= now)%Z ->
  spaced delay (map fst ((older ++ [(last, a1)]) ++ [(now, a2)])).
Proof.
  intros S H. rewrite <- app_assoc. rewrite map_app in *. simpl in *.
  now apply spaced_snoc.
Qed.

Lemma throttle_step_inv (from : Z) (s : State A) (e : Event A) :
  (0 < from)%Z -> (from <= time e)%Z -> inv delay from s ->
  inv delay (time e) (step delay s e).
Proof.
  intros P T (S & I). destruct e as [now args | now]; simpl in *.
  - unfold invoke. destruct (lastRan s) as [last|] eqn:L.
    + destruct I as (B & (older & a & E) & D).
      destruct (Z.eqb_spec last 0) as [Z0|_]; [lia|].
      split; [exact S|]. simpl. rewrite ?L.
      split; [lia|]. split; [now exists older, a|]. lia.
    + destruct I as [E N]. unfold runNow. split; simpl.
      * rewrite E. simpl. exact I.
      * split; [lia|]. split; [exists [], args; now rewrite E|].
        now rewrite N.
  - unfold fire. destruct (timeout s) as [[due args]|] eqn:Tm.
    + destruct (lastRan s) as [last|] eqn:L.
      * destruct I as (B & (older & a & E) & D).
        destruct (Z.leb_spec due now) as [Du|Du].
        -- destruct (Z.geb_spec (now - last) delay) as [G|G]; [|lia].
           split; simpl.
           ++ rewrite E. apply spaced_after; [now rewrite <- E | lia].
           ++ split; [lia|]. split; [|exact I].
              exists (executed s), args. reflexivity.
        -- split; [exact S|]. rewrite ?L, ?Tm.
           split; [lia|]. split; [now exists older, a | exact D].
      * destruct I as [_ N]. congruence.
    + split; [exact S|]. destruct (lastRan s) as [last|].
      * destruct I as (B & E & _). split; [lia|]. split; [exact E | now rewrite Tm].
      * destruct I as [E _]. now split.
Qed.

Lemma run_inv_throttle (events : list (Event A)) : forall from s,
  (0 < from)%Z -> clockwise from events -> inv delay from s ->
  inv delay (finish from events) (run delay events s).
Proof.
  induction events as [|e events IH]; intros from s P C I; simpl; [exact I|].
  destruct C as [C1 C2].
  apply IH; [lia | exact C2 | now apply throttle_step_inv with (from := from)].
Qed.

Lemma finish_app (events : list (Event A)) (e : Event A) (from : Z) :
  finish from (events ++ [e]) = time e.
Proof.
  unfold finish. rewrite fold_left_app. reflexivity.
Qed.

Lemma clockwise_app (events : list (Event A)) (e : Event A) : forall from,
  clockwise from (events ++ [e]) ->
  clockwise from events /\ (finish from events <= time e)%Z.
Proof.
  induction events as [|x events IH]; intros from C; simpl in *.
  - split; [exact I | apply C].
  - destruct C as [C1 C2]. destruct (IH _ C2) as [D1 D2].
    repeat split; assumption.
Qed.

Lemma finish_positive (events : list (Event A)) : forall from,
  (0 < from)%Z -> clockwise from events -> (0 < finish from events)%Z.
Proof.
  induction events as [|x events IH]; intros from P C; simpl in *; [exact P|].
  destruct C as [C1 C2]. apply IH; [lia | exact C2].
Qed.

End ThrottleFacts.

(** X5: under a clock that starts positive and never runs backwards, and a
    non-negative [delay], two successive calls a throttled function makes of
    [func] are at least [delay] apart; and when the pending timer runs, its
    callback always calls [func] with the arguments of the latest call: the
    test on the elapsed time inside the callback never fails. *)
Theorem throttle_spaces_calls
    (A : Type) (delay : Z) (events : list (Throttle.Event A))
    (now due : Z) (args : A) :
  (0 <= delay)%Z ->
  Throttle.clockwise 1 (events ++ [Throttle.Fire A now]) ->
  let s := Throttle.run delay events (Throttle.init A) in
  Throttle.spaced delay (map fst (Throttle.executed s)) /\
  (Throttle.timeout s = Some (due, args) -> (due <= now)%Z ->
   Throttle.executed (Throttle.fire delay now s)
     = Throttle.executed s ++ [(now, args)]).
Proof.
  intros D C s.
  destruct (@clockwise_app A events (Throttle.Fire A now) 1%Z C) as [C1 C2].
  assert (I0 : Throttle.inv delay 1 (Throttle.init A)) by (repeat split).
  pose proof (@run_inv_throttle A delay D events 1%Z (Throttle.init A) Z.lt_0_1 C1 I0) as I.
  fold s in I. split; [apply I|].
  intros Tm Du. destruct I as (_ & I). unfold Throttle.fire. rewrite Tm.
  destruct (Throttle.lastRan s) as [last|] eqn:L.
  - destruct I as (B & _ & Dl). rewrite Tm in Dl.
    destruct (Z.leb_spec due now) as [_|]; [|lia].
    destruct (Z.geb_spec (now - last) delay) as [_|]; [reflexivity | lia].
  - destruct I as [_ N]. congruence.
Qed.

Lemma throttle_spaces_calls_witness :
  let events := [Throttle.Invoke 1000 5; Throttle.Invoke 1100 6; Throttle.Invoke 1200 7] in
  let s := Throttle.run 250 events (Throttle.init nat) in
  Throttle.spaced 250 (map fst (Throttle.executed s)) /\
  Throttle.timeout s = Some (1250%Z, 7) /\
  Throttle.executed (Throttle.fire 250 1260 s) = [(1000%Z, 5); (1260%Z, 7)].
Proof.
  cbv zeta.
  destruct (@throttle_spaces_calls nat 250
              [Throttle.Invoke 1000 5; Throttle.Invoke 1100 6; Throttle.Invoke 1200 7]
              1260 1250 7) as [H1 H2].
  - discriminate.
  - simpl. repeat split; discriminate.
  - split; [exact H1|]. split; [reflexivity|].
    apply H2; [reflexivity | discriminate].
Defined.

(** X6: only the very first call of a throttled function runs [func] at
    once. Once [func] has run, every later call, however long after, only
    sets the timer, due at that call or [delay] after the last run,
    whichever is later, and replaces a timer already pending. *)
Theorem throttle_defers_after_first
    (A : Type) (delay : Z) (events : list (Throttle.Event A)) (now : Z) (args : A) :
  (0 <= delay)%Z ->
  Throttle.clockwise 1 (events ++ [Throttle.Invoke now args]) ->
  let s := Throttle.run delay events (Throttle.init A) in
  let s' := Throttle.invoke delay now args s in
  (Throttle.executed s = [] -> Throttle.executed s' = [(now, args)]) /\
  (forall older last a, Throttle.executed s = older ++ [(last, a)] ->
     Throttle.executed s' = Throttle.executed s /\
     Throttle.timeout s' = Some (Z.max now (last + delay), args)).
Proof.
  intros D C s s'.
  destruct (@clockwise_app A events (Throttle.Invoke now args) 1%Z C) as [C1 C2].
  assert (I0 : Throttle.inv delay 1 (Throttle.init A)) by (repeat split).
  pose proof (@run_inv_throttle A delay D events 1%Z (Throttle.init A) Z.lt_0_1 C1 I0) as (_ & I).
  fold s in I. simpl in C2. unfold s', Throttle.invoke.
  destruct (Throttle.lastRan s) as [l|] eqn:L.
  - destruct I as (B & (older & a & E) & _).
    destruct (Z.eqb_spec l 0) as [Z0|_]; [lia|]. simpl. split.
    + intros N. rewrite N in E. destruct older; discriminate.
    + intros older' last a' E'. rewrite E' in E.
      apply app_inj_tail in E. destruct E as [_ E]. injection E as -> _.
      split; [reflexivity|]. f_equal. f_equal. lia.
  - destruct I as [E _]. split.
    + intros _. unfold Throttle.runNow. simpl. now rewrite E.
    + intros older last a E'. rewrite E' in E. destruct older; discriminate.
Qed.

Lemma throttle_defers_after_first_witness :
  let s := Throttle.run 250 [Throttle.Invoke 1000 5] (Throttle.init nat) in
  let s' := Throttle.invoke 250 900000 6 s in
  Throttle.executed s' = Throttle.executed s /\
  Throttle.timeout s' = Some (Z.max 900000 (1000 + 250), 6).
Proof.
  cbv zeta.
  destruct (@throttle_defers_after_first nat 250 [Throttle.Invoke 1000 5] 900000 6)
    as [_ H].
  - discriminate.
  - simpl. repeat split; discriminate.
  - apply (H [] 1000%Z 5). reflexivity.
Defined.

Section DebounceFacts.

Import Debounce.

Variable A : Type.
Variable delay : Z.

Lemma invokes_executed (calls : list (Z * A)) : forall s,
  executed (invokes delay calls s) = executed s.
Proof.
  induction calls as [|c calls IH]; intros s; simpl; [reflexivity|].
  now rewrite IH.
Qed.

Lemma invokes_last (calls : list (Z * A)) (t : Z) (args : A) (s : State A) :
  invokes delay (calls ++ [(t, args)]) s =
  {| timeout := Some ((t + Z.max 0 delay)%Z, args); executed := executed s |}.
Proof.
  unfold invokes. rewrite fold_left_app. simpl. unfold invoke. simpl.
  f_equal. apply invokes_executed.
Qed.

End DebounceFacts.

(** X7: after a burst of calls of a debounced function, only the last one
    counts: when the timer is allowed to run, [func] is called once, with
    the arguments of the last call, and that is no earlier than [delay]
    after the last call; before that nothing is called. *)
Theorem debounce_keeps_last_call
    (A : Type) (delay : Z) (s : Debounce.State A)
    (calls : list (Z * A)) (t : Z) (args : A) (now : Z) :
  let s' := Debounce.fire now (Debounce.invokes delay (calls ++ [(t, args)]) s) in
  Debounce.executed s' =
    (if (t + Z.max 0 delay <=? now)%Z
     then Debounce.executed s ++ [(now, args)]
     else Debounce.executed s) /\
  Debounce.executed (Debounce.fire now s') = Debounce.executed s'.
Proof.
  cbv zeta. rewrite invokes_last. unfold Debounce.fire. simpl.
  destruct (t + Z.max 0 delay <=? now)%Z eqn:E; simpl.
  - split; reflexivity.
  - rewrite E. split; reflexivity.
Qed.

(** *** The cleanup registry on DOM nodes *)

Section RegistryUseFacts.

Import Registry RegistryUse.

Lemma listener_eta (l : Listener) :
  {| target := target l; event := event l; handler := handler l;
     capture := capture l |} = l.
Proof. destruct l; reflexivity. Qed.

Lemma in_remove_iff (x l : Listener) (L : list Listener) :
  In x (remove Listener_eq_dec l L) <-> In x L /\ x <> l.
Proof.
  split.
  - apply in_remove.
  - intros [H N]. now apply in_in_remove.
Qed.

Lemma add_dom (l : Listener) (reg : Registry) (w : World) :
  add reg (domTarget (target l)) (event l) (handler l) (capture l) w =
  JS.Normal
    (reg ++ [removal l],
     {| listeners := if in_dec Listener_eq_dec l (listeners w)
                     then listeners w else listeners w ++ [l];
        console := console w |}).
Proof.
  unfold add, removal. simpl. rewrite listener_eta. reflexivity.
Qed.

Lemma removal_dom (l : Listener) (w : World) :
  removal l w =
  JS.Normal {| listeners := remove Listener_eq_dec l (listeners w);
               console := console w |}.
Proof.
  unfold removal. simpl. rewrite listener_eta. reflexivity.
Qed.

Lemma addAll_spec (ls : list Listener) : forall reg w,
  exists w1,
    addAll ls reg w = JS.Normal (reg ++ map removal ls, w1) /\
    (forall x, In x (listeners w1) <-> In x (listeners w) \/ In x ls) /\
    console w1 = console w.
Proof.
  induction ls as [|l ls IH]; intros reg w.
  - simpl. exists w. rewrite app_nil_r. split; [reflexivity|]. split; [|reflexivity].
    intros x. tauto.
  - cbn [addAll map]. rewrite add_dom.
    match goal with |- context [addAll ls _ ?w'] => destruct (IH (reg ++ [removal l]) w')
      as (w1 & E & Hin & Hc) end.
    exists w1. rewrite E, <- app_assoc. simpl. split; [reflexivity|].
    split; [|exact Hc].
    intros x. rewrite Hin. simpl.
    destruct (in_dec Listener_eq_dec l (listeners w)) as [I|I].
    + split; [tauto|]. intros [H | [<- | H]]; tauto.
    + rewrite in_app_iff. simpl. tauto.
Qed.

Lemma forEach_removals (ls : list Listener) : forall i w,
  exists w2,
    forEach (map removal ls) i w = (seq i (List.length ls), JS.Normal w2) /\
    (forall x, In x (listeners w2) <-> In x (listeners w) /\ ~ In x ls) /\
    console w2 = console w.
Proof.
  induction ls as [|l ls IH]; intros i w.
  - simpl. exists w. split; [reflexivity|]. split; [|reflexivity]. intros x. tauto.
  - cbn [map forEach List.length seq]. rewrite removal_dom.
    match goal with |- context [forEach _ (S i) ?w'] =>
      destruct (IH (S i) w') as (w2 & E & Hin & Hc) end.
    rewrite E. exists w2. split; [reflexivity|]. split; [|exact Hc].
    intros x. rewrite Hin. simpl. rewrite in_remove_iff.
    split.
    + intros [[H N] M]. split; [exact H|]. intros [<- | K]; [now apply N | now apply M].
    + intros [H M]. split; [split; [exact H|]|].
      * intros ->. apply M. now left.
      * intros K. apply M. now right.
Qed.

End RegistryUseFacts.

(** X8: listeners added to DOM nodes through the registry are all installed
    after the [add] calls, and [cleanup()] then runs every removal, in
    order, without throwing, and leaves exactly the listeners that were
    installed before and were not added through the registry; the console is
    untouched and the registry is empty. *)
Theorem cleanup_undoes_add (ls : list Registry.Listener) (w : Registry.World) :
  exists reg w1 w2,
    RegistryUse.addAll ls Registry.createCleanupRegistry w = JS.Normal (reg, w1) /\
    (forall x, In x (Registry.listeners w1) <-> In x (Registry.listeners w) \/ In x ls) /\
    Registry.cleanup reg w1 = (seq 0 (List.length ls), JS.Normal ([], w2)) /\
    (forall x, In x (Registry.listeners w2) <-> In x (Registry.listeners w) /\ ~ In x ls) /\
    Registry.console w2 = Registry.console w.
Proof.
  destruct (addAll_spec ls Registry.createCleanupRegistry w) as (w1 & E & H1 & C1).
  destruct (forEach_removals ls 0 w1) as (w2 & F & H2 & C2).
  exists (map RegistryUse.removal ls), w1, w2.
  split; [exact E|]. split; [exact H1|]. split.
  - unfold Registry.cleanup. now rewrite F.
  - split; [|congruence].
    intros x. rewrite H2, H1. tauto.
Qed.

(** *** Counters: targets that are not positive, and whole sections *)

(** X9: for a target that is zero or negative (and a duration of at least
    one interval period, 16 ms, as at both call sites) there is no counting:
    the first firing of the interval writes the target and clears the
    interval, and nothing changes afterwards. *)
Theorem animateCounter_nonpositive_target (target : Z) (duration : Q) (n : nat) :
  (target <= 0)%Z -> (16 <= duration)%Q ->
  Counter.timer (Counter.after target duration 1) = false /\
  Counter.textContent (Counter.after target duration 1) = Some target /\
  Counter.after target duration (S n) = Counter.after target duration 1.
Proof.
  intros T D.
  assert (K : (1 <= duration / 16)%Q).
  { apply Qle_shift_div_l; [reflexivity | lra]. }
  assert (G : (inject_Z target <= 0 + Counter.increment target duration)%Q).
  { rewrite Qplus_0_l. unfold Counter.increment.
    apply Qle_shift_div_l; [lra|].
    assert (T' : (inject_Z target <= 0)%Q).
    { replace 0%Q with (inject_Z 0) by reflexivity. now rewrite <- Zle_Qle. }
    assert (M : (0 <= (- inject_Z target) * (duration / 16 - 1))%Q)
      by (apply Qmult_le_0_compat; lra).
    lra. }
  assert (E : Counter.after target duration 1 =
              {| Counter.current := (0 + Counter.increment target duration)%Q;
                 Counter.textContent := Some target; Counter.timer := false |}).
  { unfold Counter.after, Counter.animateCounter. simpl. unfold Counter.tick. simpl.
    unfold JS.geb. apply Qle_bool_iff in G. now rewrite G. }
  rewrite E. simpl. split; [reflexivity|]. split; [reflexivity|].
  unfold Counter.after in *. replace (S n) with (1 + n) by lia.
  rewrite ticks_add. rewrite E. apply ticks_stopped. reflexivity.
Qed.

Lemma animateCounter_nonpositive_target_witness :
  Counter.timer (Counter.after 0 2000 1) = false /\
  Counter.textContent (Counter.after 0 2000 1) = Some 0%Z /\
  Counter.after 0 2000 (S 7) = Counter.after 0 2000 1.
Proof.
  apply (@animateCounter_nonpositive_target 0 2000 7); discriminate.
Defined.

Section CounterRunFacts.

Variable duration : Q.
Hypothesis duration_pos : (0 < duration)%Q.

Lemma tick_after (target : Z) (n : nat) :
  Counter.tick target duration (Counter.after target duration n)
  = Counter.after target duration (S n).
Proof.
  unfold Counter.after. replace (S n) with (n + 1) by lia.
  now rewrite ticks_add.
Qed.

Lemma tickAll_after (targets : list Z) (n : nat) :
  CounterRun.tickAll targets duration
    (map (fun t => Counter.after t duration n) targets)
  = map (fun t => Counter.after t duration (S n)) targets.
Proof.
  unfold CounterRun.tickAll.
  induction targets as [|t targets IH]; simpl; [reflexivity|].
  now rewrite tick_after, IH.
Qed.

Lemma rounds_after (targets : list Z) (n : nat) : forall k,
  CounterRun.rounds targets duration n
    (map (fun t => Counter.after t duration k) targets)
  = map (fun t => Counter.after t duration (k + n)) targets.
Proof.
  induction n as [|n IH]; intros k; simpl.
  - now rewrite Nat.add_0_r.
  - rewrite tickAll_after, IH. now replace (S k + n) with (k + S n) by lia.
Qed.

(** One counter settles on its target and stays there. *)
Lemma after_settles (target : Z) :
  (0 < target)%Z ->
  exists N, forall n, N <= n ->
    Counter.timer (Counter.after target duration n) = false /\
    Counter.textContent (Counter.after target duration n) = Some target.
Proof.
  intros T.
  destruct (ticks_reach T duration_pos
              (Z.to_nat (target * Zpos (Qden (Counter.increment target duration))))
              (Counter.animateCounter target duration) eq_refl
              (increments_cover T duration_pos)) as (N & _ & F1 & F2 & _).
  exists N. intros n Hn. unfold Counter.after.
  replace n with (N + (n - N)) by lia. rewrite ticks_add.
  rewrite ticks_stopped by exact F1. now split.
Qed.

Lemma all_settle (targets : list Z) :
  Forall (fun t => (0 < t)%Z) targets ->
  exists N, forall n, N <= n ->
    map Counter.textContent (map (fun t => Counter.after t duration n) targets)
      = map Some targets /\
    Forall (fun c => Counter.timer c = false)
           (map (fun t => Counter.after t duration n) targets).
Proof.
  induction 1 as [|t targets T _ IH].
  - exists 0. intros n _. split; [reflexivity | constructor].
  - destruct IH as (N1 & H1). destruct (after_settles T) as (N2 & H2).
    exists (Nat.max N1 N2). intros n Hn. simpl.
    destruct (H1 n) as [A1 B1]; [lia|]. destruct (H2 n) as [A2 B2]; [lia|].
    split; [now rewrite B2, A1 | now constructor].
Qed.

(** Once the block has run, the section holds one fresh counter per
    target. *)
Lemma fired_counters (present : bool) (targets : list Z)
    (events : list Counters.Viewport) : forall s,
  (Counters.animated s = true ->
   Counters.counters s = map (fun t => Counter.animateCounter t duration) targets) ->
  let s' := Counters.scrolls present targets duration events s in
  Counters.animated s' = true ->
  Counters.counters s' = map (fun t => Counter.animateCounter t duration) targets.
Proof.
  induction events as [|v events IH]; intros s H; simpl; [exact H|].
  apply IH. unfold Counters.check.
  destruct (negb present || Counters.animated s); [exact H|].
  destruct ((Counters.rectTop v <? Counters.innerHeight v)%Z &&
            (Counters.rectBottom v >=? 0)%Z); [|exact H].
  intros _. reflexivity.
Qed.

End CounterRunFacts.

(** X10: when the section exists and some check, at load or on a scroll,
    finds it in the viewport, one counter per [data-target] is started, and
    after finitely many rounds of interval firings every counter shows
    exactly its target and every interval is cleared, for good (positive
    targets, positive duration). *)
Theorem section_counters_reach_targets
    (targets : list Z) (duration : Q)
    (atLoad : Counters.Viewport) (events : list Counters.Viewport) :
  (0 < duration)%Q ->
  Forall (fun t => (0 < t)%Z) targets ->
  existsb Counters.visible (atLoad :: events) = true ->
  let s := Counters.scrolls true targets duration events
             (Counters.init true targets duration atLoad) in
  List.length (Counters.counters s) = List.length targets /\
  exists N, forall n, N <= n ->
    map Counter.textContent
        (CounterRun.rounds targets duration n (Counters.counters s))
      = map Some targets /\
    Forall (fun c => Counter.timer c = false)
           (CounterRun.rounds targets duration n (Counters.counters s)).
Proof.
  intros D T V s.
  assert (E : Counters.counters s
              = map (fun t => Counter.animateCounter t duration) targets).
  { set (s0 := {| Counters.animated := false; Counters.counters := [];
                  Counters.fired := 0 |}).
    assert (S : s = Counters.scrolls true targets duration (atLoad :: events) s0)
      by reflexivity.
    rewrite S.
    apply (@fired_counters duration true targets (atLoad :: events) s0);
      [discriminate|].
    destruct (@counters_check_fired true targets duration (atLoad :: events)
                s0 eq_refl) as [_ A].
    rewrite A, V. reflexivity. }
  rewrite E. split; [apply length_map|].
  destruct (all_settle D T) as (N & H). exists N. intros n Hn.
  change (map (fun t => Counter.animateCounter t duration) targets)
    with (map (fun t => Counter.after t duration 0) targets).
  rewrite (rounds_after duration targets n 0). simpl. now apply H.
Qed.

Lemma section_counters_reach_targets_witness :
  let v := {| Counters.rectTop := 100; Counters.rectBottom := 400;
              Counters.innerHeight := 800 |} in
  let s := Counters.scrolls true [500%Z; 9%Z] 2000 []
             (Counters.init true [500%Z; 9%Z] 2000 v) in
  List.length (Counters.counters s) = 2 /\
  exists N, forall n, N <= n ->
    map Counter.textContent
        (CounterRun.rounds [500%Z; 9%Z] 2000 n (Counters.counters s))
      = [Some 500%Z; Some 9%Z] /\
    Forall (fun c => Counter.timer c = false)
           (CounterRun.rounds [500%Z; 9%Z] 2000 n (Counters.counters s)).
Proof.
  cbv zeta.
  apply (@section_counters_reach_targets [500%Z; 9%Z] 2000
           {| Counters.rectTop := 100; Counters.rectBottom := 400;
              Counters.innerHeight := 800 |} []).
  - reflexivity.
  - repeat constructor.
  - reflexivity.
Defined.

(** *** The drifting particles of the second canvas loop *)

Section DriftFacts.

Import Drift.

Lemma scaled_in (r w : Q) : inUnit r -> (0 <= w)%Q ->
  (0 <= r * w)%Q /\ (r * w <= w)%Q.
Proof.
  intros [A B] W.
  assert (M1 : (0 <= r * w)%Q) by (apply Qmult_le_0_compat; lra).
  assert (M2 : (0 <= (1 - r) * w)%Q) by (apply Qmult_le_0_compat; lra).
  split; lra.
Qed.

Lemma alpha_bounds (p : Particle) :
  (0 < life p)%Q -> (life p <= maxLife p)%Q ->
  (0 < alpha p)%Q /\ (alpha p <= 6 # 10)%Q.
Proof.
  intros L M. unfold alpha.
  assert (P : (0 < maxLife p)%Q) by lra.
  assert (A : (0 < life p / maxLife p)%Q)
    by (apply Qlt_shift_div_l; [exact P | lra]).
  assert (B : (life p / maxLife p <= 1)%Q)
    by (apply Qle_shift_div_r; [exact P | lra]).
  generalize dependent (life p / maxLife p)%Q. intros t A B. split; lra.
Qed.

Lemma reset_inside (w h : Q) (r : Randoms) :
  (0 <= w)%Q -> (0 <= h)%Q -> randomsOk r ->
  driftInv (reset w h r) /\ drawnInside w h (reset w h r).
Proof.
  intros W H (Rx & Ry & _ & _ & Rl & Rs).
  destruct (scaled_in Rx W) as [X1 X2]. destruct (scaled_in Ry H) as [Y1 Y2].
  destruct Rl as [L1 L2]. destruct Rs as [S1 S2].
  assert (L : (0 < life (reset w h r))%Q) by (simpl; lra).
  assert (M : (life (reset w h r) <= maxLife (reset w h r))%Q) by (simpl; lra).
  destruct (alpha_bounds _ L M) as [A1 A2].
  split.
  - split; [exact M|]. simpl. split; lra.
  - unfold drawnInside. simpl x. simpl y. repeat split; assumption.
Qed.

Lemma ltb_false (a b : Q) : ltb a b = false -> (b <= a)%Q.
Proof.
  unfold ltb. intros E. apply negb_false_iff in E. now apply Qle_bool_iff.
Qed.

Lemma update_inside (w h : Q) (r : Randoms) (p : Particle) :
  (0 <= w)%Q -> (0 <= h)%Q -> randomsOk r -> driftInv p ->
  driftInv (update w h r p) /\ drawnInside w h (update w h r p).
Proof.
  intros W H R (M & S1 & S2). unfold update. cbv zeta.
  destruct (Qle_bool (life p - (1 # 2)) 0 || ltb (x p + vx p) 0
            || ltb w (x p + vx p) || ltb (y p + vy p) 0
            || ltb h (y p + vy p)) eqn:E.
  - now apply reset_inside.
  - repeat (apply orb_false_iff in E; destruct E as [E ?]).
    assert (L : ~ (life p - (1 # 2) <= 0)%Q).
    { intros C. apply Qle_bool_iff in C. congruence. }
    repeat match goal with
           | K : ltb _ _ = false |- _ => apply ltb_false in K
           end.
    set (q := {| x := (x p + vx p)%Q; y := (y p + vy p)%Q; vx := vx p;
                 vy := vy p; life := (life p - (1 # 2))%Q;
                 maxLife := maxLife p; size := size p |}).
    assert (L' : (0 < life q)%Q) by (simpl; lra).
    assert (M' : (life q <= maxLife q)%Q) by (simpl; lra).
    destruct (alpha_bounds _ L' M') as [A1 A2].
    split.
    + split; [exact M'|]. simpl. split; assumption.
    + unfold drawnInside. simpl x. simpl y. repeat split; assumption.
Qed.

Lemma updates_inv (frames : list (Q * Q * Randoms)) : forall p,
  Forall frameOk frames -> driftInv p -> driftInv (updates frames p).
Proof.
  induction frames as [|[[w h] r] frames IH]; intros p F I; simpl; [exact I|].
  inversion F as [|? ? (W & H & R) F']; subst. simpl in W, H.
  apply IH; [exact F'|]. now apply update_inside.
Qed.

Lemma updates_snoc (frames : list (Q * Q * Randoms)) (w h : Q) (r : Randoms) :
  forall p,
  updates (frames ++ [(w, h, r)]) p = update w h r (updates frames p).
Proof.
  induction frames as [|[[w' h'] r'] frames IH]; intros p; simpl;
    [reflexivity | apply IH].
Qed.

End DriftFacts.

(** X11: every time a particle of the second canvas is drawn it lies inside
    the canvas as it is in that frame, its life is positive and the alpha of
    its fill colour is in (0, 0.6], whatever frames and resizes came before
    (canvas sizes not negative, [Math.random()] in [0,1)). *)
Theorem drift_particle_drawn_inside_canvas
    (w0 h0 : Q) (r0 : Drift.Randoms) (frames : list (Q * Q * Drift.Randoms))
    (w h : Q) (r : Drift.Randoms) :
  (0 <= w0)%Q -> (0 <= h0)%Q -> Drift.randomsOk r0 ->
  Forall Drift.frameOk frames -> Drift.frameOk (w, h, r) ->
  Drift.drawnInside w h (Drift.updates (frames ++ [(w, h, r)]) (Drift.reset w0 h0 r0)).
Proof.
  intros W0 H0 R0 F (W & H & R). simpl in W, H, R.
  rewrite updates_snoc.
  apply update_inside; try assumption.
  apply updates_inv; [exact F|]. now apply reset_inside.
Qed.

Lemma sampleRandoms_ok : Drift.randomsOk Drift.sampleRandoms.
Proof.
  unfold Drift.randomsOk, Drift.inUnit, Drift.sampleRandoms; simpl.
  repeat split; lra.
Qed.

Lemma drift_particle_drawn_inside_canvas_witness :
  let r := Drift.sampleRandoms in
  Drift.drawnInside 300%Q 200%Q
    (Drift.updates ([(800%Q, 600%Q, r)] ++ [(300%Q, 200%Q, r)])
       (Drift.reset 800%Q 600%Q r)).
Proof.
  cbv zeta.
  apply (@drift_particle_drawn_inside_canvas 800%Q 600%Q Drift.sampleRandoms
           [(800%Q, 600%Q, Drift.sampleRandoms)] 300%Q 200%Q Drift.sampleRandoms).
  - discriminate.
  - discriminate.
  - exact sampleRandoms_ok.
  - constructor; [|constructor].
    split; [discriminate|]. split; [discriminate|]. exact sampleRandoms_ok.
  - split; [discriminate|]. split; [discriminate|]. exact sampleRandoms_ok.
Defined.

(** *** The radar animation in binary64 *)

Section RadarFacts.

Import PrimFloat.

Lemma radar_frames_idle (n : nat) (s : RadarProgress.State) :
  RadarProgress.pending s = false -> RadarProgress.frames n s = s.
Proof.
  induction n as [|n IH]; intros P; simpl; [reflexivity|].
  unfold RadarProgress.frame. rewrite P. now apply IH.
Qed.

Lemma radar_frames_add (n m : nat) : forall s,
  RadarProgress.frames (n + m) s
  = RadarProgress.frames m (RadarProgress.frames n s).
Proof.
  induction n as [|n IH]; intros s; simpl; [reflexivity | apply IH].
Qed.

(** X12: one radar animation draws exactly 50 times: a frame is requested
    after each of the first 49 draws and none after the 50th, whatever
    frames follow. In binary64 the fifty additions of 0.02 pass 1 before
    reaching it, so every progress handed to [drawSkillData] is strictly
    below 1 (indeed below 63/64): the chart is never drawn at its full
    size. *)
Theorem radar_animation_stops_below_one (n : nat) :
  let s := RadarProgress.frames (49 + n) RadarProgress.start in
  List.length (RadarProgress.draws s) = 50 /\
  RadarProgress.pending s = false /\
  forallb (fun p => PrimFloat.ltb p 0x1.f8p-1%float) (RadarProgress.draws s)
    = true /\
  forallb (fun k => RadarProgress.pending
                      (RadarProgress.frames k RadarProgress.start))
          (seq 0 49) = true.
Proof.
  cbv zeta. rewrite radar_frames_add.
  rewrite (@radar_frames_idle n) by (vm_compute; reflexivity).
  vm_compute. repeat split.
Qed.

End RadarFacts.

(** *** The "Show More" toggle *)

Section ShowMoreFacts.

Import ShowMore.

Lemma setFrom_spec (d : string) (ds : list string) : forall index,
  setFrom index d ds
  = firstn (3 - index) ds ++ repeat d (List.length ds - (3 - index)).
Proof.
  induction ds as [|x rest IH]; intros index; cbn [setFrom List.length].
  - now rewrite firstn_nil.
  - rewrite IH. destruct (3 <=? index) eqn:E.
    + apply Nat.leb_le in E.
      replace (3 - index) with 0 by lia. replace (3 - S index) with 0 by lia.
      cbn [firstn app]. rewrite !Nat.sub_0_r. reflexivity.
    + apply Nat.leb_gt in E.
      replace (3 - index) with (S (3 - S index)) by lia.
      cbn [firstn app]. rewrite Nat.sub_succ. reflexivity.
Qed.

Lemma setFrom_again (d d' : string) (ds : list string) :
  3 < List.length ds ->
  setFrom 0 d (firstn 3 ds ++ repeat d' (List.length ds - 3))
  = firstn 3 ds ++ repeat d (List.length ds - 3).
Proof.
  intros L. rewrite setFrom_spec. simpl (3 - 0).
  assert (F : List.length (firstn 3 ds) = 3) by (rewrite length_firstn; lia).
  rewrite firstn_app, F, Nat.sub_diag, firstn_O, app_nil_r.
  rewrite firstn_all2 by lia.
  rewrite length_app, F, repeat_length.
  now replace (3 + (List.length ds - 3) - 3) with (List.length ds - 3) by lia.
Qed.

Lemma clicks_snoc (n : nat) : forall s, clicks (S n) s = click (clicks n s).
Proof.
  induction n as [|n IH]; intros s; [reflexivity|].
  change (clicks (S (S n)) s) with (clicks (S n) (click s)).
  rewrite IH. reflexivity.
Qed.

End ShowMoreFacts.

(** X13: a list of at most three items gets no button and is left as it
    is. On a longer list the first three items are never touched, and after
    [n] clicks every later item has display [none] when [n] is even and
    [list-item] when [n] is odd, with the button labelled and classed to
    match. *)
Theorem show_more_toggles_tail (displays : list string) (n : nat) :
  let s := ShowMore.clicks n (ShowMore.init displays) in
  if List.length displays <=? 3 then
    s = {| ShowMore.items := displays; ShowMore.hasButton := false;
           ShowMore.expanded := false; ShowMore.label := "" |}
  else
    ShowMore.items s
      = firstn 3 displays
        ++ repeat (if Nat.even n then "none" else "list-item")%string
                  (List.length displays - 3) /\
    ShowMore.hasButton s = true /\
    ShowMore.expanded s = negb (Nat.even n) /\
    ShowMore.label s = (if Nat.even n then "Show More" else "Show Less")%string.
Proof.
  cbv zeta. destruct (List.length displays <=? 3) eqn:L.
  - induction n as [|n IH].
    + simpl. unfold ShowMore.init. now rewrite L.
    + rewrite clicks_snoc, IH. reflexivity.
  - apply Nat.leb_gt in L.
    induction n as [|n IH].
    + simpl. unfold ShowMore.init.
      replace (List.length displays <=? 3) with false
        by (symmetry; apply Nat.leb_gt; exact L).
      simpl. rewrite setFrom_spec. simpl (3 - 0). now repeat split.
    + rewrite clicks_snoc. destruct IH as (I & B & E & _).
      unfold ShowMore.click. rewrite B, E, I.
      rewrite Nat.even_succ, <- Nat.negb_even.
      destruct (Nat.even n); simpl negb; cbv iota;
        cbn [ShowMore.items ShowMore.hasButton ShowMore.expanded ShowMore.label];
        rewrite setFrom_again by exact L; now repeat split.
Qed.

(** *** [typeWriter] *)

Section TypeWriterFacts.

Import TypeWriter.

Lemma substring_snoc (text : string) : forall k,
  k < String.length text ->
  String.append (String.substring 0 k text) (charAt text k)
  = String.substring 0 (S k) text.
Proof.
  unfold charAt.
  induction text as [|c text IH]; intros k L; simpl in L; [lia|].
  destruct k as [|k]; simpl.
  - destruct text; reflexivity.
  - rewrite <- IH by lia. reflexivity.
Qed.

Lemma substring_all (text : string) :
  String.substring 0 (String.length text) text = text.
Proof.
  induction text as [|c text IH]; simpl; [reflexivity | now rewrite IH].
Qed.

Lemma fires_snoc (text : string) (n : nat) : forall s,
  fires text (S n) s = fire text (fires text n s).
Proof.
  induction n as [|n IH]; intros s; [reflexivity|].
  change (fires text (S (S n)) s) with (fires text (S n) (fire text s)).
  rewrite IH. reflexivity.
Qed.

Lemma typeWriter_state (text : string) (k : nat) :
  fires text k (typeWriter text)
  = {| i := Nat.min (S k) (String.length text);
       textContent :=
         String.substring 0 (Nat.min (S k) (String.length text)) text;
       pending := k <? String.length text |}.
Proof.
  induction k as [|k IH].
  - simpl fires. unfold typeWriter, type. simpl i. simpl textContent.
    destruct (0 <? String.length text) eqn:E.
    + apply Nat.ltb_lt in E.
      replace (Nat.min 1 (String.length text)) with 1 by lia.
      f_equal. rewrite <- substring_snoc by exact E.
      destruct text; reflexivity.
    + apply Nat.ltb_ge in E.
      replace (Nat.min 1 (String.length text)) with 0 by lia.
      destruct text; reflexivity.
  - rewrite fires_snoc, IH. clear IH. unfold fire. cbn [pending].
    destruct (k <? String.length text) eqn:E.
    + apply Nat.ltb_lt in E.
      replace (Nat.min (S k) (String.length text)) with (S k) by lia.
      unfold type. cbn [i textContent].
      destruct (S k <? String.length text) eqn:E'.
      * apply Nat.ltb_lt in E'.
        replace (Nat.min (S (S k)) (String.length text)) with (S (S k)) by lia.
        f_equal. now apply substring_snoc.
      * apply Nat.ltb_ge in E'.
        replace (Nat.min (S (S k)) (String.length text)) with (S k) by lia.
        reflexivity.
    + apply Nat.ltb_ge in E.
      replace (S k <? String.length text) with false
        by (symmetry; apply Nat.ltb_ge; lia).
      replace (Nat.min (S (S k)) (String.length text))
        with (Nat.min (S k) (String.length text)) by lia.
      reflexivity.
Qed.

End TypeWriterFacts.

(** X14: [typeWriter] writes the text one character per timer: after [k]
    timers have run, the element holds the first [min (k+1) (length text)]
    characters, and a timer is pending exactly while [k < length text]. So
    after [length text] timers the element holds the whole text and nothing
    is pending; the last timer finds nothing left to write. *)
Theorem typeWriter_writes_prefixes (text : string) (k : nat) :
  let s := TypeWriter.fires text k (TypeWriter.typeWriter text) in
  TypeWriter.textContent s
    = String.substring 0 (Nat.min (S k) (String.length text)) text /\
  TypeWriter.pending s = (k <? String.length text) /\
  (String.length text <= k ->
   TypeWriter.textContent s = text /\ TypeWriter.pending s = false).
Proof.
  cbv zeta. rewrite typeWriter_state.
  cbn [TypeWriter.textContent TypeWriter.pending].
  split; [reflexivity|]. split; [reflexivity|].
  intros L. replace (Nat.min (S k) (String.length text))
    with (String.length text) by lia.
  split; [apply substring_all | apply Nat.ltb_ge; exact L].
Qed.

(** *** The project filters *)

Section ProjectFilterFacts.

Import ProjectFilters.

Lemma shows_throws (filter : string) (c : Card) :
  JS.threw (shows filter c) = negb (String.eqb filter "all") && noCategory c.
Proof.
  unfold shows, noCategory.
  destruct (String.eqb filter "all"); [reflexivity|].
  destruct (category c); reflexivity.
Qed.

Lemma filterCards_throws (now : Z) (filter : string) (cs : list Card) :
  forall i,
  JS.threw (filterCards now filter i cs)
  = negb (String.eqb filter "all") && existsb noCategory cs.
Proof.
  induction cs as [|c cs IH]; intros i; cbn [filterCards existsb].
  - now rewrite andb_false_r.
  - pose proof (shows_throws filter c) as T. specialize (IH (S i)).
    destruct (shows filter c) as [[|]|b]; cbn [JS.threw] in T.
    + destruct (filterCards now filter (S i) cs) as [[? ?]|[? ?]];
        cbn [JS.threw] in *;
        destruct (negb (String.eqb filter "all")), (noCategory c),
                 (existsb noCategory cs);
        simpl in *; congruence.
    + destruct (filterCards now filter (S i) cs) as [[? ?]|[? ?]];
        cbn [JS.threw] in *;
        destruct (negb (String.eqb filter "all")), (noCategory c),
                 (existsb noCategory cs);
        simpl in *; congruence.
    + cbn [JS.threw].
      destruct (negb (String.eqb filter "all")), (noCategory c),
               (existsb noCategory cs);
        simpl in *; congruence.
Qed.

(** The loop when it does not throw, in closed form. *)
Lemma filterCards_normal (now : Z) (filter : string) (cs : list Card) :
  forall i cs' ts,
  filterCards now filter i cs = JS.Normal (cs', ts) ->
  cs' = map (marked filter) cs /\
  ts = map (timerOf now filter) (combine (seq i (List.length cs)) cs).
Proof.
  induction cs as [|c cs IH]; intros i cs' ts; cbn [filterCards].
  - intros E. injection E as <- <-. now split.
  - unfold marked at 1, timerOf at 1.
    cbn [List.length seq combine map fst snd].
    destruct (shows filter c) as [[|]|b]; [| |discriminate];
      destruct (filterCards now filter (S i) cs) as [[cs1 ts1]|[cs1 ts1]] eqn:F;
      try discriminate;
      intros E; injection E as <- <-;
      destruct (IH _ _ _ F) as [-> ->];
      unfold marked at 1, timerOf at 1; cbn [fst snd]; now split.
Qed.

Lemma wanted_category (filter : string) (c c' : Card) :
  category c = category c' -> wanted filter c = wanted filter c'.
Proof.
  unfold wanted, shows. now intros ->.
Qed.

Lemma marked_category (filter : string) (c : Card) :
  category (marked filter c) = category c.
Proof.
  unfold marked. destruct (shows filter c) as [[|]|]; reflexivity.
Qed.

Lemma marked_display (filter : string) (c : Card) :
  display (marked filter c) = display c.
Proof.
  unfold marked. destruct (shows filter c) as [[|]|]; reflexivity.
Qed.

Lemma applyTimer_category (t : Timer) (c : Card) :
  category (applyTimer t c) = category c.
Proof. destruct t; reflexivity. Qed.

Lemma applyTimer_display (t : Timer) (c : Card) :
  display (applyTimer t c) = displayOf t.
Proof. destruct t; reflexivity. Qed.

Lemma applyTimer_opacity (t : Timer) (c : Card) :
  opacity (applyTimer t c) = opacity c.
Proof. destruct t; reflexivity. Qed.

Lemma timerOf_index (now : Z) (filter : string) (ic : nat * Card) :
  index (snd (timerOf now filter ic)) = fst ic.
Proof.
  unfold timerOf. destruct (shows filter (snd ic)) as [[|]|]; reflexivity.
Qed.

Lemma timerOf_display (now : Z) (filter : string) (ic : nat * Card) :
  JS.threw (shows filter (snd ic)) = false ->
  displayOf (snd (timerOf now filter ic)) = wanted filter (snd ic).
Proof.
  unfold timerOf, wanted.
  destruct (shows filter (snd ic)) as [[|]|]; [reflexivity..|discriminate].
Qed.

Lemma nth_error_updateAt (f : Card -> Card) (cs : list Card) : forall i j,
  nth_error (updateAt i f cs) j
  = if Nat.eqb j i then option_map f (nth_error cs j) else nth_error cs j.
Proof.
  induction cs as [|c cs IH]; intros i j.
  - destruct i, j; simpl; try reflexivity; now destruct (Nat.eqb j i).
  - destruct i as [|i], j as [|j]; cbn [updateAt nth_error Nat.eqb option_map];
      try reflexivity.
    apply IH.
Qed.

Lemma updateAt_category (t : Timer) (cs : list Card) : forall i,
  map category (updateAt i (applyTimer t) cs) = map category cs.
Proof.
  induction cs as [|c cs IH]; intros [|i]; cbn [updateAt map]; try reflexivity.
  - now rewrite applyTimer_category.
  - now rewrite IH.
Qed.

Lemma removeAt_in (T : Type) (x : T) (l : list T) : forall k,
  In x (removeAt k l) -> In x l.
Proof.
  induction l as [|y l IH]; intros [|k]; cbn [removeAt]; try tauto.
  - intros H. now right.
  - intros [H|H]; [now left | right; eauto].
Qed.

Lemma in_removeAt (T : Type) (x y : T) (l : list T) : forall k,
  In x l -> nth_error l k = Some y -> x = y \/ In x (removeAt k l).
Proof.
  induction l as [|z l IH]; intros [|k]; cbn [removeAt nth_error];
    try contradiction.
  - intros [H|H] E; injection E as <-; [now left | now right].
  - intros [H|H] E; [right; now left|].
    destruct (IH k H E) as [->|I]; [now left | right; now right].
Qed.

Lemma in_combine_seq (cs : list Card) : forall i j c,
  In (j, c) (combine (seq i (List.length cs)) cs) ->
  i <= j /\ nth_error cs (j - i) = Some c.
Proof.
  induction cs as [|c0 cs IH]; intros i j c; cbn [List.length seq combine].
  - contradiction.
  - intros [E|H].
    + injection E as <- <-. split; [lia|]. now rewrite Nat.sub_diag.
    + destruct (IH _ _ _ H) as [L N]. split; [lia|].
      replace (j - i) with (S (j - S i)) by lia. exact N.
Qed.

Lemma combine_seq_nth (cs : list Card) : forall i j c,
  nth_error cs j = Some c ->
  In (i + j, c) (combine (seq i (List.length cs)) cs).
Proof.
  induction cs as [|c0 cs IH]; intros i [|j] c; cbn [nth_error List.length seq combine];
    try discriminate.
  - intros E. injection E as <-. left. now rewrite Nat.add_0_r.
  - intros E. right. replace (i + S j) with (S i + j) by lia. now apply IH.
Qed.

Lemma click_settling (now : Z) (filter : string) (s s' : State) :
  timers s = [] ->
  click now filter s = JS.Normal s' ->
  settling filter s' /\ map category (cards s') = map category (cards s).
Proof.
  intros Q. unfold click.
  pose proof (filterCards_throws now filter (cards s) 0) as T.
  destruct (filterCards now filter 0 (cards s)) as [[cs ts]|[cs ts]] eqn:F;
    [|discriminate].
  intros E. injection E as <-. cbn [JS.threw] in T.
  destruct (filterCards_normal _ _ _ _ F) as [-> ->].
  rewrite Q. cbn [app cards timers].
  assert (NT : forall c, In c (cards s) -> JS.threw (shows filter c) = false).
  { intros c I. rewrite shows_throws.
    destruct (negb (String.eqb filter "all")); [|reflexivity].
    simpl in T |- *. destruct (noCategory c) eqn:N; [|reflexivity].
    symmetry. rewrite T. apply existsb_exists. now exists c. }
  split; [split|].
  - intros due t c I N. cbn [cards timers] in I, N.
    apply in_map_iff in I. destruct I as ([j c0] & E & I).
    apply in_combine_seq in I. destruct I as [_ I].
    rewrite Nat.sub_0_r in I.
    assert (Et : t = snd (timerOf now filter (j, c0))) by now rewrite E.
    subst t. rewrite timerOf_index in N. cbn [fst] in N.
    rewrite nth_error_map, I in N. injection N as <-.
    rewrite timerOf_display by (apply NT; eapply nth_error_In; exact I).
    cbn [snd]. apply wanted_category. now rewrite marked_category.
  - intros i c N. cbn [cards timers] in N |- *. right.
    rewrite nth_error_map in N.
    destruct (nth_error (cards s) i) as [c0|] eqn:N0; [|discriminate].
    exists (fst (timerOf now filter (i, c0))), (snd (timerOf now filter (i, c0))).
    split; [|now rewrite timerOf_index].
    rewrite <- surjective_pairing. apply in_map.
    apply (combine_seq_nth (cards s) 0 i N0).
  - cbn [cards]. rewrite map_map. apply map_ext. apply marked_category.
Qed.

Lemma fire_settling (filter : string) (k : nat) (s : State) :
  settling filter s ->
  settling filter (fire k s) /\
  map category (cards (fire k s)) = map category (cards s).
Proof.
  intros [I1 I2]. unfold fire.
  destruct (nth_error (timers s) k) as [[due t]|] eqn:K; [|now repeat split].
  cbn [cards timers]. pose proof (nth_error_In _ _ K) as KI.
  split; [split|].
  - intros due' t' c' I N. cbn [cards timers] in I, N.
    apply removeAt_in in I.
    rewrite nth_error_updateAt in N.
    destruct (Nat.eqb (index t') (index t)).
    + destruct (nth_error (cards s) (index t')) as [c|] eqn:N0; [|discriminate].
      injection N as <-. rewrite (I1 _ _ _ I N0).
      apply wanted_category. now rewrite applyTimer_category.
    + now apply (I1 _ _ _ I).
  - intros i c' N. cbn [cards timers] in N |- *.
    rewrite nth_error_updateAt in N.
    destruct (Nat.eqb i (index t)) eqn:E.
    + apply Nat.eqb_eq in E. subst i.
      destruct (nth_error (cards s) (index t)) as [c|] eqn:N0; [|discriminate].
      injection N as <-. left. rewrite applyTimer_display.
      rewrite (I1 _ _ _ KI N0).
      apply wanted_category. now rewrite applyTimer_category.
    + destruct (I2 _ _ N) as [D|(due' & t' & I & Ei)]; [now left|].
      right. exists due', t'. split; [|exact Ei].
      destruct (in_removeAt _ _ _ I K) as [Eq|R]; [|exact R].
      injection Eq as -> ->. apply Nat.eqb_neq in E. congruence.
  - cbn [cards]. apply updateAt_category.
Qed.

Lemma fires_settling (filter : string) (ks : list nat) : forall s,
  settling filter s ->
  settling filter (fires ks s) /\
  map category (cards (fires ks s)) = map category (cards s).
Proof.
  unfold fires.
  induction ks as [|k ks IH]; intros s I; cbn [fold_left]; [now split|].
  destruct (fire_settling k I) as [I' C'].
  destruct (IH _ I') as [I'' C'']. split; [exact I''|]. now rewrite C'', C'.
Qed.

Lemma map_wanted (filter : string) (l : list Card) : forall l',
  map category l = map category l' ->
  map (wanted filter) l = map (wanted filter) l'.
Proof.
  induction l as [|c l IH]; intros [|c' l'] E; try discriminate; [reflexivity|].
  cbn [map] in *. injection E as E1 E2.
  now rewrite (wanted_category filter c c' E1), (IH _ E2).
Qed.

(** A step never restores an inline opacity of 0. *)
Lemma filterCards_opacity (now : Z) (filter : string) (cs : list Card) :
  forall i j c,
  nth_error cs j = Some c ->
  exists c', nth_error (fst (JS.stateOf (filterCards now filter i cs))) j = Some c'
             /\ (c' = c \/ c' = fade c).
Proof.
  induction cs as [|c0 cs IH]; intros i j c N; [now destruct j|].
  cbn [filterCards].
  destruct (shows filter c0) as [[|]|b].
  - destruct (filterCards now filter (S i) cs) as [[cs1 ts1]|[cs1 ts1]] eqn:F;
      cbn [JS.stateOf fst]; (destruct j as [|j]; cbn [nth_error] in *;
        [injection N as <-; eexists; split; [reflexivity | now left]|]);
      destruct (IH (S i) j c N) as (c' & N' & O); rewrite F in N';
      now exists c'.
  - destruct (filterCards now filter (S i) cs) as [[cs1 ts1]|[cs1 ts1]] eqn:F;
      cbn [JS.stateOf fst]; (destruct j as [|j]; cbn [nth_error] in *;
        [injection N as <-; eexists; split; [reflexivity | now right]|]);
      destruct (IH (S i) j c N) as (c' & N' & O); rewrite F in N';
      now exists c'.
  - cbn [JS.stateOf fst]. exists c. split; [exact N | now left].
Qed.

Lemma step_opacity (e : Event) (s : State) (i : nat) (c : Card) :
  nth_error (cards s) i = Some c -> opacity c = "0"%string ->
  exists c', nth_error (cards (step s e)) i = Some c' /\ opacity c' = "0"%string.
Proof.
  intros N O. destruct e as [now filter|k]; cbn [step].
  - destruct (filterCards_opacity now filter (cards s) 0 i N) as (c' & N' & E).
    unfold click.
    destruct (filterCards now filter 0 (cards s)) as [[cs ts]|[cs ts]];
      cbn [JS.stateOf fst cards] in *; exists c'; (split; [exact N'|]);
      destruct E as [->| ->]; try exact O; reflexivity.
  - unfold fire. destruct (nth_error (timers s) k) as [[due t]|];
      [|now exists c].
    cbn [cards]. rewrite nth_error_updateAt, N.
    destruct (Nat.eqb i (index t)); [|now exists c].
    eexists; split; [reflexivity|]. now rewrite applyTimer_opacity.
Qed.

Lemma run_opacity (events : list Event) : forall s i c,
  nth_error (cards s) i = Some c -> opacity c = "0"%string ->
  exists c', nth_error (cards (run events s)) i = Some c'
             /\ opacity c' = "0"%string.
Proof.
  unfold run.
  induction events as [|e events IH]; intros s i c N O; cbn [fold_left];
    [now exists c|].
  destruct (step_opacity e s i N O) as (c' & N' & O'). now apply (IH _ i c').
Qed.

End ProjectFilterFacts.

(** X15: the click handler of a filter button throws exactly when the
    filter is not [all] and some card has no [data-category] attribute
    (reading [includes] off [null]); the button is marked active either
    way, before the loop runs. *)
Theorem filter_click_throws_iff (now : Z) (filter : string)
    (s : ProjectFilters.State) :
  JS.threw (ProjectFilters.click now filter s)
    = negb (String.eqb filter "all")
      && existsb ProjectFilters.noCategory (ProjectFilters.cards s) /\
  ProjectFilters.active (JS.stateOf (ProjectFilters.click now filter s))
    = Some filter.
Proof.
  unfold ProjectFilters.click.
  pose proof (filterCards_throws now filter (ProjectFilters.cards s) 0) as T.
  destruct (ProjectFilters.filterCards now filter 0 (ProjectFilters.cards s))
    as [[cs ts]|[cs ts]]; cbn [JS.threw JS.stateOf] in *; now split.
Qed.

(** X16: with no timer pending, a click that does not throw settles the
    page: once its timers have run, in whatever order, every card has
    display [flex] if the filter is [all] or occurs in its categories, and
    [none] otherwise; no card changes its categories. *)
Theorem filter_click_settles (now : Z) (filter : string)
    (s s' : ProjectFilters.State) (ks : list nat) :
  ProjectFilters.timers s = [] ->
  ProjectFilters.click now filter s = JS.Normal s' ->
  ProjectFilters.timers (ProjectFilters.fires ks s') = [] ->
  map ProjectFilters.display (ProjectFilters.cards (ProjectFilters.fires ks s'))
    = map (ProjectFilters.wanted filter) (ProjectFilters.cards s) /\
  map ProjectFilters.category (ProjectFilters.cards (ProjectFilters.fires ks s'))
    = map ProjectFilters.category (ProjectFilters.cards s).
Proof.
  intros Q C D.
  destruct (click_settling now filter s Q C) as [I0 C0].
  destruct (fires_settling ks I0) as [[_ I2] C1].
  assert (CC : map ProjectFilters.category
                 (ProjectFilters.cards (ProjectFilters.fires ks s'))
               = map ProjectFilters.category (ProjectFilters.cards s))
    by now rewrite C1, C0.
  split; [|exact CC].
  rewrite <- (map_wanted filter _ _ CC).
  apply map_ext_in. intros c I.
  apply In_nth_error in I. destruct I as [i N].
  destruct (I2 _ _ N) as [E|(due & t & I & _)]; [exact E|].
  rewrite D in I. contradiction.
Qed.

Lemma filter_click_settles_witness :
  let c1 := {| ProjectFilters.category := Some "etl streaming"%string;
               ProjectFilters.display := ""%string;
               ProjectFilters.opacity := ""%string;
               ProjectFilters.animation := ""%string |} in
  let c2 := {| ProjectFilters.category := Some "ml"%string;
               ProjectFilters.display := ""%string;
               ProjectFilters.opacity := ""%string;
               ProjectFilters.animation := ""%string |} in
  let s := {| ProjectFilters.cards := [c1; c2];
              ProjectFilters.active := None;
              ProjectFilters.timers := [] |} in
  let s' := JS.stateOf (ProjectFilters.click 0 "ml" s) in
  map ProjectFilters.display
      (ProjectFilters.cards (ProjectFilters.fires [1; 0] s'))
    = map (ProjectFilters.wanted "ml") (ProjectFilters.cards s) /\
  map ProjectFilters.category
      (ProjectFilters.cards (ProjectFilters.fires [1; 0] s'))
    = map ProjectFilters.category (ProjectFilters.cards s).
Proof.
  cbv zeta.
  apply (@filter_click_settles 0 "ml"); reflexivity.
Defined.

(** X17: no handler ever restores the inline opacity. A card that a click
    filters out gets opacity 0 at once and keeps it through every later
    click, of [all] or of a filter that selects it, and through every
    timer, in whatever order they run. *)
Theorem filtered_card_keeps_opacity_zero (now : Z) (filter : string)
    (s : ProjectFilters.State) (events : list ProjectFilters.Event)
    (i : nat) (c : ProjectFilters.Card) :
  nth_error (ProjectFilters.cards s) i = Some c ->
  ProjectFilters.shows filter c = JS.Normal false ->
  JS.threw (ProjectFilters.click now filter s) = false ->
  exists c',
    nth_error (ProjectFilters.cards
                 (ProjectFilters.run (ProjectFilters.Click now filter :: events) s))
              i = Some c' /\
    ProjectFilters.opacity c' = "0"%string.
Proof.
  intros N S T.
  unfold ProjectFilters.run. cbn [fold_left ProjectFilters.step].
  apply (@run_opacity events _ i (ProjectFilters.fade c)); [|reflexivity].
  unfold ProjectFilters.click in *.
  destruct (ProjectFilters.filterCards now filter 0 (ProjectFilters.cards s))
    as [[cs ts]|[cs ts]] eqn:F; [|discriminate].
  destruct (filterCards_normal _ _ _ _ F) as [-> _].
  cbn [JS.stateOf ProjectFilters.cards].
  rewrite nth_error_map, N. cbn [option_map].
  unfold ProjectFilters.marked. now rewrite S.
Qed.

Lemma filtered_card_keeps_opacity_zero_witness :
  let c1 := {| ProjectFilters.category := Some "etl streaming"%string;
               ProjectFilters.display := ""%string;
               ProjectFilters.opacity := ""%string;
               ProjectFilters.animation := ""%string |} in
  let s := {| ProjectFilters.cards := [c1];
              ProjectFilters.active := None;
              ProjectFilters.timers := [] |} in
  exists c',
    nth_error (ProjectFilters.cards
                 (ProjectFilters.run
                    [ProjectFilters.Click 0 "ml"; ProjectFilters.Fire 0;
                     ProjectFilters.Click 1000 "all"; ProjectFilters.Fire 0] s))
              0 = Some c' /\
    ProjectFilters.opacity c' = "0"%string.
Proof.
  cbv zeta.
  apply (@filtered_card_keeps_opacity_zero 0 "ml" _
           [ProjectFilters.Fire 0; ProjectFilters.Click 1000 "all";
            ProjectFilters.Fire 0] 0
           {| ProjectFilters.category := Some "etl streaming"%string;
              ProjectFilters.display := ""%string;
              ProjectFilters.opacity := ""%string;
              ProjectFilters.animation := ""%string |}); reflexivity.
Defined.

Section FilterRace.

Import ProjectFilters.

Lemma runTimers_card (i : nat) (l : list (Z * Timer)) : forall cs c,
  nth_error cs i = Some c ->
  exists c', nth_error (runTimers l cs) i = Some c' /\
             category c' = category c /\
             opacity c' = opacity c /\
             display c' = lastDisplay i l (display c).
Proof.
  unfold runTimers, lastDisplay.
  induction l as [|[due t] l IH]; intros cs c N; cbn [fold_left snd].
  - exists c. now repeat split.
  - pose proof (nth_error_updateAt (applyTimer t) cs (index t) i) as U.
    rewrite N in U. rewrite (Nat.eqb_sym (index t) i).
    destruct (Nat.eqb i (index t)); cbn [option_map] in U.
    + destruct (IH _ _ U) as (c' & N' & C & O & D). exists c'.
      rewrite applyTimer_category in C. rewrite applyTimer_opacity in O.
      rewrite applyTimer_display in D. now repeat split.
    + destruct (IH _ _ U) as (c' & N' & C & O & D). exists c'.
      now repeat split.
Qed.

Lemma lastDisplay_filter (i : nat) (l : list (Z * Timer)) : forall d,
  lastDisplay i l d = lastDisplay i (filter (forCard i) l) d.
Proof.
  unfold lastDisplay, forCard.
  induction l as [|x l IH]; intros d; cbn [fold_left filter]; [reflexivity|].
  destruct (Nat.eqb (index (snd x)) i) eqn:E; cbn [fold_left].
  - rewrite E. apply IH.
  - apply IH.
Qed.

Lemma insertDue_front (x : Z * Timer) (l : list (Z * Timer)) :
  Forall (notBefore x) l -> insertDue x l = x :: l.
Proof.
  destruct l as [|y l]; [reflexivity|]. intros F. cbn [insertDue].
  inversion F as [|? ? H _]; subst. unfold notBefore in H.
  apply Z.leb_le in H. now rewrite H.
Qed.

Lemma insertDue_forall (P : Z * Timer -> Prop) (x : Z * Timer)
    (l : list (Z * Timer)) :
  P x -> Forall P l -> Forall P (insertDue x l).
Proof.
  intros Px. induction 1 as [|y l Py F IH]; cbn [insertDue].
  - now constructor.
  - destruct (fst x <=? fst y)%Z; repeat constructor; assumption.
Qed.

Lemma insertDue_sorted (x : Z * Timer) (l : list (Z * Timer)) :
  StronglySorted notBefore l -> StronglySorted notBefore (insertDue x l).
Proof.
  induction 1 as [|y l S IH F]; cbn [insertDue].
  - repeat constructor.
  - destruct (fst x <=? fst y)%Z eqn:E.
    + constructor; [now constructor|].
      apply Z.leb_le in E. constructor; [exact E|].
      eapply Forall_impl; [|exact F]. unfold notBefore. intros; lia.
    + apply Z.leb_gt in E. constructor; [exact IH|].
      apply insertDue_forall; [unfold notBefore; lia | exact F].
Qed.

Lemma sortDue_sorted (l : list (Z * Timer)) :
  StronglySorted notBefore (sortDue l).
Proof.
  induction l as [|x l IH]; cbn [sortDue]; [constructor|].
  now apply insertDue_sorted.
Qed.

Lemma forall_filter (P : Z * Timer -> Prop) (f : Z * Timer -> bool)
    (l : list (Z * Timer)) :
  Forall P l -> Forall P (filter f l).
Proof.
  induction 1 as [|y l Py F IH]; cbn [filter]; [constructor|].
  destruct (f y); [now constructor | exact IH].
Qed.

Lemma filter_insertDue (f : Z * Timer -> bool) (x : Z * Timer)
    (l : list (Z * Timer)) :
  StronglySorted notBefore l ->
  filter f (insertDue x l)
  = if f x then insertDue x (filter f l) else filter f l.
Proof.
  induction 1 as [|y l S IH F]; cbn [insertDue filter].
  - now destruct (f x).
  - destruct (fst x <=? fst y)%Z eqn:E.
    + cbn [filter]. destruct (f x) eqn:Fx; [|reflexivity].
      apply Z.leb_le in E.
      assert (A : Forall (notBefore x) (y :: l)).
      { constructor; [exact E|]. eapply Forall_impl; [|exact F].
        unfold notBefore. intros; lia. }
      symmetry. apply (insertDue_front (forall_filter f A)).
    + cbn [filter]. rewrite IH.
      destruct (f y), (f x); cbn [insertDue]; rewrite ?E; reflexivity.
Qed.

Lemma filter_sortDue (f : Z * Timer -> bool) (l : list (Z * Timer)) :
  filter f (sortDue l) = sortDue (filter f l).
Proof.
  induction l as [|x l IH]; cbn [sortDue filter]; [reflexivity|].
  rewrite filter_insertDue by apply sortDue_sorted.
  rewrite IH. now destruct (f x).
Qed.

Lemma filter_comm (f g : Z * Timer -> bool) (l : list (Z * Timer)) :
  filter f (filter g l) = filter g (filter f l).
Proof.
  induction l as [|x l IH]; cbn [filter]; [reflexivity|].
  destruct (f x) eqn:Fx, (g x) eqn:Gx; cbn [filter]; rewrite ?Fx, ?Gx, IH;
    reflexivity.
Qed.

(** The loop sets exactly one timer for each card. *)
Lemma timers_forCard (now : Z) (flt : string) (i : nat) (cs : list Card) :
  forall k,
  filter (forCard i) (map (timerOf now flt) (combine (seq k (List.length cs)) cs))
  = if k <=? i then
      match nth_error cs (i - k) with
      | Some c => [timerOf now flt (i, c)]
      | None => []
      end
    else [].
Proof.
  unfold forCard.
  induction cs as [|c cs IH]; intros k;
    cbn [List.length seq combine map filter].
  - destruct (k <=? i); [|reflexivity]. now destruct (i - k).
  - rewrite timerOf_index. cbn [fst]. rewrite IH.
    destruct (Nat.eqb k i) eqn:E.
    + apply Nat.eqb_eq in E. subst k.
      rewrite Nat.leb_refl, Nat.sub_diag. cbn [nth_error].
      now replace (S i <=? i) with false by (symmetry; apply Nat.leb_gt; lia).
    + apply Nat.eqb_neq in E. destruct (k <=? i) eqn:L.
      * apply Nat.leb_le in L.
        replace (S k <=? i) with true by (symmetry; apply Nat.leb_le; lia).
        replace (i - k) with (S (i - S k)) by lia. reflexivity.
      * apply Nat.leb_gt in L.
        now replace (S k <=? i) with false by (symmetry; apply Nat.leb_gt; lia).
Qed.

End FilterRace.

(** X18: a second click inside the fade of the first loses against it.
    With no timer pending, a click on a filter that does not select card
    [i] sets its hide timer for 300 ms later. If a filter that selects the
    card is clicked before [300 - 50 i] ms have passed, the card's show
    timer runs before the hide timer of the first click, which is never
    cancelled: once both have run the card has display [none] and opacity
    0 although the active filter selects it. *)
Theorem second_click_within_fade_hides_selected_card
    (s sA sB : ProjectFilters.State) (t0 t1 T : Z) (fA fB : string)
    (i : nat) (c : ProjectFilters.Card) :
  ProjectFilters.timers s = [] ->
  nth_error (ProjectFilters.cards s) i = Some c ->
  ProjectFilters.shows fA c = JS.Normal false ->
  ProjectFilters.shows fB c = JS.Normal true ->
  ProjectFilters.click t0 fA s = JS.Normal sA ->
  ProjectFilters.click t1 fB (ProjectFilters.advance t1 sA) = JS.Normal sB ->
  (t0 <= t1)%Z ->
  (t1 + Z.of_nat i * 50 < t0 + 300)%Z ->
  (t0 + 300 <= T)%Z ->
  ProjectFilters.active (ProjectFilters.advance T sB) = Some fB /\
  exists c',
    nth_error (ProjectFilters.cards (ProjectFilters.advance T sB)) i = Some c' /\
    ProjectFilters.wanted fB c' = "flex"%string /\
    ProjectFilters.display c' = "none"%string /\
    ProjectFilters.opacity c' = "0"%string.
Proof.
  intros Q N SA SB CA CB L01 L1 LT.
  unfold ProjectFilters.click in CA.
  destruct (ProjectFilters.filterCards t0 fA 0 (ProjectFilters.cards s))
    as [[csA tsA]|[csA tsA]] eqn:FA; [|discriminate].
  injection CA as <-. destruct (filterCards_normal _ _ _ _ FA) as [-> ->].
  rewrite Q in *. cbn [app] in *.
  set (tA := map (ProjectFilters.timerOf t0 fA)
               (combine (seq 0 (List.length (ProjectFilters.cards s)))
                        (ProjectFilters.cards s))) in *.
  set (sA := {| ProjectFilters.cards :=
                  map (ProjectFilters.marked fA) (ProjectFilters.cards s);
                ProjectFilters.active := Some fA;
                ProjectFilters.timers := tA |}) in *.
  assert (NA : nth_error (ProjectFilters.cards sA) i
               = Some (ProjectFilters.fade c)).
  { unfold sA. cbn [ProjectFilters.cards]. rewrite nth_error_map, N.
    cbn [option_map]. unfold ProjectFilters.marked. now rewrite SA. }
  set (s1 := ProjectFilters.advance t1 sA) in *.
  destruct (runTimers_card i
              (ProjectFilters.sortDue
                 (filter (fun x => (fst x <=? t1)%Z) (ProjectFilters.timers sA)))
              (ProjectFilters.cards sA) NA) as (c1 & N1 & C1 & O1 & _).
  change (nth_error (ProjectFilters.cards s1) i = Some c1) in N1.
  unfold ProjectFilters.click in CB.
  destruct (ProjectFilters.filterCards t1 fB 0 (ProjectFilters.cards s1))
    as [[csB tsB]|[csB tsB]] eqn:FB; [|discriminate].
  injection CB as <-. destruct (filterCards_normal _ _ _ _ FB) as [-> ->].
  set (tB := map (ProjectFilters.timerOf t1 fB)
               (combine (seq 0 (List.length (ProjectFilters.cards s1)))
                        (ProjectFilters.cards s1))) in *.
  assert (S1 : ProjectFilters.shows fB c1 = JS.Normal true).
  { unfold ProjectFilters.shows in *. cbn [ProjectFilters.fade] in C1.
    now rewrite C1. }
  split; [reflexivity|].
  set (sB := {| ProjectFilters.cards :=
                  map (ProjectFilters.marked fB) (ProjectFilters.cards s1);
                ProjectFilters.active := Some fB;
                ProjectFilters.timers := ProjectFilters.timers s1 ++ tB |}).
  assert (NB : nth_error (ProjectFilters.cards sB) i = Some c1).
  { unfold sB. cbn [ProjectFilters.cards]. rewrite nth_error_map, N1.
    cbn [option_map]. unfold ProjectFilters.marked. now rewrite S1. }
  destruct (runTimers_card i
              (ProjectFilters.sortDue
                 (filter (fun x => (fst x <=? T)%Z) (ProjectFilters.timers sB)))
              (ProjectFilters.cards sB) NB) as (c' & N' & C' & O' & D').
  exists c'. split; [exact N'|]. split; [|split].
  - rewrite (wanted_category fB c' c1 C'). unfold ProjectFilters.wanted.
    now rewrite S1.
  - rewrite D', lastDisplay_filter, filter_sortDue, filter_comm.
    unfold sB, s1, ProjectFilters.advance, sA.
    cbn [ProjectFilters.timers]. fold sA. fold s1. fold tB.
    rewrite filter_app, (filter_comm _ _ tA).
    unfold tA, tB. rewrite !timers_forCard.
    cbn [Nat.leb]. rewrite Nat.sub_0_r, N, N1.
    unfold ProjectFilters.timerOf. cbn [fst snd]. rewrite SA, S1.
    cbn [filter fst negb app].
    replace (t0 + 300 <=? t1)%Z with false by (symmetry; apply Z.leb_gt; lia).
    cbn [negb filter app fst].
    replace (t0 + 300 <=? T)%Z with true by (symmetry; apply Z.leb_le; lia).
    replace (t1 + Z.of_nat i * 50 <=? T)%Z with true
      by (symmetry; apply Z.leb_le; lia).
    cbn [ProjectFilters.sortDue ProjectFilters.insertDue fst].
    replace (t0 + 300 <=? t1 + Z.of_nat i * 50)%Z with false
      by (symmetry; apply Z.leb_gt; lia).
    unfold ProjectFilters.lastDisplay.
    cbn [fold_left snd ProjectFilters.index ProjectFilters.displayOf].
    rewrite Nat.eqb_refl. reflexivity.
  - rewrite O', O1. reflexivity.
Qed.

Lemma second_click_within_fade_hides_selected_card_witness :
  let c := {| ProjectFilters.category := Some "etl streaming"%string;
              ProjectFilters.display := ""%string;
              ProjectFilters.opacity := ""%string;
              ProjectFilters.animation := ""%string |} in
  let s := {| ProjectFilters.cards := [c];
              ProjectFilters.active := None;
              ProjectFilters.timers := [] |} in
  let sA := JS.stateOf (ProjectFilters.click 0 "ml" s) in
  let sB := JS.stateOf
              (ProjectFilters.click 100 "etl" (ProjectFilters.advance 100 sA)) in
  ProjectFilters.active (ProjectFilters.advance 1000 sB) = Some "etl"%string /\
  exists c',
    nth_error (ProjectFilters.cards (ProjectFilters.advance 1000 sB)) 0 = Some c' /\
    ProjectFilters.wanted "etl" c' = "flex"%string /\
    ProjectFilters.display c' = "none"%string /\
    ProjectFilters.opacity c' = "0"%string.
Proof.
  cbv zeta.
  eapply (@second_click_within_fade_hides_selected_card
           {| ProjectFilters.cards :=
                [{| ProjectFilters.category := Some "etl streaming"%string;
                    ProjectFilters.display := ""%string;
                    ProjectFilters.opacity := ""%string;
                    ProjectFilters.animation := ""%string |}];
              ProjectFilters.active := None;
              ProjectFilters.timers := [] |}
           _ _ 0 100 1000 "ml" "etl" 0
           {| ProjectFilters.category := Some "etl streaming"%string;
              ProjectFilters.display := ""%string;
              ProjectFilters.opacity := ""%string;
              ProjectFilters.animation := ""%string |});
    first [reflexivity | lia].
Defined.

(** *** The hit test and the tooltip of the node canvas *)

Section HoverFacts.

Variable isMobile : bool.
Variable width height : Q.
Variable tooltipPresent partsPresent : bool.

Local Abbreviation within := (Hover.within isMobile width height).
Local Abbreviation scan := (Hover.scan isMobile width height tooltipPresent partsPresent).

Lemma scan_none (m : Hover.Mouse) (ns : list PipelineCanvas.Node) :
  forall k s,
  (forall n, In n ns -> within m n = false) -> scan m k ns s = s.
Proof.
  induction ns as [|n ns IH]; intros k s H; cbn [Hover.scan]; [reflexivity|].
  rewrite (H n) by now left. apply IH. intros n' I. apply H. now right.
Qed.

(** The loop leaves the index of the last node in range. *)
Lemma scan_hovered (m : Hover.Mouse) (ns : list PipelineCanvas.Node) :
  forall k s j,
  Hover.hoveredNode (scan m k ns s) = Some j ->
  (Hover.hoveredNode s = Some j /\
   forall n, In n ns -> within m n = false) \/
  (k <= j /\ exists n,
     nth_error ns (j - k) = Some n /\ within m n = true /\
     forall j' n', j - k < j' -> nth_error ns j' = Some n' ->
                   within m n' = false).
Proof.
  induction ns as [|n0 ns IH]; intros k s j H; cbn [Hover.scan] in H.
  - left. split; [exact H | intros n []].
  - destruct (IH _ _ _ H) as [[E F]|(L & n & N & W & F)].
    + destruct (within m n0) eqn:W0.
      * cbn [Hover.hoveredNode] in E. injection E as <-. right.
        split; [lia|]. exists n0. rewrite Nat.sub_diag.
        split; [reflexivity|]. split; [exact W0|].
        intros [|j'] n' Lj N'; [lia|]. cbn [nth_error] in N'.
        apply F. eapply nth_error_In. exact N'.
      * left. split; [exact E|]. intros n [<-|I]; [exact W0 | now apply F].
    + right. split; [lia|]. exists n.
      replace (j - k) with (S (j - S k)) by lia.
      split; [exact N|]. split; [exact W|].
      intros [|j'] n' Lj N'; [lia|]. cbn [nth_error] in N'.
      apply (F j' n'); [lia | exact N'].
Qed.

Lemma scan_last (m : Hover.Mouse) (ns : list PipelineCanvas.Node) :
  forall k s i n,
  nth_error ns i = Some n -> within m n = true ->
  (forall j' n', i < j' -> nth_error ns j' = Some n' -> within m n' = false) ->
  let s' := scan m k ns s in
  Hover.hoveredNode s' = Some (k + i) /\
  Hover.cursor s' = "pointer"%string /\
  (tooltipPresent && partsPresent = true ->
   Tooltip.title (Hover.tooltip s') = PipelineCanvas.label n /\
   Tooltip.display (Hover.tooltip s') = "block"%string /\
   Tooltip.opacity (Hover.tooltip s') = "1"%string).
Proof.
  induction ns as [|n0 ns IH]; intros k s i n N W F; [now destruct i|].
  cbv zeta. cbn [Hover.scan]. destruct i as [|i]; cbn [nth_error] in N.
  - injection N as ->. rewrite W. rewrite scan_none.
    + cbn [Hover.hoveredNode Hover.cursor Hover.tooltip].
      rewrite Nat.add_0_r. split; [reflexivity|]. split; [reflexivity|].
      intros P. apply andb_true_iff in P. destruct P as [-> ->].
      cbn. now repeat split.
    + intros n' I. apply In_nth_error in I. destruct I as [b B].
      apply (F (S b) n'); [lia | exact B].
  - replace (k + S i) with (S k + i) by lia.
    apply (IH (S k) _ i n N W).
    intros j' n' Lj N'. apply (F (S j') n'); [lia | exact N'].
Qed.

Lemma scan_some (m : Hover.Mouse) (ns : list PipelineCanvas.Node) :
  forall k s,
  (exists n, In n ns /\ within m n = true) ->
  Hover.hoveredNode (scan m k ns s) <> None.
Proof.
  induction ns as [|n0 ns IH]; intros k s (n & I & W); [contradiction|].
  cbn [Hover.scan].
  destruct (existsb (within m) ns) eqn:E.
  - apply existsb_exists in E. apply IH. exact E.
  - assert (W0 : within m n0 = true).
    { destruct I as [->|I]; [exact W|].
      assert (X : existsb (within m) ns = true)
        by (apply existsb_exists; now exists n).
      congruence. }
    rewrite W0. rewrite scan_none; [discriminate|].
    intros n' I'. destruct (within m n') eqn:W'; [|reflexivity].
    assert (X : existsb (within m) ns = true)
      by (apply existsb_exists; now exists n').
    congruence.
Qed.

End HoverFacts.

Section HitTestNumbers.

Import PrimFloat.

(** The hit test is the script's binary64 computation: the node fractions
    are the numbers of the literals, and on a canvas 1300 wide the fourth
    node, at 0.7 * 1300 / 2, sits just left of 455, so that a mouse at 420
    counts as within 35 px of it. *)
Lemma within_is_binary64 :
  JS.number (15 # 100) = 0x1.3333333333333p-3%float /\
  JS.number (70 # 100) = 0x1.6666666666666p-1%float /\
  Hover.within false 1300 400
    {| Hover.clientX := 420; Hover.clientY := 100;
       Hover.rectLeft := 0; Hover.rectTop := 0 |}
    {| PipelineCanvas.x := 70 # 100; PipelineCanvas.y := 1 # 2;
       PipelineCanvas.label := "OUTPUT"; PipelineCanvas.color := "#ff0080";
       PipelineCanvas.section := "projects" |} = true.
Proof. vm_compute. repeat split. Qed.

End HitTestNumbers.

(** X19: the mouse handler forgets the node hovered before and leaves the
    last node of the array that is within 35 px of the mouse, if there is
    one: [hoveredNode] is node [i] exactly when node [i] is in range and no
    later node is, and it is [null] exactly when no node is in range. With
    a node hovered the cursor is [pointer] and the tooltip, when it exists
    with its two parts, is shown with the label of that node; with none
    the cursor is [default]. *)
Theorem hovered_node_is_the_last_in_range
    (isMobile : bool) (width height : Q) (tooltipPresent partsPresent : bool)
    (now : Z) (m : Hover.Mouse) (s : Hover.State) :
  let s' := Hover.handleMouseMove isMobile width height tooltipPresent
              partsPresent now m s in
  (forall i,
     Hover.hoveredNode s' = Some i <->
     exists n, nth_error PipelineCanvas.nodes i = Some n /\
       Hover.within isMobile width height m n = true /\
       forall j n', i < j -> nth_error PipelineCanvas.nodes j = Some n' ->
                    Hover.within isMobile width height m n' = false) /\
  (Hover.hoveredNode s' = None <->
   forall n, In n PipelineCanvas.nodes ->
             Hover.within isMobile width height m n = false) /\
  (forall i n,
     Hover.hoveredNode s' = Some i ->
     nth_error PipelineCanvas.nodes i = Some n ->
     Hover.cursor s' = "pointer"%string /\
     (tooltipPresent && partsPresent = true ->
      Tooltip.title (Hover.tooltip s') = PipelineCanvas.label n /\
      Tooltip.display (Hover.tooltip s') = "block"%string /\
      Tooltip.opacity (Hover.tooltip s') = "1"%string)) /\
  (Hover.hoveredNode s' = None -> Hover.cursor s' = "default"%string).
Proof.
  cbv zeta. unfold Hover.handleMouseMove. cbv zeta.
  set (s0 := {| Hover.hoveredNode := None; Hover.cursor := Hover.cursor s;
                Hover.tooltip := Hover.tooltip s |}).
  set (s1 := Hover.scan isMobile width height tooltipPresent partsPresent
               m 0 PipelineCanvas.nodes s0).
  assert (Fwd : forall i, Hover.hoveredNode s1 = Some i ->
            exists n, nth_error PipelineCanvas.nodes i = Some n /\
              Hover.within isMobile width height m n = true /\
              forall j n', i < j -> nth_error PipelineCanvas.nodes j = Some n' ->
                Hover.within isMobile width height m n' = false).
  { intros i H.
    destruct (scan_hovered _ _ _ _ _ _ _ _ _ H) as [[C _]|(_ & n & N & W & F)];
      [discriminate|].
    rewrite Nat.sub_0_r in N, F. now exists n. }
  assert (Bwd : forall i n, nth_error PipelineCanvas.nodes i = Some n ->
            Hover.within isMobile width height m n = true ->
            (forall j n', i < j -> nth_error PipelineCanvas.nodes j = Some n' ->
               Hover.within isMobile width height m n' = false) ->
            Hover.hoveredNode s1 = Some i /\
            Hover.cursor s1 = "pointer"%string /\
            (tooltipPresent && partsPresent = true ->
             Tooltip.title (Hover.tooltip s1) = PipelineCanvas.label n /\
             Tooltip.display (Hover.tooltip s1) = "block"%string /\
             Tooltip.opacity (Hover.tooltip s1) = "1"%string)).
  { intros i n N W F.
    exact (@scan_last isMobile width height tooltipPresent partsPresent
             m PipelineCanvas.nodes 0 s0 i n N W F). }
  destruct (Hover.hoveredNode s1) as [j|] eqn:E.
  - destruct (Fwd j eq_refl) as (nj & Nj & Wj & Fj).
    destruct (Bwd j nj Nj Wj Fj) as (_ & Cj & Tj).
    split; [|split; [|split]].
    + intros i. rewrite E. split.
      * intros H. injection H as <-. now exists nj.
      * intros (n & N & W & F). destruct (Bwd i n N W F) as [H _].
        congruence.
    + rewrite E. split; [discriminate|].
      intros A. rewrite (A nj) in Wj; [discriminate|].
      eapply nth_error_In. exact Nj.
    + intros i n H N. rewrite E in H. injection H as <-.
      assert (n = nj) by congruence. subst n. now split.
    + rewrite E. discriminate.
  - cbn [Hover.hoveredNode Hover.cursor].
    split; [|split; [|split]].
    + intros i. split; [discriminate|].
      intros (n & N & W & F). destruct (Bwd i n N W F) as [H _]. discriminate.
    + split; [|reflexivity]. intros _ n I.
      destruct (Hover.within isMobile width height m n) eqn:W; [|reflexivity].
      exfalso.
      apply (@scan_some isMobile width height tooltipPresent partsPresent
               m PipelineCanvas.nodes 0 s0); [now exists n | exact E].
    + intros i n H. discriminate.
    + reflexivity.
Qed.

Section TooltipFacts.

Variable isMobile : bool.
Variable width height : Q.

Local Abbreviation scan' := (Hover.scan isMobile width height true true).

Lemma expire_all (l : list Z) : forall s,
  fold_left (fun a (_ : Z) => Tooltip.expire a) l s
  = match l with [] => s | _ :: _ => Tooltip.expire s end.
Proof.
  induction l as [|d l IH]; intros s; cbn [fold_left]; [reflexivity|].
  rewrite IH. now destruct l.
Qed.

Lemma advance_opacity (t : Z) (s : Tooltip.State) :
  Tooltip.opacity (Tooltip.advance t s) = Tooltip.opacity s.
Proof.
  unfold Tooltip.advance. cbv zeta. cbn [Tooltip.opacity].
  rewrite expire_all. now destruct (filter _ _).
Qed.

Lemma advance_keeps (t d : Z) (s : Tooltip.State) :
  In d (Tooltip.timers s) -> (t < d)%Z ->
  In d (Tooltip.timers (Tooltip.advance t s)).
Proof.
  intros I L. unfold Tooltip.advance. cbv zeta. cbn [Tooltip.timers].
  apply filter_In. split; [exact I|].
  apply negb_true_iff. apply Z.leb_gt. exact L.
Qed.

Lemma advance_expires (t d : Z) (s : Tooltip.State) :
  In d (Tooltip.timers s) -> (d <= t)%Z ->
  Tooltip.display (Tooltip.advance t s) = "none"%string.
Proof.
  intros I L. unfold Tooltip.advance. cbv zeta. cbn [Tooltip.display].
  rewrite expire_all.
  destruct (filter (fun d0 => (d0 <=? t)%Z) (Tooltip.timers s)) eqn:F;
    [|reflexivity].
  assert (X : In d (filter (fun d0 => (d0 <=? t)%Z) (Tooltip.timers s))).
  { apply filter_In. split; [exact I | now apply Z.leb_le]. }
  rewrite F in X. contradiction.
Qed.

(** A node in range: the tooltip is shown, and no timer is touched. *)
Lemma scan_shows (m : Hover.Mouse) (ns : list PipelineCanvas.Node) :
  forall k s,
  (exists n, In n ns /\ Hover.within isMobile width height m n = true) ->
  Hover.hoveredNode (scan' m k ns s) <> None /\
  Tooltip.opacity (Hover.tooltip (scan' m k ns s)) = "1"%string.
Proof.
  induction ns as [|n0 ns IH]; intros k s (n & I & W); [contradiction|].
  cbn [Hover.scan].
  destruct (existsb (Hover.within isMobile width height m) ns) eqn:E.
  - apply existsb_exists in E. apply IH. exact E.
  - assert (W0 : Hover.within isMobile width height m n0 = true).
    { destruct I as [->|I]; [exact W|].
      assert (X : existsb (Hover.within isMobile width height m) ns = true)
        by (apply existsb_exists; now exists n).
      congruence. }
    rewrite W0. rewrite scan_none.
    + cbn. now split.
    + intros n' I'. destruct (Hover.within isMobile width height m n') eqn:W';
        [|reflexivity].
      assert (X : existsb (Hover.within isMobile width height m) ns = true)
        by (apply existsb_exists; now exists n').
      congruence.
Qed.

Lemma scan_timers (m : Hover.Mouse) (ns : list PipelineCanvas.Node) :
  forall k s,
  Tooltip.timers (Hover.tooltip (scan' m k ns s))
  = Tooltip.timers (Hover.tooltip s).
Proof.
  induction ns as [|n0 ns IH]; intros k s; cbn [Hover.scan]; [reflexivity|].
  rewrite IH. now destruct (Hover.within isMobile width height m n0).
Qed.

End TooltipFacts.

(** X20: the timer of [hidePipelineTooltip] is never cancelled. When the
    handler runs with the mouse off every node and runs again less than
    200 ms later with the mouse on a node, the tooltip it shows is taken
    away by the timer of the first run: once 200 ms have passed since that
    run, the tooltip has display [none] with opacity 1 while a node is
    hovered. *)
Theorem tooltip_hidden_by_stale_timer
    (isMobile : bool) (width height : Q)
    (t0 t1 T : Z) (m0 m1 : Hover.Mouse) (s : Hover.State) :
  (forall n, In n PipelineCanvas.nodes ->
     Hover.within isMobile width height m0 n = false) ->
  (exists n, In n PipelineCanvas.nodes /\
     Hover.within isMobile width height m1 n = true) ->
  (t0 <= t1)%Z -> (t1 < t0 + 200)%Z -> (t0 + 200 <= T)%Z ->
  let s1 := Hover.mouseMove isMobile width height true true t0 m0 s in
  let s2 := Hover.mouseMove isMobile width height true true t1 m1 s1 in
  let final := Hover.advance T s2 in
  Hover.hoveredNode final <> None /\
  Tooltip.opacity (Hover.tooltip final) = "1"%string /\
  Tooltip.display (Hover.tooltip final) = "none"%string.
Proof.
  intros Off On L01 L1 LT. cbv zeta.
  set (s1 := Hover.mouseMove isMobile width height true true t0 m0 s).
  assert (P1 : In (t0 + 200)%Z (Tooltip.timers (Hover.tooltip s1))).
  { unfold s1, Hover.mouseMove, Hover.handleMouseMove. cbv zeta.
    rewrite scan_none by exact Off.
    cbn [Hover.hoveredNode Hover.tooltip Tooltip.hidePipelineTooltip
         Tooltip.timers].
    apply in_or_app. right. now left. }
  set (s2 := Hover.mouseMove isMobile width height true true t1 m1 s1).
  set (a := {| Hover.hoveredNode := None;
               Hover.cursor := Hover.cursor (Hover.advance t1 s1);
               Hover.tooltip := Hover.tooltip (Hover.advance t1 s1) |}).
  destruct (@scan_shows isMobile width height m1 PipelineCanvas.nodes 0 a On)
    as [H2 O2].
  pose proof (@scan_timers isMobile width height m1 PipelineCanvas.nodes 0 a)
    as T2.
  assert (E2 : s2 = Hover.scan isMobile width height true true m1 0
                      PipelineCanvas.nodes a).
  { unfold s2, Hover.mouseMove, Hover.handleMouseMove. cbv zeta. fold a.
    destruct (Hover.hoveredNode
                (Hover.scan isMobile width height true true m1 0
                   PipelineCanvas.nodes a)); [reflexivity | contradiction]. }
  rewrite <- E2 in H2, O2, T2.
  assert (P2 : In (t0 + 200)%Z (Tooltip.timers (Hover.tooltip s2))).
  { rewrite T2. unfold a. cbn [Hover.tooltip Hover.advance].
    apply advance_keeps; [exact P1 | exact L1]. }
  unfold Hover.advance. cbn [Hover.hoveredNode Hover.tooltip].
  split; [exact H2|]. split.
  - now rewrite advance_opacity.
  - apply (@advance_expires T (t0 + 200)%Z); [exact P2 | exact LT].
Qed.

Lemma tooltip_hidden_by_stale_timer_witness :
  let blank := {| Hover.hoveredNode := None; Hover.cursor := "default"%string;
                  Hover.tooltip :=
                    {| Tooltip.title := ""%string; Tooltip.desc := ""%string;
                       Tooltip.display := "none"%string;
                       Tooltip.opacity := "0"%string;
                       Tooltip.left := 0; Tooltip.top := 0;
                       Tooltip.timers := [] |} |} in
  let m0 := {| Hover.clientX := 10; Hover.clientY := 10;
               Hover.rectLeft := 0; Hover.rectTop := 0 |} in
  let m1 := {| Hover.clientX := 240; Hover.clientY := 100;
               Hover.rectLeft := 0; Hover.rectTop := 0 |} in
  let s1 := Hover.mouseMove false 1600 400 true true 0 m0 blank in
  let s2 := Hover.mouseMove false 1600 400 true true 60 m1 s1 in
  let final := Hover.advance 200 s2 in
  Hover.hoveredNode final <> None /\
  Tooltip.opacity (Hover.tooltip final) = "1"%string /\
  Tooltip.display (Hover.tooltip final) = "none"%string.
Proof.
  cbv zeta.
  apply (@tooltip_hidden_by_stale_timer false 1600 400 0 60 200).
  - intros n I. cbn in I.
    destruct I as [<-|[<-|[<-|[<-|[<-|[]]]]]]; reflexivity.
  - exists {| PipelineCanvas.x := 30 # 100; PipelineCanvas.y := 1 # 2;
              PipelineCanvas.label := "PROCESS";
              PipelineCanvas.color := "#00d4ff";
              PipelineCanvas.section := "skills" |}.
    split; [right; left; reflexivity | reflexivity].
  - lia.
  - lia.
  - lia.
Defined.
